(** * RecordFactory: a shallow embedding of [src/r/R/RecordFactory.ts]

    The record tree is a graph of JavaScript objects that the factory
    mutates in place, and several operations hand the very same node
    object to more than one owner.  The embedding therefore keeps the
    nodes in an explicit heap: a node is a heap cell, a record map holds
    references to cells, and every method is a function that threads the
    heap (and the id generator) through its body.

    Numbers: ids are integers ([Z]); the [order] values and numeric
    property values kept in the heap are rationals ([Q]), which the
    operations on the heap compute with exactly: that is the arithmetic
    of the source as long as no operation rounds.  What the order
    allocator returns in IEEE double precision, rounding included, is
    modelled in [Binary64], on primitive floats.
    Strings are lists of 8-bit characters. *)

From Stdlib Require Import ZArith QArith String Ascii List Lia Bool.
From Stdlib Require Import Floats.PrimFloat Floats.SpecFloat Floats.FloatOps.
From Stdlib Require Import Numbers.DecimalString Numbers.DecimalZ Numbers.DecimalPos.
From Stdlib Require Import Sorting.Permutation Sorting.Sorted.
From stdpp Require Import base list.
Import ListNotations.

Set Warnings "-register-all".

Local Open Scope Z_scope.
Local Open Scope string_scope.

(** ** Outcomes of a call *)

(** A JavaScript call either returns or throws.  Recursion over the heap
    is bounded by a fuel argument, and heap references are natural
    numbers, so the model has two outcomes of its own: [NoFuel] (the
    bound was too small) and [Stuck] (a state no JavaScript program can
    be in: a reference outside the heap, an entry missing from the
    dictionary it was enumerated from). *)
Inductive Fault := TypeError | NoFuel | Stuck.

Inductive res (A : Type) : Type :=
| Ok (a : A)
| Err (e : Fault).
Arguments Ok {A} a.
Arguments Err {A} e.

(** ** JavaScript objects used as dictionaries *)

(** [Object.keys], [Object.values], [Object.entries] and [Object.assign]
    enumerate the own keys of an object in a fixed order: first the keys
    that are array indices (canonical numeric strings below [2^32 - 1]),
    in ascending numeric order, then all other string keys in insertion
    order.  A dictionary is therefore kept as the list of its entries in
    enumeration order. *)

Section StringKeyed.
Context {V : Type}.

(** [obj[k]] for a string key. *)
Fixpoint sget (k : string) (o : list (string * V)) : option V :=
  match o with
  | [] => None
  | (k', v) :: o' => if String.eqb k k' then Some v else sget k o'
  end.

(** [obj[k] = v]: an existing key keeps its place, a new one goes last. *)
Fixpoint sset (k : string) (v : V) (o : list (string * V)) : list (string * V) :=
  match o with
  | [] => [(k, v)]
  | (k', v') :: o' =>
      if String.eqb k k' then (k, v) :: o' else (k', v') :: sset k v o'
  end.
End StringKeyed.

Definition is_array_index (k : Z) : bool :=
  ((0 <=? k)%Z && (k <? 4294967295)%Z)%bool.

Section IdKeyed.
Context {V : Type}.

(** [obj[id]] for a numeric key. *)
Fixpoint iget (k : Z) (o : list (Z * V)) : option V :=
  match o with
  | [] => None
  | (k', v) :: o' => if Z.eqb k k' then Some v else iget k o'
  end.

(** Position of a new key [k]: array indices are kept ascending in front
    of the other keys, the other keys are appended. *)
Fixpoint iplace (k : Z) (v : V) (o : list (Z * V)) : list (Z * V) :=
  match o with
  | [] => [(k, v)]
  | (k', v') :: o' =>
      if (is_array_index k && (negb (is_array_index k') || (k <? k')%Z))%bool
      then (k, v) :: (k', v') :: o'
      else (k', v') :: iplace k v o'
  end.

Fixpoint ireplace (k : Z) (v : V) (o : list (Z * V)) : list (Z * V) :=
  match o with
  | [] => []
  | (k', v') :: o' =>
      if Z.eqb k k' then (k', v) :: o' else (k', v') :: ireplace k v o'
  end.

(** [obj[id] = v]. *)
Definition iset (k : Z) (v : V) (o : list (Z * V)) : list (Z * V) :=
  match iget k o with
  | Some _ => ireplace k v o
  | None => iplace k v o
  end.

(** [delete obj[id]]. *)
Fixpoint idelete (k : Z) (o : list (Z * V)) : list (Z * V) :=
  match o with
  | [] => []
  | (k', v') :: o' =>
      if Z.eqb k k' then o' else (k', v') :: idelete k o'
  end.

(** [Object.assign(target, source)]. *)
Definition assign (target source : list (Z * V)) : list (Z * V) :=
  fold_left (fun t kv => iset (fst kv) (snd kv) t) source target.
End IdKeyed.

(** ** The data model *)

(** Property values.  No modelled operation mutates a value from the
    inside, so values are kept by value. *)
Inductive value :=
| VNull
| VBool (b : bool)
| VNum (q : Q)
| VStr (s : string)
| VArr (l : list value)
| VObj (o : list (string * value)).

(** Heap references. *)
Abbreviation loc := nat.

(** A record map: id to node reference, in enumeration order. *)
Abbreviation RecordMap := (list (Z * loc)).

(** [RecordNode]: [name], [order] and [records] are optional fields.  The
    [records] object and the record maps inside it are held by value in
    their node: the code creates each of them for one node
    ([initializeRecordMap]) and never stores one in a second place. *)
Record RecordNode := mkNode {
  name : option string;
  type : string;
  order : option Q;
  props : list (string * value);
  records : option (list (string * RecordMap))
}.

Definition with_name (n : option string) (r : RecordNode) : RecordNode :=
  mkNode n (type r) (order r) (props r) (records r).
Definition with_order (o : option Q) (r : RecordNode) : RecordNode :=
  mkNode (name r) (type r) o (props r) (records r).
Definition with_props (p : list (string * value)) (r : RecordNode) : RecordNode :=
  mkNode (name r) (type r) (order r) p (records r).
Definition with_records (rs : option (list (string * RecordMap))) (r : RecordNode)
  : RecordNode :=
  mkNode (name r) (type r) (order r) (props r) rs.

Abbreviation Heap := (list RecordNode).

(** ** The order allocator *)

(** On the rationals of the heap; [Binary64] below has the same loops in
    double precision. *)

(** [sortedRecords[i]] for a JavaScript number [i]. *)
Definition at_index {A : Type} (l : list A) (i : Z) : option A :=
  if (i <? 0)%Z then None else l !! Z.to_nat i.

(** [r?.order ?? 0]. *)
Definition order_or_0 (r : option RecordNode) : Q :=
  match r with
  | Some n => match order n with Some q => q | None => 0%Q end
  | None => 0%Q
  end.

(** The four loops of [getNewOrders]; [n] counts the iterations left. *)
Fixpoint count_up (i : Z) (n : nat) : list Q :=
  match n with
  | O => []
  | S n' => inject_Z (i + 1) :: count_up (i + 1) n'
  end.

Fixpoint step_down (minOrder : Q) (n : nat) : list Q :=
  match n with
  | O => []
  | S n' => let minOrder := (minOrder - 1)%Q in minOrder :: step_down minOrder n'
  end.

Fixpoint step_up (maxOrder : Q) (n : nat) : list Q :=
  match n with
  | O => []
  | S n' => let maxOrder := (maxOrder + 1)%Q in maxOrder :: step_up maxOrder n'
  end.

Fixpoint subdivide (prevOrder nextOrder : Q) (newRecordsCount : nat)
    (segment : Q) (n : nat) : list Q :=
  match n with
  | O => []
  | S n' =>
      let segment := (segment + 1)%Q in
      (prevOrder
       + (nextOrder - prevOrder) / inject_Z (Z.of_nat newRecordsCount + 1) * segment)%Q
      :: subdivide prevOrder nextOrder newRecordsCount segment n'
  end.

(** [getNewOrders(sortedRecords, newRecordsCount, position)].  The interior
    branch reads [sortedRecords[position - 1].order] without a guard and
    throws when the position is out of range. *)
Definition getNewOrders (sortedRecords : list RecordNode) (newRecordsCount : nat)
    (position : option Z) : res (list Q) :=
  let len := Z.of_nat (length sortedRecords) in
  let minOrder := order_or_0 (at_index sortedRecords 0) in
  let maxOrder := order_or_0 (at_index sortedRecords (len - 1)) in
  if (len =? 0)%Z then Ok (count_up 0 newRecordsCount)
  else
    match position with
    | None => Ok (step_up maxOrder newRecordsCount)
    | Some p =>
        if (p =? 0)%Z then Ok (step_down minOrder newRecordsCount)
        else if (p =? len)%Z then Ok (step_up maxOrder newRecordsCount)
        else
          match at_index sortedRecords (p - 1), at_index sortedRecords p with
          | Some a, Some b =>
              Ok (subdivide (order_or_0 (Some a)) (order_or_0 (Some b))
                    newRecordsCount 0 newRecordsCount)
          | _, _ => Err TypeError
          end
    end.

(** ** The order allocator in double precision *)

(** A JavaScript number is an IEEE-754 binary64 value, and so is a
    primitive float: the four loops below compute, rounding included,
    what the loops of [getNewOrders] compute.  Of [sortedRecords] the
    allocator reads the [.order] fields and their number, nothing else:
    [orders] lists these fields, [None] for [undefined]. *)
Module Binary64.

(** The count [n] as a number: the double nearest to [n], which is [n]
    itself below [2^53]. *)
Definition of_nat (n : nat) : float :=
  SF2Prim (binary_normalize prec emax (Z.of_nat n) 0 false).

(** [r?.order ?? 0], for the [.order] field of [r] when [r] is there. *)
Definition order_or_0 (o : option (option float)) : float :=
  match o with
  | Some (Some q) => q
  | _ => 0%float
  end.

Fixpoint count_up (i : float) (n : nat) : list float :=
  match n with
  | O => []
  | S n' => (i + 1)%float :: count_up (i + 1)%float n'
  end.

Fixpoint step_down (minOrder : float) (n : nat) : list float :=
  match n with
  | O => []
  | S n' => let minOrder := (minOrder - 1)%float in minOrder :: step_down minOrder n'
  end.

Fixpoint step_up (maxOrder : float) (n : nat) : list float :=
  match n with
  | O => []
  | S n' => let maxOrder := (maxOrder + 1)%float in maxOrder :: step_up maxOrder n'
  end.

Fixpoint subdivide (prevOrder nextOrder : float) (newRecordsCount : nat)
    (segment : float) (n : nat) : list float :=
  match n with
  | O => []
  | S n' =>
      let segment := (segment + 1)%float in
      (prevOrder + (nextOrder - prevOrder) / (of_nat newRecordsCount + 1) * segment)%float
      :: subdivide prevOrder nextOrder newRecordsCount segment n'
  end.

(** [getNewOrders(sortedRecords, newRecordsCount, position)]. *)
Definition getNewOrders (orders : list (option float)) (newRecordsCount : nat)
    (position : option Z) : res (list float) :=
  let len := Z.of_nat (length orders) in
  let minOrder := order_or_0 (at_index orders 0) in
  let maxOrder := order_or_0 (at_index orders (len - 1)) in
  if (len =? 0)%Z then Ok (count_up 0%float newRecordsCount)
  else
    match position with
    | None => Ok (step_up maxOrder newRecordsCount)
    | Some p =>
        if (p =? 0)%Z then Ok (step_down minOrder newRecordsCount)
        else if (p =? len)%Z then Ok (step_up maxOrder newRecordsCount)
        else
          match at_index orders (p - 1), at_index orders p with
          | Some a, Some b =>
              Ok (subdivide (order_or_0 (Some a)) (order_or_0 (Some b))
                    newRecordsCount 0%float newRecordsCount)
          | _, _ => Err TypeError
          end
    end.

End Binary64.

(** ** Strings: addresses *)

Definition is_line_terminator (c : ascii) : bool :=
  (Ascii.eqb c "010" || Ascii.eqb c "013")%bool.

(** What is left of [s] after a maximal run of [.] (any character but a
    line terminator). *)
Fixpoint drop_line (s : string) : string :=
  match s with
  | EmptyString => EmptyString
  | String c s' => if is_line_terminator c then s else drop_line s'
  end.

(** [addr.replace(/!.*/, "")]: the first match only. *)
Fixpoint remove_property_suffix (addr : string) : string :=
  match addr with
  | EmptyString => EmptyString
  | String c s' =>
      if Ascii.eqb c "!" then drop_line s' else String c (remove_property_suffix s')
  end.

(** [s.split(sep)] for a one-character separator. *)
Fixpoint split (sep : ascii) (s : string) : list string :=
  match s with
  | EmptyString => [EmptyString]
  | String c s' =>
      if Ascii.eqb c sep then EmptyString :: split sep s'
      else match split sep s' with
           | x :: xs => String c x :: xs
           | [] => [String c EmptyString]
           end
  end.

(** [String(id)] inside a template literal: the decimal numeral. *)
Definition idToString (id : Z) : string := NilZero.string_of_int (Z.to_int id).

(** [Number(s)] on the integer-literal fragment of the string-to-number
    grammar: the empty string is [0], an optional [-] followed by decimal
    digits is that integer.  [None] stands for [NaN]; it is also the
    answer for [undefined] and for the strings outside the fragment
    (padding, fractions, exponents, other radices), which as keys of a
    record map name no entry stored under an integer id in this model. *)
Definition Number (s : option string) : option Z :=
  match s with
  | None => None
  | Some EmptyString => Some 0%Z
  | Some s => option_map Z.of_int (NilZero.int_of_string s)
  end.

(** ** The store and the collaborators outside the file *)

(** The type registry ([RecordTypes]), the name utility and the id
    generator are imported by the source; they are parameters here.
    [idSupply k] is the [k]-th number [generateIdV2] hands out. *)
Record Externals := mkExternals {
  isRecordType : string -> bool;
  isTypeChildOf : string -> string -> bool;
  defaultName : string -> option string;
  getSafeAndUniqueRecordName : string -> list string -> string;
  idSupply : nat -> Z
}.

Record Store := mkStore {
  heap : Heap;
  issued : nat
}.

(** [idAndRecord], [rAndP] and [idOrAddress]. *)
Record idAndRecord := mkIdAndRecord { ir_id : Z; ir_record : loc }.
Record rAndP := mkRAndP { rp_id : Z; rp_r : loc; rp_p : loc }.
Inductive idOrAddress := ById (id : Z) | ByAddress (addr : string).

(** The factory object: [_json] and [_type]. *)
Record RecordFactory := mkRF { _json : loc; _type : string }.

(** Calls that only read the heap. *)
Definition rbind {A B : Type} (m : res A) (f : A -> res B) : res B :=
  match m with
  | Ok a => f a
  | Err e => Err e
  end.

(** Calls that change the store. *)
Definition M (A : Type) : Type := Store -> res (A * Store).

Definition ret {A : Type} (a : A) : M A := fun s => Ok (a, s).
Definition bind {A B : Type} (m : M A) (f : A -> M B) : M B :=
  fun s => match m s with
           | Ok (a, s') => f a s'
           | Err e => Err e
           end.
Definition throw {A : Type} (e : Fault) : M A := fun _ => Err e.
Definition look {A : Type} (f : Heap -> res A) : M A :=
  fun s => match f (heap s) with
           | Ok a => Ok (a, s)
           | Err e => Err e
           end.

Declare Scope js_scope.
Delimit Scope js_scope with js.
Notation "'let*' x := m 'in' k" := (bind m (fun x => k))
  (at level 10, x pattern, m at level 100, k at level 200) : js_scope.
Notation "'do' m 'in' k" := (bind m (fun _ => k))
  (at level 10, m at level 100, k at level 200) : js_scope.
Notation "'let?' x := m 'in' k" := (rbind m (fun x => k))
  (at level 10, x pattern, m at level 100, k at level 200) : js_scope.
Local Open Scope js_scope.

Definition deref (h : Heap) (l : loc) : res RecordNode :=
  match h !! l with
  | Some n => Ok n
  | None => Err Stuck
  end.

Definition update (l : loc) (f : RecordNode -> RecordNode) : M unit :=
  fun s => match heap s !! l with
           | Some n => Ok (tt, mkStore (<[l := f n]> (heap s)) (issued s))
           | None => Err Stuck
           end.

Definition alloc (n : RecordNode) : M loc :=
  fun s => Ok (length (heap s), mkStore (app (heap s) [n]) (issued s)).

Fixpoint rfold {A B : Type} (f : B -> A -> res B) (l : list A) (b : B) : res B :=
  match l with
  | [] => Ok b
  | a :: l' => rbind (f b a) (rfold f l')
  end.

Fixpoint rmap {A B : Type} (f : A -> res B) (l : list A) : res (list B) :=
  match l with
  | [] => Ok []
  | a :: l' => rbind (f a) (fun b => rbind (rmap f l') (fun bs => Ok (b :: bs)))
  end.

Fixpoint foldM {A B : Type} (f : B -> A -> M B) (l : list A) (b : B) : M B :=
  match l with
  | [] => ret b
  | a :: l' => bind (f b a) (foldM f l')
  end.

Fixpoint forM {A : Type} (f : A -> M unit) (l : list A) : M unit :=
  match l with
  | [] => ret tt
  | a :: l' => bind (f a) (fun _ => forM f l')
  end.

(** ** The factory: queries *)

Section Factory.
Variable E : Externals.

(** [generateIdV2()]. *)
Definition generateIdV2 : M Z :=
  fun s => Ok (idSupply E (issued s), mkStore (heap s) (S (issued s))).

(** [new RecordFactory(json)]: throws on a type the registry does not
    know. *)
Definition newRecordFactory (h : Heap) (json : loc) : res RecordFactory :=
  let? n := deref h json in
  if isRecordType E (type n) then Ok (mkRF json (type n)) else Err TypeError.

(** [getProps]: [Object.keys(this._json.props)]. *)
Definition getProps (h : Heap) (this : RecordFactory) : res (list string) :=
  let? n := deref h (_json this) in Ok (map fst (props n)).

(** [getRecordTypes]: [Object.keys(this._json.records ?? {})]. *)
Definition getRecordTypes (h : Heap) (this : RecordFactory) : res (list string) :=
  let? n := deref h (_json this) in
  Ok (match records n with
      | Some rs => map fst rs
      | None => []
      end).

(** [getRecordMapOfType]: [this._json.records?.[type] ?? {}].  When the
    map is stored the result is that very map, otherwise a new, empty
    object that belongs to nobody. *)
Definition getRecordMapOfType (h : Heap) (this : RecordFactory) (ty : string)
  : res RecordMap :=
  let? n := deref h (_json this) in
  Ok (match records n with
      | Some rs => match sget ty rs with Some m => m | None => [] end
      | None => []
      end).

(** [getRecordMap]: a new object into which every stored map is copied
    with [Object.assign]. *)
Definition getRecordMap (h : Heap) (this : RecordFactory) : res RecordMap :=
  let recordMap : RecordMap := [] in
  let? n := deref h (_json this) in
  match records n with
  | None => Ok recordMap
  | Some _ =>
      let? types := getRecordTypes h this in
      rfold (fun recordMap ty =>
               let? recordMapOfType := getRecordMapOfType h this ty in
               Ok (assign recordMap recordMapOfType))
            types recordMap
  end.

(** [getDeepRecordMap], depth first. *)
Fixpoint getDeepRecordMap (fuel : nat) (h : Heap) (this : RecordFactory)
  : res RecordMap :=
  match fuel with
  | O => Err NoFuel
  | S fuel' =>
      let recordMap : RecordMap := [] in
      let? children := getRecordMap h this in
      let recordMap := assign recordMap children in
      rfold (fun recordMap record =>
               let? rf := newRecordFactory h record in
               let? childSubRecords := getDeepRecordMap fuel' h rf in
               Ok (assign recordMap childSubRecords))
            (map snd children) recordMap
  end.

(** [getRecordOfType]: [(this._json.records?.[type])?.[id]]; a [NaN] id
    names no entry. *)
Definition getRecordOfType (h : Heap) (this : RecordFactory) (ty : string)
    (id : option Z) : res (option loc) :=
  let? n := deref h (_json this) in
  Ok (match records n, id with
      | Some rs, Some id =>
          match sget ty rs with
          | Some m => iget id m
          | None => None
          end
      | _, _ => None
      end).

(** [getRecord]. *)
Definition getRecord (h : Heap) (this : RecordFactory) (id : Z)
  : res (option loc) :=
  let? m := getRecordMap h this in Ok (iget id m).

(** The loop of [getRecordAndParentWithAddress] over the segments that
    are left; [return undefined] leaves it at the first missing child. *)
Fixpoint walkAddress (h : Heap) (recordStringArray : list string)
    (parentR childR : loc) (childId : Z) : res (option rAndP) :=
  match recordStringArray with
  | [] => Ok (Some (mkRAndP childId childR parentR))
  | seg :: rest =>
      let parentR := childR in
      let parts := split ":" seg in
      let ty := match parts !! 0%nat with Some t => t | None => EmptyString end in
      let id := Number (parts !! 1%nat) in
      let? rf := newRecordFactory h parentR in
      let? newChild := getRecordOfType h rf ty id in
      match newChild, id with
      | Some c, Some i => walkAddress h rest parentR c i
      | _, _ => Ok None
      end
  end.

(** [getRecordAndParentWithAddress]. *)
Definition getRecordAndParentWithAddress (h : Heap) (this : RecordFactory)
    (addr : string) : res (option rAndP) :=
  let recordStringArray := split "|" (remove_property_suffix addr) in
  let? n := deref h (_json this) in
  match (length recordStringArray =? 0)%nat, records n with
  | false, Some _ =>
      walkAddress h recordStringArray (_json this) (_json this) 0%Z
  | _, _ => Ok None
  end.

(** [getDeepRecord]. *)
Definition getDeepRecord (fuel : nat) (h : Heap) (this : RecordFactory)
    (idOrAddr : idOrAddress) : res (option loc) :=
  match idOrAddr with
  | ById id =>
      let? m := getDeepRecordMap fuel h this in Ok (iget id m)
  | ByAddress addr =>
      let? rp := getRecordAndParentWithAddress h this addr in
      Ok (option_map rp_r rp)
  end.

(** [getAddress]; an empty [type], [selfAddr] or [property] is falsy. *)
Definition truthy (s : option string) : option string :=
  match s with
  | Some EmptyString => None
  | _ => s
  end.

Definition getAddress (h : Heap) (this : RecordFactory) (id : Z)
    (ty selfAddr property : option string) (index : option Z) : res string :=
  let? record := match truthy ty with
                 | Some t => getRecordOfType h this t (Some id)
                 | None => getRecord h this id
                 end in
  match record with
  | None => Ok EmptyString
  | Some record =>
      let? ty := match truthy ty with
                 | Some t => Ok t
                 | None => let? n := deref h record in Ok (type n)
                 end in
      let childPartialAddress := ty ++ ":" ++ idToString id in
      let address := match truthy selfAddr with
                     | Some a => a ++ "|" ++ childPartialAddress
                     | None => childPartialAddress
                     end in
      Ok (match truthy property with
          | Some prop =>
              let propertySuffix := match index with
                                    | Some i => prop ++ ">" ++ idToString i
                                    | None => prop
                                    end in
              address ++ "!" ++ propertySuffix
          | None => address
          end)
  end.

(** [getRecordAndParentWithId]: depth-first search through the merged
    maps. *)
Fixpoint getRecordAndParentWithId (fuel : nat) (h : Heap) (this : RecordFactory)
    (id : Z) : res (option rAndP) :=
  match fuel with
  | O => Err NoFuel
  | S fuel' =>
      let? recordMap := getRecordMap h this in
      (fix entries (l : list (Z * loc)) : res (option rAndP) :=
         match l with
         | [] => Ok None
         | (key, value) :: l' =>
             if (id =? key)%Z then
               match iget id recordMap with
               | Some r => Ok (Some (mkRAndP id r (_json this)))
               | None => Err Stuck
               end
             else
               let? rf := newRecordFactory h value in
               let? subRecordRAndP := getRecordAndParentWithId fuel' h rf id in
               match subRecordRAndP with
               | Some rp => Ok (Some rp)
               | None => entries l'
               end
         end) recordMap
  end.

(** [getRecordAndParent]. *)
Definition getRecordAndParent (fuel : nat) (h : Heap) (this : RecordFactory)
    (idOrAddr : idOrAddress) : res (option rAndP) :=
  match idOrAddr with
  | ById id => getRecordAndParentWithId fuel h this id
  | ByAddress addr => getRecordAndParentWithAddress h this addr
  end.

(** ** The factory: sorted records *)

(** First loop of [ensureOrderKeyPresentOfType]: it stops at the first
    record without an order. *)
Fixpoint scanOrders (h : Heap) (valuesArray : list loc) (maxOrder : Q)
  : res (bool * Q) :=
  match valuesArray with
  | [] => Ok (false, maxOrder)
  | v :: rest =>
      let? n := deref h v in
      match order n with
      | None => Ok (true, maxOrder)
      | Some o =>
          scanOrders h rest (if Qle_bool o maxOrder then maxOrder else o)
      end
  end.

(** Second loop: [v.order = maxOrder + 1; maxOrder++]. *)
Definition backfillOrder (maxOrder : Q) (v : loc) : M Q :=
  let* n := look (fun h => deref h v) in
  match order n with
  | None =>
      do update v (with_order (Some (maxOrder + 1)%Q)) in
      ret (maxOrder + 1)%Q
  | Some _ => ret maxOrder
  end.

(** [ensureOrderKeyPresentOfType]. *)
Definition ensureOrderKeyPresentOfType (this : RecordFactory) (ty : string)
  : M unit :=
  let* recordMap := look (fun h => getRecordMapOfType h this ty) in
  let valuesArray := map snd recordMap in
  let* found := look (fun h => scanOrders h valuesArray 0%Q) in
  let '(undefinedFound, maxOrder) := found in
  if negb undefinedFound then ret tt
  else
    let* _ := foldM backfillOrder valuesArray maxOrder in
    ret tt.

(** [Array.prototype.sort] with the comparator [a.order - b.order]: a
    stable sort by ascending order. *)
Fixpoint insertByOrder (x : Q * (Z * loc)) (l : list (Q * (Z * loc)))
  : list (Q * (Z * loc)) :=
  match l with
  | [] => [x]
  | y :: l' =>
      if Qle_bool (fst x) (fst y) then x :: y :: l' else y :: insertByOrder x l'
  end.

Definition sortByOrder (l : list (Q * (Z * loc))) : list (Q * (Z * loc)) :=
  fold_right insertByOrder [] l.

(** [getSortedRecordEntriesOfType].  Every order is defined once
    [ensureOrderKeyPresentOfType] has run. *)
Definition getSortedRecordEntriesOfType (this : RecordFactory) (ty : string)
  : M (list (Z * loc)) :=
  do ensureOrderKeyPresentOfType this ty in
  let* entriesArray := look (fun h => getRecordMapOfType h this ty) in
  let* keyed := look (fun h =>
                 rmap (fun entry : Z * loc =>
                         let? n := deref h (snd entry) in
                         match order n with
                         | Some o => Ok (o, entry)
                         | None => Err Stuck
                         end) entriesArray) in
  ret (map snd (sortByOrder keyed)).

Definition getSortedRecordIdsOfType (this : RecordFactory) (ty : string)
  : M (list Z) :=
  let* entriesArray := getSortedRecordEntriesOfType this ty in
  ret (map fst entriesArray).

Definition getSortedRecordsOfType (this : RecordFactory) (ty : string)
  : M (list loc) :=
  let* entriesArray := getSortedRecordEntriesOfType this ty in
  ret (map snd entriesArray).

(** ** The factory: ids *)

(** [value === id]. *)
Definition is_id (v : value) (id : Z) : bool :=
  match v with
  | VNum q => Qeq_bool q (inject_Z id)
  | _ => false
  end.

(** One turn of the loop over [getProps()] in [changeDeepRecordId]. *)
Definition rewriteProp (id newId : Z) (ps : list (string * value))
    (prop : string) : list (string * value) :=
  match sget prop ps with
  | Some v => if is_id v id then sset prop (VNum (inject_Z newId)) ps else ps
  | None => ps
  end.

(** [changeDeepRecordId].  [recordMap] is the object [getRecordMap]
    has just built: the entry is re-keyed in that object, which is
    dropped when the call returns. *)
Fixpoint changeDeepRecordId (fuel : nat) (this : RecordFactory) (id : Z)
    (newId : option Z) : M Z :=
  match fuel with
  | O => throw NoFuel
  | S fuel' =>
      let* newId := match newId with
                    | Some n => ret n
                    | None => generateIdV2
                    end in
      let* keys := look (fun h => getProps h this) in
      do update (_json this)
           (fun n => with_props (fold_left (rewriteProp id newId) keys (props n)) n) in
      let* recordMap := look (fun h => getRecordMap h this) in
      let* _ :=
        foldM (fun (recordMap : RecordMap) (entry : Z * loc) =>
                 let '(key, value) := entry in
                 let recordMap :=
                   if (id =? key)%Z then
                     match iget id recordMap with
                     | Some r => idelete id (iset newId r recordMap)
                     | None => recordMap
                     end
                   else recordMap in
                 let* rf := look (fun h => newRecordFactory h value) in
                 let* _ := changeDeepRecordId fuel' rf id (Some newId) in
                 ret recordMap)
              recordMap recordMap in
      ret newId
  end.

(** [cycleAllSubRecordIds]. *)
Definition cycleAllSubRecordIds (fuel : nat) (this : RecordFactory) : M unit :=
  let* allRecordsMap := look (fun h => getDeepRecordMap fuel h this) in
  forM (fun key => let* _ := changeDeepRecordId fuel this key None in ret tt)
       (map fst allRecordsMap).

(** ** The factory: adding, duplicating, reordering, copying *)

(** [initializeRecordMap]: the parent/child check sits inside the test
    for a missing map. *)
Definition initializeRecordMap (this : RecordFactory) (ty : string) : M bool :=
  if negb (isRecordType E ty) then ret false
  else
    let* n := look (fun h => deref h (_json this)) in
    let recordMap := match records n with
                     | Some rs => sget ty rs
                     | None => None
                     end in
    match recordMap with
    | Some _ => ret true
    | None =>
        if negb (isTypeChildOf E (_type this) ty) then ret false
        else
          do update (_json this)
               (fun n => match records n with
                         | None => with_records (Some []) n
                         | Some _ => n
                         end) in
          do update (_json this)
               (fun n => match records n with
                         | Some rs => with_records (Some (sset ty [] rs)) n
                         | None => n
                         end) in
          ret true
    end.

(** [changeRecordName].  [recordTypeDefinitions[type]] is [undefined]
    for a type outside the registry, and reading [.defaultName] of it
    throws. *)
Definition changeRecordName (this : RecordFactory) (ty : string) (id : Z)
    (newName : option string) : M (option loc) :=
  let* record := look (fun h => getRecordOfType h this ty (Some id)) in
  match record with
  | None => ret None
  | Some record =>
      if negb (isRecordType E ty) then throw TypeError
      else
        match defaultName E ty with
        | None => ret None
        | Some dflt =>
            let newName := match newName with Some n => n | None => dflt end in
            let* m := look (fun h => getRecordMapOfType h this ty) in
            let others := filter (fun idValue => negb (fst idValue =? id)%Z) m in
            let* names := look (fun h =>
                            rmap (fun idValue : Z * loc =>
                                    let? n := deref h (snd idValue) in Ok (name n))
                                 others) in
            let existingNames := omap (fun x => x) names in
            do update record
                 (with_name
                    (Some (if existsb (String.eqb newName) existingNames
                           then getSafeAndUniqueRecordName E newName existingNames
                           else newName))) in
            ret (Some record)
        end
  end.

(** [recordMap[id] = record], where [recordMap] is what
    [getRecordMapOfType(type)] returned: the stored map, or a detached
    empty object when none is stored. *)
Definition storeInRecordMap (this : RecordFactory) (ty : string) (id : Z)
    (record : loc) : M unit :=
  update (_json this)
    (fun n => match records n with
              | Some rs =>
                  match sget ty rs with
                  | Some m => with_records (Some (sset ty (iset id record m) rs)) n
                  | None => n
                  end
              | None => n
              end).

(** The body of [addRecord] below the [parentIdOrAddress] branch. *)
Definition addRecordHere (fuel : nat) (this : RecordFactory) (record : loc)
    (position : option Z) (id : option Z) (dontCycleSubRecordIds : bool)
  : M (option idAndRecord) :=
  let* rec := look (fun h => deref h record) in
  let ty := type rec in
  let* ok := initializeRecordMap this ty in
  if negb ok then ret None
  else
    let* recordsArray := getSortedRecordsOfType this ty in
    let* nodes := look (fun h => rmap (deref h) recordsArray) in
    let* orders := look (fun _ => getNewOrders nodes 1 position) in
    do update record (with_order (head orders)) in
    do (if negb dontCycleSubRecordIds then
          let* rf := look (fun h => newRecordFactory h record) in
          cycleAllSubRecordIds fuel rf
        else ret tt) in
    let* id := match id with
               | Some i => ret i
               | None => generateIdV2
               end in
    do storeInRecordMap this ty id record in
    let* rec := look (fun h => deref h record) in
    let* _ := changeRecordName this ty id (name rec) in
    ret (Some (mkIdAndRecord id record)).

(** [addRecord]. *)
Definition addRecord (fuel : nat) (this : RecordFactory) (record : loc)
    (position : option Z) (id : option Z) (dontCycleSubRecordIds : bool)
    (parentIdOrAddress : option idOrAddress) : M (option idAndRecord) :=
  match parentIdOrAddress with
  | Some parent =>
      let* parentRecord := look (fun h => getDeepRecord fuel h this parent) in
      match parentRecord with
      | None => ret None
      | Some parentRecord =>
          let* rf := look (fun h => newRecordFactory h parentRecord) in
          addRecordHere fuel rf record position id dontCycleSubRecordIds
      end
  | None => addRecordHere fuel this record position id dontCycleSubRecordIds
  end.

(** Modelled from the spec: [deepClone] of gdash's [jsUtils], which the
    source imports; "a fully independent copy of a node/value graph (no
    shared mutable sub-structures with the source)".  The copy of a node
    is a new cell whose record maps hold the copies of its children
    under the same ids. *)
Fixpoint deepClone (fuel : nat) (l : loc) : M loc :=
  match fuel with
  | O => throw NoFuel
  | S fuel' =>
      let* n := look (fun h => deref h l) in
      let* rs :=
        match records n with
        | None => ret None
        | Some rs =>
            let* rs' :=
              foldM (fun (acc : list (string * RecordMap)) (tm : string * RecordMap) =>
                       let* m' :=
                         foldM (fun (acc' : RecordMap) (entry : Z * loc) =>
                                  let* c := deepClone fuel' (snd entry) in
                                  ret (app acc' [(fst entry, c)]))
                               (snd tm) [] in
                       ret (app acc [(fst tm, m')]))
                    rs [] in
            ret (Some rs')
        end in
      alloc (with_records rs n)
  end.

(** [ids.indexOf(id)]. *)
Fixpoint indexOf (id : Z) (ids : list Z) : Z :=
  match ids with
  | [] => (-1)%Z
  | x :: ids' =>
      if (x =? id)%Z then 0%Z
      else let i := indexOf id ids' in
           if (i <? 0)%Z then (-1)%Z else (i + 1)%Z
  end.

(** [duplicateRecord]. *)
Definition duplicateRecord (fuel : nat) (this : RecordFactory) (ty : string)
    (id : Z) : M (option idAndRecord) :=
  let* orig := look (fun h => getRecordOfType h this ty (Some id)) in
  match orig with
  | None => ret None
  | Some orig =>
      let* clonedJson := deepClone fuel orig in
      let* o := look (fun h => deref h orig) in
      let* ids := getSortedRecordIdsOfType this (type o) in
      let origPositionIndex := indexOf id ids in
      addRecord fuel this clonedJson (Some (origPositionIndex + 1)%Z) None false None
  end.

(** [reorderRecords]: [sortedRecords[i].order = allOrders[i]] for every
    index of [sortedRecords]; past the end of [allOrders] the value
    assigned is [undefined]. *)
Definition reorderRecords (this : RecordFactory) (ty : string) (ids : list Z)
    (position : Z) : M unit :=
  let* sortedRecords := getSortedRecordsOfType this ty in
  let* nodes := look (fun h => rmap (deref h) sortedRecords) in
  let* allOrders := look (fun _ => getNewOrders nodes (length ids) (Some position)) in
  let* _ :=
    foldM (fun (i : nat) (r : loc) =>
             do update r (with_order (allOrders !! i)) in
             ret (S i))
          sortedRecords 0%nat in
  ret tt.

(** [copyDeepRecordsToAddress]: [rAndP.r], the node found at the source,
    is what goes to [addRecord]. *)
Definition copyDeepRecordsToAddress (fuel : nat) (this : RecordFactory)
    (source : list idOrAddress) (dest : idOrAddress) (destPosition : option Z)
  : M bool :=
  let* sourceRAndPArray :=
    look (fun h => rmap (getRecordAndParent fuel h this) source) in
  let* destRAndP := look (fun h => getRecordAndParent fuel h this dest) in
  match destRAndP with
  | None => ret false
  | Some _ =>
      do forM (fun rAndP : option rAndP =>
                 match rAndP with
                 | None => throw TypeError
                 | Some rp =>
                     let* _ := addRecord fuel this (rp_r rp) destPosition None false
                                 (Some dest) in
                     ret tt
                 end)
              (rev sourceRAndPArray) in
      ret true
  end.

End Factory.

(** ** A small registry and some trees *)

Module Demo.

Definition knownTypes : list string := ["project"; "scene"; "element"; "variable"].

Definition childTypes (parent : string) : list string :=
  if String.eqb parent "project" then ["scene"; "variable"]
  else if String.eqb parent "scene" then ["element"]
  else if String.eqb parent "element" then ["element"]
  else [].

Definition names (ty : string) : option string :=
  if String.eqb ty "scene" then Some "Scene"
  else if String.eqb ty "element" then Some "Element"
  else if String.eqb ty "variable" then Some "Variable"
  else None.

(** The registry: a project holds scenes and variables, a scene holds
    elements, an element holds elements; ids are handed out from 1000
    upwards. *)
Definition registry : Externals :=
  {| isRecordType := fun t => existsb (String.eqb t) knownTypes;
     isTypeChildOf := fun parent child => existsb (String.eqb child) (childTypes parent);
     defaultName := names;
     getSafeAndUniqueRecordName :=
       fun n taken => n ++ " (" ++ idToString (Z.of_nat (length taken)) ++ ")";
     idSupply := fun k => (1000 + Z.of_nat k)%Z |}.

Definition leaf (ty : string) (nm : option string) (o : option Q)
    (ps : list (string * value)) : RecordNode :=
  mkNode nm ty o ps None.

Definition node (ty : string) (nm : option string) (o : option Q)
    (ps : list (string * value)) (rs : list (string * RecordMap)) : RecordNode :=
  mkNode nm ty o ps (Some rs).

Definition project : RecordFactory := mkRF 0%nat "project".

(** project -> scene 1 -> element 2; the scene's property [first] holds
    the element's id. *)
Definition nested : Store :=
  mkStore
    [ node "project" None None [] [("scene", [(1%Z, 1%nat)])];
      node "scene" (Some "Scene") (Some 1%Q) [("first", VNum 2%Q)]
           [("element", [(2%Z, 2%nat)])];
      leaf "element" (Some "Element") (Some 1%Q) [] ]
    0.

(** project -> scene 1 (order 1), scene 2 (order 2). *)
Definition twoScenes : Store :=
  mkStore
    [ node "project" None None [] [("scene", [(1%Z, 1%nat); (2%Z, 2%nat)])];
      leaf "scene" (Some "A") (Some 1%Q) [];
      leaf "scene" (Some "B") (Some 2%Q) [] ]
    0.

(** project -> scene 1 (no order), scene 2 (order 5). *)
Definition legacy : Store :=
  mkStore
    [ node "project" None None [] [("scene", [(1%Z, 1%nat); (2%Z, 2%nat)])];
      leaf "scene" (Some "A") None [];
      leaf "scene" (Some "B") (Some 5%Q) [] ]
    0.

(** project -> scene 1 -> element 5 (order 1);
    project -> scene 2 -> element 6 (order 1), element 7 (order 2). *)
Definition twoRooms : Store :=
  mkStore
    [ node "project" None None [] [("scene", [(1%Z, 1%nat); (2%Z, 2%nat)])];
      node "scene" (Some "A") (Some 1%Q) [] [("element", [(5%Z, 3%nat)])];
      node "scene" (Some "B") (Some 2%Q) []
           [("element", [(6%Z, 4%nat); (7%Z, 5%nat)])];
      leaf "element" (Some "Lamp") (Some 1%Q) [];
      leaf "element" (Some "Door") (Some 1%Q) [];
      leaf "element" (Some "Window") (Some 2%Q) [] ]
    0.

(** A project that already holds a record map of elements, which the
    registry does not allow under a project, and a loose element. *)
Definition strayMap : Store :=
  mkStore
    [ node "project" None None [] [("element", [])];
      leaf "element" (Some "Lamp") None [] ]
    0.

(** project -> scene 1, scene 7 and variable 1: two children of
    different types under the id 1; the property [link] of scene 1
    holds the id of scene 7. *)
Definition clash : Store :=
  mkStore
    [ node "project" None None []
           [("scene", [(1%Z, 1%nat); (7%Z, 3%nat)]); ("variable", [(1%Z, 2%nat)])];
      leaf "scene" (Some "A") (Some 1%Q) [("link", VNum 7%Q)];
      leaf "variable" (Some "V") (Some 1%Q) [];
      leaf "scene" (Some "B") (Some 2%Q) [] ]
    0.

(** The two scenes again, and a loose scene (cell 3) that already
    carries the order 40. *)
Definition withLoose : Store :=
  mkStore
    [ node "project" None None [] [("scene", [(1%Z, 1%nat); (2%Z, 2%nat)])];
      leaf "scene" (Some "A") (Some 1%Q) [];
      leaf "scene" (Some "B") (Some 2%Q) [];
      leaf "scene" (Some "C") (Some 40%Q) [] ]
    0.

(** [addRecord({record: <cell 3>, position: 1})] on the project. *)
Definition added : res (option idAndRecord * Store) := Eval vm_compute in
  addRecord registry 10 project 3%nat (Some 1%Z) None false None withLoose.

End Demo.

(** ** The factory: property bags *)

(** [delete obj[k]] for a string key. *)
Fixpoint sdelete {V : Type} (k : string) (o : list (string * V)) : list (string * V) :=
  match o with
  | [] => []
  | (k', v') :: o' => if String.eqb k k' then o' else (k', v') :: sdelete k o'
  end.

Module Props.

Section Bag.
(** [recordTypeDefinitions[type].defaultValues], from the type registry. *)
Variable defaultValues : string -> list (string * value).

(** [json] and [getName]. *)
Definition json (this : RecordFactory) : loc := _json this.

Definition getName (h : Heap) (this : RecordFactory) : res (option string) :=
  let? n := deref h (_json this) in Ok (name n).

(** [get]: the stored value, [None] for [undefined]. *)
Definition get (h : Heap) (this : RecordFactory) (property : string)
  : res (option value) :=
  let? n := deref h (_json this) in Ok (sget property (props n)).

(** [set]. *)
Definition set (this : RecordFactory) (property : string) (v : value) : M unit :=
  update (_json this) (fun n => with_props (sset property v (props n)) n).

(** [delete]. *)
Definition delete (this : RecordFactory) (property : string) : M unit :=
  update (_json this) (fun n => with_props (sdelete property (props n)) n).

(** [getDefault]: a clone of the declared default; property values are
    kept by value, so the clone is the value. *)
Definition getDefault (this : RecordFactory) (property : string) : option value :=
  sget property (defaultValues (_type this)).

(** [getValueOrDefault]. *)
Definition getValueOrDefault (h : Heap) (this : RecordFactory) (property : string)
  : res (option value) :=
  let? stored := get h this property in
  match stored with
  | Some v => Ok (Some v)
  | None => Ok (getDefault this property)
  end.

(** [changePropertyName]: the value is stored under the new name first
    and the old name is deleted afterwards. *)
Definition changePropertyName (this : RecordFactory)
    (propertyName newPropertyName : string) : M unit :=
  update (_json this)
    (fun n => match sget propertyName (props n) with
              | Some v =>
                  with_props (sdelete propertyName (sset newPropertyName v (props n))) n
              | None => n
              end).

End Bag.

End Props.

(** ** The factory: breadcrumbs, deleting, moving, the clipboard *)

(** An entry of a breadcrumb list.  [getBreadCrumbsWithId] fills the
    [record] of an ancestor with [recordMap[id]], the entry of the merged
    map under the id that is searched for, which need not exist. *)
Record crumb := mkCrumb { cr_id : Z; cr_record : option loc }.

Section Editing.
Variable E : Externals.

(** [getBreadCrumbsWithId]. *)
Fixpoint getBreadCrumbsWithId (fuel : nat) (h : Heap) (this : RecordFactory)
    (id : Z) : res (option (list crumb)) :=
  match fuel with
  | O => Err NoFuel
  | S fuel' =>
      let? recordMap := getRecordMap h this in
      (fix entries (l : list (Z * loc)) : res (option (list crumb)) :=
         match l with
         | [] => Ok None
         | (key, value) :: l' =>
             if (id =? key)%Z then
               Ok (Some [mkCrumb key (iget id recordMap)])
             else
               let? rf := newRecordFactory E h value in
               let? breadCrumbArray := getBreadCrumbsWithId fuel' h rf id in
               match breadCrumbArray with
               | Some bc => Ok (Some (mkCrumb key (iget id recordMap) :: bc))
               | None => entries l'
               end
         end) recordMap
  end.

(** The loop of [getBreadCrumbsWithAddress]. *)
Fixpoint walkBreadCrumbs (h : Heap) (recordsStringArray : list string)
    (childR : loc) (breadCrumbs : list crumb) : res (option (list crumb)) :=
  match recordsStringArray with
  | [] => Ok (Some breadCrumbs)
  | seg :: rest =>
      let parentR := childR in
      let parts := split ":" seg in
      let ty := match parts !! 0%nat with Some t => t | None => EmptyString end in
      let id := Number (parts !! 1%nat) in
      let? rf := newRecordFactory E h parentR in
      let? newChild := getRecordOfType h rf ty id in
      match newChild, id with
      | Some c, Some i => walkBreadCrumbs h rest c (app breadCrumbs [mkCrumb i (Some c)])
      | _, _ => Ok None
      end
  end.

(** [getBreadCrumbsWithAddress]. *)
Definition getBreadCrumbsWithAddress (h : Heap) (this : RecordFactory)
    (addr : string) : res (option (list crumb)) :=
  let recordsStringArray := split "|" (remove_property_suffix addr) in
  let? n := deref h (_json this) in
  match (length recordsStringArray =? 0)%nat, records n with
  | false, Some _ => walkBreadCrumbs h recordsStringArray (_json this) []
  | _, _ => Ok None
  end.

(** [getBreadCrumbs]. *)
Definition getBreadCrumbs (fuel : nat) (h : Heap) (this : RecordFactory)
    (idOrAddr : idOrAddress) : res (option (list crumb)) :=
  match idOrAddr with
  | ById id => getBreadCrumbsWithId fuel h this id
  | ByAddress addr => getBreadCrumbsWithAddress h this addr
  end.

(** [delete recordMap[id]], where [recordMap] is what
    [getRecordMapOfType(type)] returned: the stored map, or a detached
    empty object when none is stored. *)
Definition removeFromRecordMap (this : RecordFactory) (ty : string) (id : Z)
  : M unit :=
  update (_json this)
    (fun n => match records n with
              | Some rs =>
                  match sget ty rs with
                  | Some m => with_records (Some (sset ty (idelete id m) rs)) n
                  | None => n
                  end
              | None => n
              end).

(** [deleteRecord]. *)
Definition deleteRecord (this : RecordFactory) (ty : string) (id : Z)
  : M (option idAndRecord) :=
  let* recordToDelete := look (fun h => getRecordOfType h this ty (Some id)) in
  match recordToDelete with
  | None => ret None
  | Some recordToDelete =>
      do removeFromRecordMap this ty id in
      ret (Some (mkIdAndRecord id recordToDelete))
  end.

(** [deleteDeepRecord]: the map that loses the entry is the parent's map
    of the type the record itself declares. *)
Definition deleteDeepRecord (fuel : nat) (this : RecordFactory)
    (idOrAddr : idOrAddress) : M (option idAndRecord) :=
  let* rAndP := look (fun h => getRecordAndParent E fuel h this idOrAddr) in
  match rAndP with
  | None => ret None
  | Some rp =>
      let recordToDelete := rp_r rp in
      let* rf := look (fun h => newRecordFactory E h (rp_p rp)) in
      let* r := look (fun h => deref h recordToDelete) in
      do removeFromRecordMap rf (type r) (rp_id rp) in
      ret (Some (mkIdAndRecord (rp_id rp) recordToDelete))
  end.

(** [changeDeepRecordName]. *)
Definition changeDeepRecordName (fuel : nat) (this : RecordFactory)
    (idOrAddr : idOrAddress) (newName : option string) : M (option loc) :=
  let* rAndP := look (fun h => getRecordAndParent E fuel h this idOrAddr) in
  match rAndP with
  | None => ret None
  | Some rp =>
      let* rf := look (fun h => newRecordFactory E h (rp_p rp)) in
      let* r := look (fun h => deref h (rp_r rp)) in
      changeRecordName E rf (type r) (rp_id rp) newName
  end.

(** [duplicateDeepRecord]. *)
Definition duplicateDeepRecord (fuel : nat) (this : RecordFactory)
    (idOrAddr : idOrAddress) : M (option rAndP) :=
  let* rAndP := look (fun h => getRecordAndParent E fuel h this idOrAddr) in
  match rAndP with
  | None => ret None
  | Some rp =>
      let* rf := look (fun h => newRecordFactory E h (rp_p rp)) in
      let* r := look (fun h => deref h (rp_r rp)) in
      let* duplicatedIdAndRecord := duplicateRecord E fuel rf (type r) (rp_id rp) in
      match duplicatedIdAndRecord with
      | None => ret None
      | Some d => ret (Some (mkRAndP (ir_id d) (ir_record d) (rp_p rp)))
      end
  end.

(** [moveDeepRecordsToAddress].  Reading [.p] of an unresolved source
    throws; the destination is resolved again by every [addRecord]. *)
Definition moveDeepRecordsToAddress (fuel : nat) (this : RecordFactory)
    (source : list idOrAddress) (dest : idOrAddress) (destPosition : option Z)
  : M bool :=
  let* sourceRAndPArray :=
    look (fun h => rmap (getRecordAndParent E fuel h this) source) in
  let* destRAndP := look (fun h => getRecordAndParent E fuel h this dest) in
  match destRAndP with
  | None => ret false
  | Some _ =>
      let* deletedIdAndRecords :=
        foldM (fun (deleted : list idAndRecord) (sourceRAndP : option rAndP) =>
                 match sourceRAndP with
                 | None => throw TypeError
                 | Some rp =>
                     let* parentRF := look (fun h => newRecordFactory E h (rp_p rp)) in
                     let* r := look (fun h => deref h (rp_r rp)) in
                     let* deletedIdAndRecord :=
                       deleteRecord parentRF (type r) (rp_id rp) in
                     match deletedIdAndRecord with
                     | Some d => ret (app deleted [d])
                     | None => ret deleted
                     end
                 end)
              sourceRAndPArray [] in
      do forM (fun idAndRecord : idAndRecord =>
                 let* _ := addRecord E fuel this (ir_record idAndRecord) destPosition
                             (Some (ir_id idAndRecord)) true (Some dest) in
                 ret tt)
              (rev deletedIdAndRecords) in
      ret true
  end.

(** [copySelectionToClipboard]: an unresolved selection is left out. *)
Definition copySelectionToClipboard (fuel : nat) (h : Heap) (this : RecordFactory)
    (selectedIdOrAddrs : list idOrAddress) : res (list idAndRecord) :=
  rfold (fun (nodes : list idAndRecord) idOrAddr =>
           let? rAndP := getRecordAndParent E fuel h this idOrAddr in
           match rAndP with
           | Some rp => Ok (app nodes [mkIdAndRecord (rp_id rp) (rp_r rp)])
           | None => Ok nodes
           end)
        selectedIdOrAddrs [].

(** [pasteFromClipboard]. *)
Definition pasteFromClipboard (fuel : nat) (this : RecordFactory)
    (parentIdOrAddr : idOrAddress) (nodes : list idAndRecord)
    (positionInPlace : option Z) : M unit :=
  let* parentRecord := look (fun h => getDeepRecord E fuel h this parentIdOrAddr) in
  match parentRecord with
  | None => ret tt
  | Some parentRecord =>
      let* parentRF := look (fun h => newRecordFactory E h parentRecord) in
      forM (fun node : idAndRecord =>
              let* _ := addRecord E fuel parentRF (ir_record node) positionInPlace
                          None false None in
              ret tt)
           nodes
  end.

End Editing.

(** ** Vocabulary of the properties *)

(** Does the character [c] occur in [s]? *)
Fixpoint mentions (c : ascii) (s : string) : bool :=
  match s with
  | EmptyString => false
  | String c' s' => (Ascii.eqb c' c || mentions c s')%bool
  end.

(** A type name that can stand in an address: not empty, and free of the
    three separators. *)
Definition address_safe (t : string) : bool :=
  (negb (String.eqb t EmptyString) && negb (mentions ":" t)
   && negb (mentions "|" t) && negb (mentions "!" t))%bool.

Fixpoint nodupb {A : Type} (eqb : A -> A -> bool) (l : list A) : bool :=
  match l with
  | [] => true
  | x :: l' => (negb (existsb (eqb x) l') && nodupb eqb l')%bool
  end.

(** All ids under which the children of a node are stored, type by type. *)
Definition childIds (rs : list (string * RecordMap)) : list Z :=
  concat (map (fun tm => map fst (snd tm)) rs).

(** All ids stored in the subtree of [l], in depth-first order and with
    repetitions. *)
Fixpoint storedIds (fuel : nat) (h : Heap) (l : loc) : res (list Z) :=
  match fuel with
  | O => Err NoFuel
  | S fuel' =>
      let? n := deref h l in
      match records n with
      | None => Ok []
      | Some rs =>
          rfold (fun acc (entry : Z * loc) =>
                   let? sub := storedIds fuel' h (snd entry) in
                   Ok (app acc (fst entry :: sub)))
                (concat (map snd rs)) []
      end
  end.

(** A subtree of depth below [d] in which every node has a registered
    type, every dictionary has each key once, and no node has two children
    under one id, whatever their types. *)
Fixpoint well_formed (E : Externals) (d : nat) (h : Heap) (l : loc) : bool :=
  match d with
  | O => false
  | S d' =>
      match h !! l with
      | None => false
      | Some n =>
          (isRecordType E (type n)
           && match records n with
              | None => true
              | Some rs =>
                  nodupb String.eqb (map fst rs)
                  && nodupb Z.eqb (childIds rs)
                  && forallb (fun tm : string * RecordMap =>
                                forallb (fun e : Z * loc => well_formed E d' h (snd e))
                                        (snd tm)) rs
              end)%bool
      end
  end.

(** [c] is stored in one of the record maps of [l]. *)
Definition child (h : Heap) (l c : loc) : Prop :=
  exists n rs ty m k,
    h !! l = Some n /\ records n = Some rs /\ In (ty, m) rs /\ In (k, c) m.

(** [l] lies in the subtree of [root]. *)
Inductive reach (h : Heap) : loc -> loc -> Prop :=
| reach_here : forall l, reach h l l
| reach_step : forall root c l, child h root c -> reach h c l -> reach h root l.

(** What a call may change besides the property bags. *)
Definition skeleton (n : RecordNode)
  : option string * string * option Q * option (list (string * RecordMap)) :=
  (name n, type n, order n, records n).

(** A frame condition: a call that returns leaves the field [F] of every
    cell as it was, and allocates nothing. *)
Definition preserves {A X : Type} (F : RecordNode -> X) (m : M A) : Prop :=
  forall s a s', m s = Ok (a, s') -> map F (heap s') = map F (heap s).



(** The factory whose node receives the record in [addRecord]: the
    factory itself, or the one built over the node [parentIdOrAddress]
    resolves to. *)
Definition receiver (E : Externals) (fuel : nat) (h : Heap) (this : RecordFactory)
    (parentIdOrAddress : option idOrAddress) (owner : RecordFactory) : Prop :=
  match parentIdOrAddress with
  | None => owner = this
  | Some parent =>
      exists l, getDeepRecord E fuel h this parent = Ok (Some l)
                /\ newRecordFactory E h l = Ok owner
  end.

(** What [changeDeepRecordId(id, newId)] may have done to a property bag
    ([touched]: every value is as before, or was the old id and is now
    the new one), and what it has done to the bag of a node it visited
    ([rewritten]: every value that was the old id is now the new one). *)
Definition touched (id newId : Z) (n n' : RecordNode) : Prop :=
  forall p v, sget p (props n) = Some v ->
    sget p (props n') = Some v \/
    (is_id v id = true /\ sget p (props n') = Some (VNum (inject_Z newId))).

Definition rewritten (id newId : Z) (n n' : RecordNode) : Prop :=
  forall p v, sget p (props n) = Some v -> is_id v id = true ->
    sget p (props n') = Some (VNum (inject_Z newId)).

Definition heap_touched (id newId : Z) (h h' : Heap) : Prop :=
  map skeleton h' = map skeleton h /\
  forall l n, h !! l = Some n -> exists n', h' !! l = Some n' /\ touched id newId n n'.

Definition rewritten_at (id newId : Z) (h h' : Heap) (l : loc) : Prop :=
  forall n, h !! l = Some n -> exists n', h' !! l = Some n' /\ rewritten id newId n n'.

(** ** A registry whose name utility keeps its contract *)

Module Samples.

(** [k] apostrophes. *)
Fixpoint ticks (k : nat) : string :=
  match k with
  | O => EmptyString
  | S k' => String "'" (ticks k')
  end.

(** A name longer than every taken one. *)
Definition longerName (n : string) (taken : list string) : string :=
  n ++ ticks (S (fold_right Nat.max 0%nat (map String.length taken))).

(** The registry of [Demo] with [longerName] as its name utility. *)
Definition registry : Externals :=
  {| isRecordType := isRecordType Demo.registry;
     isTypeChildOf := isTypeChildOf Demo.registry;
     defaultName := defaultName Demo.registry;
     getSafeAndUniqueRecordName := longerName;
     idSupply := idSupply Demo.registry |}.

(** project -> scene 1 "Hall", scene 2 "Hall 2", scene 3 "Yard". *)
Definition named : Store :=
  mkStore
    [ Demo.node "project" None None []
        [("scene", [(1%Z, 1%nat); (2%Z, 2%nat); (3%Z, 3%nat)])];
      Demo.leaf "scene" (Some "Hall") (Some 1%Q) [];
      Demo.leaf "scene" (Some "Hall 2") (Some 2%Q) [];
      Demo.leaf "scene" (Some "Yard") (Some 3%Q) [] ]
    0.

End Samples.

(** ** Vocabulary of the further properties *)

(** A string without a line terminator, which [.] of [/!.*/] would not
    cross. *)
Definition single_line (s : string) : bool :=
  (negb (mentions "010" s) && negb (mentions "013" s))%bool.

(** * Properties *)

(** ** The order allocator *)

Section Allocator.







End Allocator.

(** ** The order allocator in double precision *)

Section Doubles.











End Doubles.





(** ** Reasoning about calls *)

Section Calls.

Lemma bind_Ok {A B : Type} (m : M A) (f : A -> M B) s b s' :
  bind m f s = Ok (b, s') <->
  exists a s1, m s = Ok (a, s1) /\ f a s1 = Ok (b, s').
Proof.
  unfold bind. split.
  - destruct (m s) as [[a s1]|e]; [|discriminate]. intros H. now exists a, s1.
  - intros (a & s1 & -> & H). exact H.
Qed.

Lemma look_Ok {A : Type} (f : Heap -> res A) s a s' :
  look f s = Ok (a, s') <-> f (heap s) = Ok a /\ s' = s.
Proof.
  unfold look. split.
  - destruct (f (heap s)); [|discriminate]. intros [= -> ->]. now split.
  - intros [-> ->]. reflexivity.
Qed.

Lemma ret_Ok {A : Type} (x : A) s a s' :
  ret x s = Ok (a, s') <-> a = x /\ s' = s.
Proof. unfold ret. split; [intros [= -> ->]; now split | intros [-> ->]; reflexivity]. Qed.

Lemma update_Ok l f s u s' :
  update l f s = Ok (u, s') <->
  exists n, heap s !! l = Some n /\
            s' = mkStore (<[l := f n]> (heap s)) (issued s).
Proof.
  unfold update. split.
  - destruct (heap s !! l) as [n|]; [|discriminate].
    intros [= _ <-]. now exists n.
  - intros (n & -> & ->). now destruct u.
Qed.

Lemma rbind_Ok {A B : Type} (m : res A) (f : A -> res B) b :
  rbind m f = Ok b <-> exists a, m = Ok a /\ f a = Ok b.
Proof.
  unfold rbind. split.
  - destruct m as [a|e]; [|discriminate]. intros H. now exists a.
  - intros (a & -> & H). exact H.
Qed.

Lemma deref_Ok h l n : deref h l = Ok n <-> h !! l = Some n.
Proof.
  unfold deref. destruct (h !! l); split; intros H; try discriminate; congruence.
Qed.

Context {X : Type} (F : RecordNode -> X).

Lemma preserves_ret {A : Type} (a : A) : preserves F (ret a).
Proof. intros s a' s' H. apply ret_Ok in H as [_ ->]. reflexivity. Qed.

Lemma preserves_throw {A : Type} e : preserves F (@throw A e).
Proof. intros s a s' H. discriminate. Qed.

Lemma preserves_look {A : Type} (f : Heap -> res A) : preserves F (look f).
Proof. intros s a s' H. apply look_Ok in H as [_ ->]. reflexivity. Qed.

Lemma preserves_bind {A B : Type} (m : M A) (f : A -> M B) :
  preserves F m -> (forall a, preserves F (f a)) -> preserves F (bind m f).
Proof.
  intros Hm Hf s b s' H. apply bind_Ok in H as (a & s1 & H1 & H2).
  rewrite (Hf a _ _ _ H2). exact (Hm _ _ _ H1).
Qed.

Lemma preserves_update l f :
  (forall n, F (f n) = F n) -> preserves F (update l f).
Proof.
  intros Hf s u s' H. apply update_Ok in H as (n & Hn & ->). simpl.
  change (map F (<[l:=f n]> (heap s))) with (F <$> <[l:=f n]> (heap s)).
  rewrite list_fmap_insert, Hf.
  apply list_insert_id. rewrite list_lookup_fmap, Hn. reflexivity.
Qed.

Lemma preserves_foldM {A B : Type} (f : B -> A -> M B) l :
  (forall b a, preserves F (f b a)) -> forall b, preserves F (foldM f l b).
Proof.
  intros Hf. induction l as [|a l IH]; intros b; simpl.
  - apply preserves_ret.
  - apply preserves_bind; [apply Hf | exact IH].
Qed.

Lemma preserves_forM {A : Type} (f : A -> M unit) l :
  (forall a, preserves F (f a)) -> preserves F (forM f l).
Proof.
  intros Hf. induction l as [|a l IH]; simpl.
  - apply preserves_ret.
  - apply preserves_bind; [apply Hf | intros _; exact IH].
Qed.

Lemma preserves_generateIdV2 E : preserves F (generateIdV2 E).
Proof. intros s a s' [= _ <-]. reflexivity. Qed.

End Calls.

(** Splits a frame goal along the structure of the call. *)
Ltac frame_step :=
  match goal with
  | |- preserves _ (bind _ _) => apply preserves_bind; [|intros ?]
  | |- preserves _ (ret _) => apply preserves_ret
  | |- preserves _ (throw _) => apply preserves_throw
  | |- preserves _ (look _) => apply preserves_look
  | |- preserves _ (generateIdV2 _) => apply preserves_generateIdV2
  | |- preserves _ (update _ _) => apply preserves_update; intros ?
  | |- preserves _ (foldM _ _ _) => apply preserves_foldM; intros ? ?
  | |- preserves _ (forM _ _) => apply preserves_forM; intros ?
  | |- preserves _ (match ?x with _ => _ end) => destruct x
  end.

Ltac frame := repeat frame_step.

Section Frames.
Variable E : Externals.
Context {X : Type} (F : RecordNode -> X).

(** [changeDeepRecordId] writes property bags and nothing else: the
    record maps of every node, in particular, are as before. *)
Lemma changeDeepRecordId_frame :
  (forall p n, F (with_props p n) = F n) ->
  forall fuel this id newId, preserves F (changeDeepRecordId E fuel this id newId).
Proof.
  intros HF. induction fuel as [|fuel IH]; intros this id newId; simpl.
  - apply preserves_throw.
  - frame; try apply HF; try apply IH.
Qed.

Lemma cycleAllSubRecordIds_frame :
  (forall p n, F (with_props p n) = F n) ->
  forall fuel this, preserves F (cycleAllSubRecordIds E fuel this).
Proof.
  intros HF fuel this. unfold cycleAllSubRecordIds.
  frame. apply changeDeepRecordId_frame. exact HF.
Qed.

Lemma getSortedRecordEntriesOfType_frame :
  (forall o n, F (with_order o n) = F n) ->
  forall this ty, preserves F (getSortedRecordEntriesOfType this ty).
Proof.
  intros HF this ty. unfold getSortedRecordEntriesOfType, ensureOrderKeyPresentOfType,
    backfillOrder.
  frame; apply HF.
Qed.

Lemma getSortedRecordsOfType_frame :
  (forall o n, F (with_order o n) = F n) ->
  forall this ty, preserves F (getSortedRecordsOfType this ty).
Proof.
  intros HF this ty. unfold getSortedRecordsOfType.
  frame. now apply getSortedRecordEntriesOfType_frame.
Qed.

Lemma initializeRecordMap_frame :
  (forall r n, F (with_records r n) = F n) ->
  forall this ty, preserves F (initializeRecordMap E this ty).
Proof.
  intros HF this ty. unfold initializeRecordMap.
  frame;
    repeat match goal with
           | |- context [match ?x with _ => _ end] => destruct x
           end;
    try apply HF; reflexivity.
Qed.

Lemma storeInRecordMap_frame :
  (forall r n, F (with_records r n) = F n) ->
  forall this ty id record, preserves F (storeInRecordMap this ty id record).
Proof.
  intros HF this ty id record. unfold storeInRecordMap.
  frame;
    repeat match goal with
           | |- context [match ?x with _ => _ end] => destruct x
           end;
    try apply HF; reflexivity.
Qed.

Lemma changeRecordName_frame :
  (forall x n, F (with_name x n) = F n) ->
  forall this ty id newName, preserves F (changeRecordName E this ty id newName).
Proof.
  intros HF this ty id newName. unfold changeRecordName.
  frame. apply HF.
Qed.

End Frames.

(** ** Addresses *)

Section Addresses.

Lemma mentions_app c a b :
  mentions c (a ++ b) = (mentions c a || mentions c b)%bool.
Proof. induction a as [|x a IH]; simpl; [reflexivity|]. now rewrite IH, orb_assoc. Qed.

Lemma remove_property_suffix_plain s :
  mentions "!" s = false -> remove_property_suffix s = s.
Proof.
  induction s as [|x s IH]; simpl; [reflexivity|].
  intros H. apply orb_false_iff in H as [Hx Hs].
  rewrite Hx. now rewrite IH.
Qed.

Lemma split_plain c s : mentions c s = false -> split c s = [s].
Proof.
  induction s as [|x s IH]; simpl; [reflexivity|].
  intros H. apply orb_false_iff in H as [Hx Hs].
  rewrite Hx. now rewrite IH.
Qed.

Lemma split_at c a b :
  mentions c a = false -> split c (a ++ String c b) = a :: split c b.
Proof.
  induction a as [|x a IH]; simpl.
  - intros _. now rewrite Ascii.eqb_refl.
  - intros H. apply orb_false_iff in H as [Hx Ha].
    rewrite Hx. now rewrite IH.
Qed.

(** A decimal numeral holds digits only. *)
Lemma numeral_plain c d :
  (forall k, (k < 10)%nat -> Ascii.eqb (ascii_of_nat (48 + k)) c = false) ->
  mentions c (NilEmpty.string_of_uint d) = false.
Proof.
  intros Hc. induction d; simpl; [reflexivity|..]; rewrite IHd, orb_false_r.
  - apply (Hc 0%nat); lia.
  - apply (Hc 1%nat); lia.
  - apply (Hc 2%nat); lia.
  - apply (Hc 3%nat); lia.
  - apply (Hc 4%nat); lia.
  - apply (Hc 5%nat); lia.
  - apply (Hc 6%nat); lia.
  - apply (Hc 7%nat); lia.
  - apply (Hc 8%nat); lia.
  - apply (Hc 9%nat); lia.
Qed.

Lemma idToString_plain c id :
  Ascii.eqb "-" c = false ->
  (forall k, (k < 10)%nat -> Ascii.eqb (ascii_of_nat (48 + k)) c = false) ->
  mentions c (idToString id) = false.
Proof.
  intros Hm Hc. unfold idToString.
  assert (Hu : forall d, mentions c (NilZero.string_of_uint d) = false).
  { intros d. destruct d; try apply (numeral_plain c _ Hc).
    simpl. rewrite orb_false_r. apply (Hc 0%nat); lia. }
  destruct (Z.to_int id); unfold NilZero.string_of_int; [apply Hu|].
  cbn [mentions]. now rewrite Hm, Hu.
Qed.

Lemma not_a_digit c :
  (nat_of_ascii c < 48 \/ 57 < nat_of_ascii c)%nat ->
  forall k, (k < 10)%nat -> Ascii.eqb (ascii_of_nat (48 + k)) c = false.
Proof.
  intros Hc k Hk. apply Ascii.eqb_neq. intros <-.
  rewrite nat_ascii_embedding in Hc; lia.
Qed.

Lemma idToString_no_colon id : mentions ":" (idToString id) = false.
Proof. apply idToString_plain; [reflexivity|]. apply not_a_digit. vm_compute. lia. Qed.

Lemma idToString_no_bar id : mentions "|" (idToString id) = false.
Proof. apply idToString_plain; [reflexivity|]. apply not_a_digit. vm_compute. lia. Qed.

Lemma idToString_no_bang id : mentions "!" (idToString id) = false.
Proof. apply idToString_plain; [reflexivity|]. apply not_a_digit. vm_compute. lia. Qed.

(** [Number(String(id))] is [id]. *)
Lemma Number_idToString id : Number (Some (idToString id)) = Some id.
Proof.
  unfold Number, idToString.
  assert (Hp : Z.to_int id <> Decimal.Pos Decimal.Nil).
  { destruct id; simpl; try discriminate.
    intros [= H]. now apply (DecimalPos.Unsigned.to_uint_nonnil p). }
  assert (Hn : Z.to_int id <> Decimal.Neg Decimal.Nil).
  { destruct id; simpl; try discriminate.
    intros [= H]. now apply (DecimalPos.Unsigned.to_uint_nonnil p). }
  pose proof (NilZero.isi _ Hp Hn) as H.
  destruct (NilZero.string_of_int (Z.to_int id)) eqn:Hs.
  - discriminate.
  - rewrite H. simpl. now rewrite DecimalZ.of_to.
Qed.

Lemma address_safe_spec t :
  address_safe t = true ->
  t <> EmptyString /\ mentions ":" t = false /\ mentions "|" t = false
  /\ mentions "!" t = false.
Proof.
  unfold address_safe. rewrite !andb_true_iff, !negb_true_iff.
  intros [[[H1 H2] H3] H4]. repeat split; try assumption.
  intros ->. discriminate.
Qed.

(** The address of a direct child parses back into its type and id. *)
Lemma child_address_parses t id :
  address_safe t = true ->
  let addr := t ++ ":" ++ idToString id in
  split "|" (remove_property_suffix addr) = [addr] /\
  split ":" addr = [t; idToString id].
Proof.
  intros Ht addr. apply address_safe_spec in Ht as (_ & Hc & Hb & Hx).
  assert (Hbang : mentions "!" addr = false).
  { unfold addr. rewrite !mentions_app, Hx, idToString_no_bang. reflexivity. }
  assert (Hbar : mentions "|" addr = false).
  { unfold addr. rewrite !mentions_app, Hb, idToString_no_bar. reflexivity. }
  split.
  - rewrite remove_property_suffix_plain by exact Hbang. now apply split_plain.
  - unfold addr. simpl. rewrite split_at by exact Hc.
    now rewrite split_plain by apply idToString_no_colon.
Qed.

End Addresses.

(** ** Dictionaries *)

Section Dictionaries.
Context {V : Type}.

Lemma sget_sset_eq k (v : V) o : sget k (sset k v o) = Some v.
Proof.
  induction o as [|[k' v'] o IH]; simpl.
  - now rewrite String.eqb_refl.
  - destruct (String.eqb k k') eqn:Hk; simpl; rewrite ?String.eqb_refl, ?Hk; auto.
Qed.

Lemma sget_sset_ne k k' (v : V) o : k <> k' -> sget k (sset k' v o) = sget k o.
Proof.
  intros Hne. induction o as [|[k2 v2] o IH]; simpl.
  - apply String.eqb_neq in Hne. now rewrite Hne.
  - destruct (String.eqb k' k2) eqn:Hk; simpl.
    + apply String.eqb_eq in Hk. subst k2.
      apply String.eqb_neq in Hne. now rewrite Hne.
    + now rewrite IH.
Qed.

Lemma iget_ireplace k k' (v : V) o :
  iget k (ireplace k' v o) =
  if (k =? k')%Z then match iget k' o with Some _ => Some v | None => None end
  else iget k o.
Proof.
  induction o as [|[k2 v2] o IH]; simpl.
  - now destruct (k =? k')%Z.
  - destruct (Z.eqb_spec k' k2) as [->|Hne]; simpl.
    + destruct (Z.eqb_spec k k2); reflexivity.
    + rewrite IH. destruct (Z.eqb_spec k k') as [->|Hk].
      * destruct (Z.eqb_spec k' k2); [contradiction|reflexivity].
      * reflexivity.
Qed.

Lemma iget_iplace k k' (v : V) o :
  iget k' o = None ->
  iget k (iplace k' v o) = if (k =? k')%Z then Some v else iget k o.
Proof.
  induction o as [|[k2 v2] o IH]; simpl; intros Hnone.
  - reflexivity.
  - destruct (Z.eqb_spec k' k2) as [->|Hne]; [discriminate|].
    destruct (is_array_index k' && (negb (is_array_index k2) || (k' <? k2)%Z))%bool;
      simpl.
    + reflexivity.
    + rewrite IH by exact Hnone.
      destruct (Z.eqb_spec k k') as [->|Hk]; [|reflexivity].
      destruct (Z.eqb_spec k' k2); [contradiction|reflexivity].
Qed.

Lemma iget_iset k k' (v : V) o :
  iget k (iset k' v o) = if (k =? k')%Z then Some v else iget k o.
Proof.
  unfold iset. destruct (iget k' o) eqn:Hk'.
  - rewrite iget_ireplace, Hk'. reflexivity.
  - now apply iget_iplace.
Qed.

Lemma iget_In k (v : V) o : iget k o = Some v -> In (k, v) o.
Proof.
  induction o as [|[k' v'] o IH]; simpl; [discriminate|].
  destruct (Z.eqb_spec k k') as [->|Hne].
  - intros [= ->]. now left.
  - intros H. right. now apply IH.
Qed.

End Dictionaries.

(** ** Adding a record *)

Section Adding.
Variable E : Externals.

Lemma same_field {X : Type} (F : RecordNode -> X) (h h' : Heap) l n :
  map F h' = map F h -> h !! l = Some n ->
  exists n', h' !! l = Some n' /\ F n' = F n.
Proof.
  intros Hmap Hl.
  assert (H : map F h' !! l = Some (F n)).
  { rewrite Hmap. change (map F h) with (F <$> h).
    now rewrite list_lookup_fmap, Hl. }
  change (map F h') with (F <$> h') in H. rewrite list_lookup_fmap in H.
  destruct (h' !! l) as [n'|]; [|discriminate].
  exists n'. split; [reflexivity|]. simpl in H. congruence.
Qed.

(** The queries on record maps read the [records] fields only. *)
Lemma getRecordOfType_same_records h h' this ty id :
  map records h' = map records h ->
  getRecordOfType h' this ty id = getRecordOfType h this ty id.
Proof.
  intros Hmap. unfold getRecordOfType, deref.
  destruct (h !! _json this) as [n|] eqn:Hn.
  - destruct (same_field records h h' _ _ Hmap Hn) as (n' & -> & Hr).
    simpl. now rewrite Hr.
  - destruct (h' !! _json this) as [n'|] eqn:Hn'; [|reflexivity].
    destruct (same_field records h' h _ _ (eq_sym Hmap) Hn') as (n & Hn2 & _).
    congruence.
Qed.

Lemma initializeRecordMap_true this ty s s0 :
  initializeRecordMap E this ty s = Ok (true, s0) ->
  isRecordType E ty = true /\
  exists n rs m, heap s0 !! _json this = Some n /\ records n = Some rs
                 /\ sget ty rs = Some m.
Proof.
  unfold initializeRecordMap.
  destruct (isRecordType E ty); simpl; [|intros H; apply ret_Ok in H as [[=] _]].
  intros H. split; [reflexivity|].
  apply bind_Ok in H as (n & s1 & Hn & H). apply look_Ok in Hn as [Hn ->].
  apply deref_Ok in Hn.
  destruct (records n) as [rs|] eqn:Hrs.
  - destruct (sget ty rs) as [m|] eqn:Hm.
    + apply ret_Ok in H as [_ ->]. now exists n, rs, m.
    + destruct (isTypeChildOf E (_type this) ty); simpl in H;
        [|apply ret_Ok in H as [[=] _]].
      apply bind_Ok in H as ([] & s1 & H1 & H).
      apply bind_Ok in H as ([] & s2 & H2 & H).
      apply ret_Ok in H as [_ ->].
      apply update_Ok in H1 as (n1 & Hn1 & ->). simpl in H2.
      apply update_Ok in H2 as (n2 & Hn2 & ->). simpl in *.
      assert (Hlt : (_json this < length (heap s))%nat) by (eapply lookup_lt_Some; eauto).
      rewrite list_lookup_insert_eq in Hn2 by exact Hlt.
      injection Hn2 as <-.
      assert (n1 = n) by congruence. subst n1. rewrite Hrs.
      eexists _, _, _. split; [apply list_lookup_insert_eq; now rewrite length_insert|].
      simpl. rewrite Hrs. split; [reflexivity|]. apply sget_sset_eq.
  - destruct (isTypeChildOf E (_type this) ty); simpl in H;
      [|apply ret_Ok in H as [[=] _]].
    apply bind_Ok in H as ([] & s1 & H1 & H).
    apply bind_Ok in H as ([] & s2 & H2 & H).
    apply ret_Ok in H as [_ ->].
    apply update_Ok in H1 as (n1 & Hn1 & ->). simpl in H2.
    apply update_Ok in H2 as (n2 & Hn2 & ->). simpl in *.
    assert (Hlt : (_json this < length (heap s))%nat) by (eapply lookup_lt_Some; eauto).
    rewrite list_lookup_insert_eq in Hn2 by exact Hlt.
    injection Hn2 as <-.
    assert (n1 = n) by congruence. subst n1. rewrite Hrs.
    eexists _, _, _. split; [apply list_lookup_insert_eq; now rewrite length_insert|].
    simpl. split; [reflexivity|]. simpl. now rewrite String.eqb_refl.
Qed.

Lemma storeInRecordMap_stores this ty id record s s' n rs m :
  heap s !! _json this = Some n -> records n = Some rs -> sget ty rs = Some m ->
  storeInRecordMap this ty id record s = Ok (tt, s') ->
  getRecordOfType (heap s') this ty (Some id) = Ok (Some record).
Proof.
  intros Hn Hrs Hm H. unfold storeInRecordMap in H.
  apply update_Ok in H as (n' & Hn' & ->). simpl.
  assert (n' = n) by congruence. subst n'. rewrite Hrs, Hm.
  unfold getRecordOfType, deref.
  rewrite list_lookup_insert_eq by (eapply lookup_lt_Some; eauto).
  simpl. rewrite sget_sset_eq, iget_iset, Z.eqb_refl. reflexivity.
Qed.

Lemma addRecordHere_frame {X : Type} (F : RecordNode -> X) :
  (forall p n, F (with_props p n) = F n) ->
  (forall o n, F (with_order o n) = F n) ->
  (forall r n, F (with_records r n) = F n) ->
  (forall x n, F (with_name x n) = F n) ->
  forall fuel this record position id dc,
    preserves F (addRecordHere E fuel this record position id dc).
Proof.
  intros Hp Ho Hr Hn fuel this record position id dc. unfold addRecordHere.
  apply preserves_bind; [apply preserves_look|intros rec].
  apply preserves_bind; [now apply initializeRecordMap_frame|intros ok].
  destruct ok; simpl; [|apply preserves_ret].
  apply preserves_bind; [now apply getSortedRecordsOfType_frame|intros recordsArray].
  apply preserves_bind; [apply preserves_look|intros nodes].
  apply preserves_bind; [apply preserves_look|intros orders].
  apply preserves_bind; [apply preserves_update; intros; apply Ho|intros _].
  apply preserves_bind.
  { destruct dc; simpl; [apply preserves_ret|].
    apply preserves_bind; [apply preserves_look|intros rf].
    now apply cycleAllSubRecordIds_frame. }
  intros _.
  apply preserves_bind; [destruct id; [apply preserves_ret|apply preserves_generateIdV2]|].
  intros id'.
  apply preserves_bind; [now apply storeInRecordMap_frame|intros _].
  apply preserves_bind; [apply preserves_look|intros rec'].
  apply preserves_bind; [now apply changeRecordName_frame|intros _].
  apply preserves_ret.
Qed.

End Adding.

Section Inserted.
Variable E : Externals.

Lemma addRecord_receiver fuel this record position id dc parent s ir s' :
  addRecord E fuel this record position id dc parent s = Ok (Some ir, s') ->
  exists owner,
    receiver E fuel (heap s) this parent owner /\
    addRecordHere E fuel owner record position id dc s = Ok (Some ir, s').
Proof.
  unfold addRecord, receiver. destruct parent as [parent|].
  - intros H. apply bind_Ok in H as (pr & s1 & Hpr & H).
    apply look_Ok in Hpr as [Hpr ->].
    destruct pr as [l|]; [|apply ret_Ok in H as [[=] _]].
    apply bind_Ok in H as (rf & s1 & Hrf & H). apply look_Ok in Hrf as [Hrf ->].
    exists rf. split; [|exact H]. now exists l.
  - intros H. now exists this.
Qed.

(** What a successful [addRecord] has done, seen from the receiving
    factory. *)
Lemma addRecordHere_inserted fuel owner record position id dc s ir s' :
  addRecordHere E fuel owner record position id dc s = Ok (Some ir, s') ->
  exists rec s0 recordsArray s1 nodes orders,
    heap s !! record = Some rec /\
    initializeRecordMap E owner (type rec) s = Ok (true, s0) /\
    getSortedRecordsOfType owner (type rec) s0 = Ok (recordsArray, s1) /\
    rmap (deref (heap s1)) recordsArray = Ok nodes /\
    getNewOrders nodes 1 position = Ok orders /\
    ir_record ir = record /\
    (exists n', heap s' !! record = Some n' /\ order n' = head orders) /\
    getRecordOfType (heap s') owner (type rec) (Some (ir_id ir)) = Ok (Some record) /\
    map type (heap s') = map type (heap s).
Proof.
  intros Hall.
  pose proof (addRecordHere_frame E type
                (fun _ _ => eq_refl) (fun _ _ => eq_refl)
                (fun _ _ => eq_refl) (fun _ _ => eq_refl)
                fuel owner record position id dc _ _ _ Hall) as Htype.
  unfold addRecordHere in Hall.
  apply bind_Ok in Hall as (rec & sa & Hrec & H).
  apply look_Ok in Hrec as [Hrec ->]. apply deref_Ok in Hrec.
  apply bind_Ok in H as (ok & s0 & Hinit & H).
  destruct ok; simpl in H; [|apply ret_Ok in H as [[=] _]].
  apply bind_Ok in H as (recordsArray & s1 & Hsorted & H).
  apply bind_Ok in H as (nodes & sb & Hnodes & H).
  apply look_Ok in Hnodes as [Hnodes ->].
  apply bind_Ok in H as (orders & sb & Horders & H).
  apply look_Ok in Horders as [Horders ->].
  apply bind_Ok in H as ([] & s2 & Hupd & H).
  apply bind_Ok in H as ([] & s3 & Hcyc & H).
  apply bind_Ok in H as (id' & s4 & Hid & H).
  apply bind_Ok in H as ([] & s5 & Hstore & H).
  apply bind_Ok in H as (rec' & sb & Hrec' & H).
  apply look_Ok in Hrec' as [Hrec' ->].
  apply bind_Ok in H as (nm & s6 & Hname & H).
  apply ret_Ok in H as [Hir ->]. injection Hir as ->. simpl.
  exists rec, s0, recordsArray, s1, nodes, orders.
  repeat (split; [assumption || reflexivity|]).
  (* the steps after the order is assigned *)
  assert (Hcyc_frame : forall X (F : RecordNode -> X),
             (forall p n, F (with_props p n) = F n) ->
             map F (heap s3) = map F (heap s2)).
  { intros X F HF. revert Hcyc. destruct dc; simpl.
    - intros Hc. apply ret_Ok in Hc as [_ ->]. reflexivity.
    - intros Hc. apply bind_Ok in Hc as (rf & sb & Hrf & Hc).
      apply look_Ok in Hrf as [_ ->].
      exact (cycleAllSubRecordIds_frame E F HF _ _ _ _ _ Hc). }
  assert (Hid_heap : heap s4 = heap s3).
  { revert Hid. destruct id; [intros Hi; apply ret_Ok in Hi as [_ ->]; reflexivity|].
    intros [= _ <-]. reflexivity. }
  split; [|split].
  - (* the order of the record *)
    apply update_Ok in Hupd as (n1 & Hn1 & ->).
    assert (Hord : map order (heap s6) = map order (<[record:=with_order (head orders) n1]> (heap s1))).
    { rewrite (changeRecordName_frame E order (fun _ _ => eq_refl) _ _ _ _ _ _ _ Hname).
      rewrite (storeInRecordMap_frame order (fun _ _ => eq_refl) _ _ _ _ _ _ _ Hstore).
      rewrite Hid_heap.
      exact (Hcyc_frame _ order (fun _ _ => eq_refl)). }
    destruct (same_field order _ (heap s6) record (with_order (head orders) n1) Hord)
      as (n' & Hn' & Ho).
    { apply list_lookup_insert_eq. eapply lookup_lt_Some; eauto. }
    exists n'. split; [exact Hn'|exact Ho].
  - (* the entry in the receiver's record map *)
    apply initializeRecordMap_true in Hinit as (_ & n0 & rs & m & Hn0 & Hrs & Hm).
    assert (Hrec4 : map records (heap s4) = map records (heap s0)).
    { rewrite Hid_heap, (Hcyc_frame _ records (fun _ _ => eq_refl)).
      rewrite (preserves_update records record (with_order (head orders))
                 (fun _ => eq_refl) _ _ _ Hupd).
      exact (getSortedRecordsOfType_frame records (fun _ _ => eq_refl) _ _ _ _ _ Hsorted). }
    destruct (same_field records _ _ _ _ Hrec4 Hn0) as (n4 & Hn4 & Hr4).
    rewrite Hrs in Hr4.
    pose proof (storeInRecordMap_stores _ _ _ _ _ _ _ _ _ Hn4 Hr4 Hm Hstore) as Hget.
    rewrite (getRecordOfType_same_records (heap s5) (heap s6)); [exact Hget|].
    exact (changeRecordName_frame E records (fun _ _ => eq_refl) _ _ _ _ _ _ _ Hname).
  - exact Htype.
Qed.

End Inserted.

Section AddRecord.
Variable E : Externals.



(** C8.  After a successful [addRecord], the address [getAddress] builds
    from the id and type of the inserted child resolves, through
    [getDeepRecord] on the receiving factory, to the inserted node.
    The registry's type names are assumed free of the address
    separators, and [this] is a factory built over its node. *)
Theorem address_round_trip fuel this record position id dc parent s ir s' :
  (forall t, isRecordType E t = true -> address_safe t = true) ->
  newRecordFactory E (heap s) (_json this) = Ok this ->
  addRecord E fuel this record position id dc parent s = Ok (Some ir, s') ->
  exists owner n' addr,
    receiver E fuel (heap s) this parent owner /\
    heap s' !! ir_record ir = Some n' /\
    getAddress (heap s') owner (ir_id ir) (Some (type n')) None None None = Ok addr /\
    getDeepRecord E fuel (heap s') owner (ByAddress addr) = Ok (Some (ir_record ir)) /\
    ir_record ir = record.
Proof.
  intros Hsafe Hthis H. apply addRecord_receiver in H as (owner & Hown & H).
  (* the receiver is a factory over a node of a registered type *)
  assert (Hfac : exists n, heap s !! _json owner = Some n /\ isRecordType E (type n) = true).
  { assert (Hnew : forall l rf, newRecordFactory E (heap s) l = Ok rf ->
              exists n, heap s !! _json rf = Some n /\ isRecordType E (type n) = true).
    { intros l rf Hrf. unfold newRecordFactory in Hrf.
      apply rbind_Ok in Hrf as (n & Hn & Hrf). apply deref_Ok in Hn.
      destruct (isRecordType E (type n)) eqn:Hk; [|discriminate].
      injection Hrf as <-. now exists n. }
    destruct parent as [parent|]; simpl in Hown.
    - destruct Hown as (l & _ & Hrf). eapply Hnew; eauto.
    - subst owner. eapply Hnew; eauto. }
  destruct Hfac as (n & Hn & Hknown).
  apply addRecordHere_inserted in H
    as (rec & s0 & siblings & s1 & nodes & orders & Hrec & Hinit & _ & _
        & _ & Hir & _ & Hget & Htype).
  destruct (same_field type _ _ _ _ Htype Hrec) as (n' & Hn' & Hty).
  destruct (same_field type _ _ _ _ Htype Hn) as (m & Hm & Htm).
  apply initializeRecordMap_true in Hinit as (Hrt & _).
  pose proof (Hsafe _ Hrt) as Hs.
  pose proof (address_safe_spec _ Hs) as (Hne & _).
  pose proof (child_address_parses (type rec) (ir_id ir) Hs) as (Hbar & Hcolon).
  exists owner, n', (type rec ++ ":" ++ idToString (ir_id ir)).
  rewrite Hir, Hty.
  split; [exact Hown|]. split; [exact Hn'|]. split; [|split; [|reflexivity]].
  - unfold getAddress.
    assert (Ht : truthy (Some (type rec)) = Some (type rec)).
    { destruct (type rec); [now elim Hne|reflexivity]. }
    rewrite Ht, Hget. reflexivity.
  - unfold getDeepRecord, getRecordAndParentWithAddress.
    rewrite Hbar. unfold deref at 1. rewrite Hm. simpl rbind.
    assert (Hrs : exists rs, records m = Some rs).
    { unfold getRecordOfType, deref in Hget. rewrite Hm in Hget. simpl in Hget.
      destruct (records m) as [rs|]; [now exists rs|discriminate]. }
    destruct Hrs as (rs & Hrs). rewrite Hrs.
    change (length [type rec ++ ":" ++ idToString (ir_id ir)] =? 0)%nat with false.
    change (":" ++ idToString (ir_id ir)) with (String ":" (idToString (ir_id ir)))
      in Hcolon.
    cbn [walkAddress]. rewrite Hcolon. cbn [lookup list_lookup].
    rewrite Number_idToString.
    unfold newRecordFactory, deref. rewrite Hm. simpl rbind.
    rewrite Htm, Hknown.
    assert (Hsame : getRecordOfType (heap s') (mkRF (_json owner) (type n)) (type rec)
                      (Some (ir_id ir))
                    = getRecordOfType (heap s') owner (type rec) (Some (ir_id ir)))
      by reflexivity.
    cbn [rbind]. rewrite Hsame, Hget. reflexivity.
Qed.

(** C9, as amended.  Let [owner] be the factory whose node is to receive
    the record (the factory itself, or the parent that
    [parentIdOrAddress] resolves to).  When the record's type is unknown
    to the registry, or is not a legal child of the receiver's type and
    the receiver holds no record map of that type, [addRecord] returns
    [undefined] without throwing and leaves the whole store as it was. *)
Theorem addRecord_rejects_illegal_child fuel this record position id dc parent
    owner s rec n :
  receiver E fuel (heap s) this parent owner ->
  heap s !! record = Some rec ->
  heap s !! _json owner = Some n ->
  isRecordType E (type rec) = false \/
  (isTypeChildOf E (_type owner) (type rec) = false /\
   match records n with
   | Some rs => sget (type rec) rs
   | None => None
   end = None) ->
  addRecord E fuel this record position id dc parent s = Ok (None, s).
Proof.
  intros Hown Hrec Hn Hbad.
  assert (Hhere : addRecordHere E fuel owner record position id dc s = Ok (None, s)).
  { unfold addRecordHere, bind, look, deref. rewrite Hrec.
    unfold initializeRecordMap.
    destruct (isRecordType E (type rec)) eqn:Hk; simpl; [|reflexivity].
    destruct Hbad as [Hbad|[Hchild Hmap]]; [discriminate|].
    unfold bind, look, deref. rewrite Hn, Hmap, Hchild. reflexivity. }
  unfold addRecord. destruct parent as [parent|]; simpl in Hown.
  - destruct Hown as (l & Hl & Hrf).
    unfold bind, look. rewrite Hl, Hrf. exact Hhere.
  - now subst owner.
Qed.

End AddRecord.


Lemma demo_types_safe :
  forall t, isRecordType Demo.registry t = true -> address_safe t = true.
Proof.
  intros t H. simpl in H. unfold Demo.knownTypes in H. simpl in H.
  repeat (apply orb_true_iff in H as [H|H];
          [apply String.eqb_eq in H; subst t; reflexivity|]).
  discriminate.
Defined.

(** Witness of C8: the same insertion; the address is [scene:1000]. *)
Lemma address_round_trip_witness :
  exists ir s' addr,
    Demo.added = Ok (Some ir, s') /\
    getAddress (heap s') Demo.project (ir_id ir) (Some "scene") None None None = Ok addr /\
    getDeepRecord Demo.registry 10 (heap s') Demo.project (ByAddress addr)
    = Ok (Some (ir_record ir)).
Proof.
  eexists _, _. unfold Demo.added.
  assert (H : addRecord Demo.registry 10 Demo.project 3%nat (Some 1%Z) None false None
                Demo.withLoose = Demo.added) by (vm_compute; reflexivity).
  unfold Demo.added in H.
  destruct (address_round_trip Demo.registry 10 Demo.project 3%nat (Some 1%Z) None
              false None Demo.withLoose _ _ demo_types_safe eq_refl H)
    as (owner & n' & addr & Hown & Hn' & Haddr & Hdeep & _).
  simpl in Hown. subst owner. injection Hn' as <-.
  exists addr. split; [reflexivity|]. split; [exact Haddr|exact Hdeep].
Defined.

(** Witness of C9 as amended: an element offered to a project that holds
    no record map of elements. *)
Lemma addRecord_rejects_illegal_child_witness :
  addRecord Demo.registry 10 Demo.project 3%nat None None false None Demo.twoRooms
  = Ok (None, Demo.twoRooms).
Proof.
  eapply (addRecord_rejects_illegal_child Demo.registry 10 Demo.project 3%nat
            None None false None Demo.project).
  - reflexivity.
  - reflexivity.
  - reflexivity.
  - right. split; reflexivity.
Defined.

(** C9 as stated fails: the project of [Demo.strayMap] already holds a
    record map of elements; the registry does not allow elements under a
    project, and yet [addRecord] stores the element, under id 1000. *)
Lemma addRecord_accepts_illegal_child :
  isTypeChildOf Demo.registry "project" "element" = false /\
  exists s',
    addRecord Demo.registry 10 Demo.project 1%nat None None false None Demo.strayMap
    = Ok (Some (mkIdAndRecord 1000 1), s') /\
    getRecordOfType (heap Demo.strayMap) Demo.project "element" (Some 1000%Z) = Ok None /\
    getRecordOfType (heap s') Demo.project "element" (Some 1000%Z) = Ok (Some 1%nat).
Proof.
  split; [reflexivity|]. eexists. split; [vm_compute; reflexivity|].
  split; reflexivity.
Qed.

(** ** Where the code departs from its own description *)

(** C2 fails on the code.  In [Demo.nested] the element 2 is a direct
    child of scene 1.  [changeDeepRecordId(2, 77)] on the project returns
    77 and rewrites the scene's property, but the element is still found
    under 2 and not under 77: the entry was moved in the merged copy that
    [getRecordMap] returns, not in the scene's record map. *)
Theorem changeDeepRecordId_leaves_entry_in_place :
  exists s',
    changeDeepRecordId Demo.registry 10 Demo.project 2 (Some 77%Z) Demo.nested
    = Ok (77%Z, s') /\
    getRecordOfType (heap s') (mkRF 1 "scene") "element" (Some 2%Z) = Ok (Some 2%nat) /\
    getRecordOfType (heap s') (mkRF 1 "scene") "element" (Some 77%Z) = Ok None /\
    getDeepRecord Demo.registry 10 (heap s') Demo.project (ById 77) = Ok None /\
    map records (heap s') = map records (heap Demo.nested).
Proof.
  eexists. split; [vm_compute; reflexivity|]. repeat split; reflexivity.
Qed.

(** C1 fails on the code.  [duplicateRecord("scene", 1)] on
    [Demo.nested] stores the clone under the new id 1001, but the clone's
    element keeps the id 2 of the original's element, so the tree holds
    the id 2 twice; a further [cycleAllSubRecordIds] on the project changes
    no id either. *)
Theorem duplicateRecord_repeats_ids :
  exists ir s' s'',
    storedIds 10 (heap Demo.nested) 0 = Ok [1%Z; 2%Z] /\
    duplicateRecord Demo.registry 10 Demo.project "scene" 1 Demo.nested
    = Ok (Some ir, s') /\
    storedIds 10 (heap s') 0 = Ok [1%Z; 2%Z; 1001%Z; 2%Z] /\
    cycleAllSubRecordIds Demo.registry 10 Demo.project s' = Ok (tt, s'') /\
    storedIds 10 (heap s'') 0 = Ok [1%Z; 2%Z; 1001%Z; 2%Z] /\
    ~ NoDup [1%Z; 2%Z; 1001%Z; 2%Z].
Proof.
  eexists _, _, _. split; [reflexivity|].
  split; [vm_compute; reflexivity|]. split; [reflexivity|].
  split; [vm_compute; reflexivity|]. split; [reflexivity|].
  intros H. apply NoDup_cons in H as [_ H]. apply NoDup_cons in H as [H _].
  apply H. right. left.
Qed.

(** C3 fails on the code.  [reorderRecords("scene", [2], 0)] on scenes 1
    and 2 with orders 1 and 2 gives the single new order 0 to scene 1,
    the first sorted record, and makes the order of scene 2 undefined;
    the next sorted read backfills scene 2 with 1 and yields the ids
    [1, 2]. *)
Theorem reorderRecords_ignores_ids :
  exists s' s'',
    reorderRecords Demo.project "scene" [2%Z] 0 Demo.twoScenes = Ok (tt, s') /\
    option_map order (heap s' !! 1%nat) = Some (Some 0%Q) /\
    option_map order (heap s' !! 2%nat) = Some None /\
    getSortedRecordIdsOfType Demo.project "scene" s' = Ok ([1%Z; 2%Z], s'') /\
    option_map order (heap s'' !! 1%nat) = Some (Some 0%Q) /\
    option_map order (heap s'' !! 2%nat) = Some (Some 1%Q).
Proof.
  eexists _, _. split; [vm_compute; reflexivity|].
  split; [reflexivity|]. split; [reflexivity|].
  split; [vm_compute; reflexivity|]. split; reflexivity.
Qed.

(** C4 fails on the code.  [copyDeepRecordsToAddress([5], "scene:2")] on
    [Demo.twoRooms] stores under the new id 1000 of scene 2 the very cell
    that scene 1 holds under id 5, and the order of that cell, 1 before
    the call, is 3 after it. *)
Theorem copyDeepRecordsToAddress_shares_the_source :
  exists s',
    copyDeepRecordsToAddress Demo.registry 10 Demo.project [ById 5]
      (ByAddress "scene:2") None Demo.twoRooms = Ok (true, s') /\
    getDeepRecord Demo.registry 10 (heap Demo.twoRooms) Demo.project
      (ByAddress "scene:1|element:5") = Ok (Some 3%nat) /\
    getDeepRecord Demo.registry 10 (heap s') Demo.project
      (ByAddress "scene:1|element:5") = Ok (Some 3%nat) /\
    getDeepRecord Demo.registry 10 (heap s') Demo.project
      (ByAddress "scene:2|element:1000") = Ok (Some 3%nat) /\
    option_map order (heap Demo.twoRooms !! 3%nat) = Some (Some 1%Q) /\
    option_map order (heap s' !! 3%nat) = Some (Some 3%Q).
Proof.
  eexists. split; [vm_compute; reflexivity|]. repeat split; reflexivity.
Qed.

(** C5 fails on the code.  In [Demo.legacy] scene 1 has no order and
    scene 2 has order 5.  The scan for the maximum stops at scene 1, so
    scene 1 is backfilled with 0 + 1 = 1, which is below the order 5 that
    was there before. *)
Theorem backfill_misses_later_orders :
  exists s',
    getSortedRecordEntriesOfType Demo.project "scene" Demo.legacy
    = Ok ([(1%Z, 1%nat); (2%Z, 2%nat)], s') /\
    option_map order (heap Demo.legacy !! 1%nat) = Some None /\
    option_map order (heap Demo.legacy !! 2%nat) = Some (Some 5%Q) /\
    option_map order (heap s' !! 1%nat) = Some (Some 1%Q) /\
    (1 < 5)%Q.
Proof.
  eexists. split; [vm_compute; reflexivity|]. repeat split; reflexivity.
Qed.

(** ** Rewriting references to an id *)

Section MergedMap.

Lemma In_iset {V : Type} (e : Z * V) k v o :
  In e (iset k v o) -> e = (k, v) \/ In e o.
Proof.
  unfold iset. destruct (iget k o) as [w|].
  - induction o as [|[k' v'] o IH]; simpl; [tauto|].
    destruct (k =? k')%Z eqn:Hk; simpl.
    + apply Z.eqb_eq in Hk. subst k'. intros [<-|H]; auto.
    + intros [<-|H]; auto. destruct (IH H); auto.
  - induction o as [|[k' v'] o IH]; simpl; [intros [<-|[]]; auto|].
    destruct (is_array_index k && (negb (is_array_index k') || (k <? k')%Z))%bool;
      simpl.
    + intros [<-|[<-|H]]; auto.
    + intros [<-|H]; auto. destruct (IH H); auto.
Qed.

Lemma In_assign {V : Type} (e : Z * V) src : forall t,
  In e (assign t src) -> In e t \/ In e src.
Proof.
  unfold assign. induction src as [|[k v] src IH]; intros t; simpl; [auto|].
  intros H. apply IH in H as [H|H]; [|auto].
  apply In_iset in H as [->|H]; auto.
Qed.

Lemma iget_assign_notin {V : Type} k (src : list (Z * V)) : forall t,
  ~ In k (map fst src) -> iget k (assign t src) = iget k t.
Proof.
  unfold assign. induction src as [|[k' v] src IH]; intros t Hk; simpl; [reflexivity|].
  simpl in Hk. rewrite IH by tauto. rewrite iget_iset.
  destruct (Z.eqb_spec k k'); [subst; tauto|reflexivity].
Qed.

Lemma iget_assign_in {V : Type} k (c : V) (src : list (Z * V)) : forall t,
  NoDup (map fst src) -> In (k, c) src -> iget k (assign t src) = Some c.
Proof.
  induction src as [|[k' v] src IH]; intros t Hnd Hin; [destruct Hin|].
  simpl in Hnd. apply NoDup_cons in Hnd as [Hk' Hnd].
  destruct Hin as [[= -> ->]|Hin].
  - change (assign t ((k, c) :: src)) with (assign (iset k c t) src).
    rewrite iget_assign_notin.
    + now rewrite iget_iset, Z.eqb_refl.
    + intros H. apply Hk'. now apply list_elem_of_In.
  - change (assign t ((k', v) :: src)) with (assign (iset k' v t) src).
    now apply IH.
Qed.

Lemma iget_merge_notin {V : Type} k (ms : list (list (Z * V))) : forall t,
  ~ In k (concat (map (map fst) ms)) -> iget k (fold_left assign ms t) = iget k t.
Proof.
  induction ms as [|m ms IH]; intros t Hk; simpl; [reflexivity|].
  simpl in Hk. rewrite in_app_iff in Hk.
  rewrite IH by tauto. apply iget_assign_notin. tauto.
Qed.

Lemma iget_merge_in {V : Type} k (c : V) (ms : list (list (Z * V))) : forall t m,
  NoDup (concat (map (map fst) ms)) -> In m ms -> In (k, c) m ->
  iget k (fold_left assign ms t) = Some c.
Proof.
  induction ms as [|m0 ms IH]; intros t m Hnd Hm Hin; [destruct Hm|].
  simpl in Hnd. apply NoDup_app in Hnd as (Hnd0 & Hdisj & Hnd).
  destruct Hm as [->|Hm]; simpl.
  - rewrite iget_merge_notin.
    + now apply iget_assign_in.
    + intros H. apply (Hdisj k).
      * apply list_elem_of_In, in_map_iff. now exists (k, c).
      * now apply list_elem_of_In.
  - eapply IH; eauto.
Qed.

Lemma In_merge {V : Type} (e : Z * V) (ms : list (list (Z * V))) : forall t,
  In e (fold_left assign ms t) -> In e t \/ exists m, In m ms /\ In e m.
Proof.
  induction ms as [|m0 ms IH]; intros t; simpl; [auto|].
  intros H. apply IH in H as [H|(m & Hm & H)].
  - apply In_assign in H as [H|H]; [auto|]. right. exists m0. auto.
  - right. exists m. auto.
Qed.

Lemma nodupb_NoDup {A : Type} (eqb : A -> A -> bool) (l : list A) :
  (forall x y, eqb x y = true <-> x = y) -> nodupb eqb l = true -> NoDup l.
Proof.
  intros Heq. induction l as [|x l IH]; simpl; [constructor|].
  rewrite andb_true_iff, negb_true_iff. intros [Hx Hl].
  apply NoDup_cons. split; [|now apply IH].
  intros Hin. apply list_elem_of_In in Hin.
  assert (existsb (eqb x) l = true); [|congruence].
  apply existsb_exists. exists x. split; [exact Hin|]. now apply Heq.
Qed.

Lemma sget_first {V : Type} ty (m : V) (rs : list (string * V)) :
  NoDup (map fst rs) -> In (ty, m) rs -> sget ty rs = Some m.
Proof.
  induction rs as [|[ty' m'] rs IH]; intros Hnd Hin; [destruct Hin|].
  simpl in Hnd. apply NoDup_cons in Hnd as [Hty Hnd]. simpl.
  destruct Hin as [[= -> ->]|Hin].
  - now rewrite String.eqb_refl.
  - destruct (String.eqb_spec ty ty') as [->|Hne]; [|now apply IH].
    elim Hty. apply list_elem_of_In, in_map_iff. now exists (ty', m).
Qed.

End MergedMap.

Section Skeleton.
Variable E : Externals.

Lemma same_field_none {X : Type} (F : RecordNode -> X) (h h' : Heap) l :
  map F h' = map F h -> h !! l = None -> h' !! l = None.
Proof.
  intros Hmap Hl. destruct (h' !! l) as [n'|] eqn:Hn'; [|reflexivity].
  destruct (same_field F h' h l n' (eq_sym Hmap) Hn') as (n & Hn & _). congruence.
Qed.

Lemma skeleton_fields n n' :
  skeleton n' = skeleton n ->
  name n' = name n /\ type n' = type n /\ order n' = order n
  /\ records n' = records n.
Proof. unfold skeleton. intros [= H1 H2 H3 H4]. auto. Qed.

Lemma forallb_eq {A : Type} (f g : A -> bool) (l : list A) :
  (forall x, f x = g x) -> forallb f l = forallb g l.
Proof. intros H. induction l as [|x l IH]; simpl; [reflexivity|]. now rewrite H, IH. Qed.

Lemma well_formed_same_skeleton h h' :
  map skeleton h' = map skeleton h ->
  forall d l, well_formed E d h' l = well_formed E d h l.
Proof.
  intros Hmap. induction d as [|d IH]; intros l; simpl; [reflexivity|].
  destruct (h !! l) as [n|] eqn:Hn.
  - destruct (same_field skeleton h h' l n Hmap Hn) as (n' & -> & Hs).
    apply skeleton_fields in Hs as (_ & -> & _ & ->).
    destruct (records n) as [rs|]; [|reflexivity].
    do 2 f_equal. apply forallb_eq. intros tm. apply forallb_eq. intros e. apply IH.
  - now rewrite (same_field_none skeleton h h' l Hmap Hn).
Qed.

Lemma child_same_skeleton h h' l c :
  map skeleton h' = map skeleton h -> child h l c -> child h' l c.
Proof.
  intros Hmap (n & rs & ty & m & k & Hn & Hrs & Hty & Hk).
  destruct (same_field skeleton h h' l n Hmap Hn) as (n' & Hn' & Hs).
  apply skeleton_fields in Hs as (_ & _ & _ & Hr).
  exists n', rs, ty, m, k. repeat split; try assumption. congruence.
Qed.

Lemma reach_same_skeleton h h' root l :
  map skeleton h' = map skeleton h -> reach h root l -> reach h' root l.
Proof.
  intros Hmap Hr. induction Hr as [l|root c l Hc _ IH].
  - apply reach_here.
  - eapply reach_step; [|exact IH]. eapply child_same_skeleton; eauto.
Qed.

(** The merged map of a well-formed node holds exactly the entries of
    its record maps. *)
Lemma rfold_merged h this n rs :
  h !! _json this = Some n -> records n = Some rs ->
  forall tys acc,
    rfold (fun recordMap ty =>
             let? recordMapOfType := getRecordMapOfType h this ty in
             Ok (assign recordMap recordMapOfType)) tys acc
    = Ok (fold_left assign
            (map (fun ty => match sget ty rs with Some m => m | None => [] end) tys)
            acc).
Proof.
  intros Hn Hrs. induction tys as [|ty tys IH]; intros acc; simpl; [reflexivity|].
  unfold getRecordMapOfType at 1, deref. rewrite Hn. simpl. rewrite Hrs.
  apply IH.
Qed.

Lemma getRecordMap_merged h this n rs :
  h !! _json this = Some n -> records n = Some rs ->
  getRecordMap h this
  = Ok (fold_left assign
          (map (fun ty => match sget ty rs with Some m => m | None => [] end)
               (map fst rs)) []).
Proof.
  intros Hn Hrs. unfold getRecordMap, getRecordTypes, deref.
  rewrite Hn. simpl. rewrite Hrs.
  apply (rfold_merged h this n rs Hn Hrs).
Qed.

Lemma visible_maps (rs : list (string * RecordMap)) :
  NoDup (map fst rs) ->
  map (fun ty => match sget ty rs with Some m => m | None => [] end) (map fst rs)
  = map snd rs.
Proof.
  intros Hnd. rewrite map_map. apply map_ext_in. intros [ty m] Hin. simpl.
  now rewrite (sget_first ty m rs Hnd Hin).
Qed.

Lemma childIds_concat rs : childIds rs = concat (map (map fst) (map snd rs)).
Proof. unfold childIds. now rewrite map_map. Qed.

Lemma string_eqb_iff x y : String.eqb x y = true <-> x = y.
Proof. apply String.eqb_eq. Qed.

Lemma well_formed_node d h l :
  well_formed E (S d) h l = true ->
  exists n, h !! l = Some n /\ isRecordType E (type n) = true /\
    match records n with
    | None => getRecordMap h (mkRF l (type n)) = Ok []
    | Some rs =>
        exists merged, getRecordMap h (mkRF l (type n)) = Ok merged /\
          (forall ty m k c, In (ty, m) rs -> In (k, c) m -> In (k, c) merged) /\
          (forall k c, In (k, c) merged -> well_formed E d h c = true)
    end.
Proof.
  simpl. destruct (h !! l) as [n|] eqn:Hn; [|discriminate].
  rewrite andb_true_iff. intros [Hk Hrest].
  exists n. split; [reflexivity|]. split; [exact Hk|].
  destruct (records n) as [rs|] eqn:Hrs.
  - apply andb_true_iff in Hrest as [Hnd Hall].
    apply andb_true_iff in Hnd as [Hty Hids].
    apply (nodupb_NoDup _ _ string_eqb_iff) in Hty.
    apply (nodupb_NoDup _ _ Z.eqb_eq) in Hids.
    rewrite childIds_concat in Hids.
    eexists. split.
    { rewrite (getRecordMap_merged h (mkRF l (type n)) n rs Hn Hrs).
      rewrite (visible_maps rs Hty). reflexivity. }
    split.
    + intros ty m k c Hm Hc. apply iget_In.
      apply (iget_merge_in k c (map snd rs) [] m Hids); [|exact Hc].
      apply in_map_iff. now exists (ty, m).
    + intros k c Hin. apply In_merge in Hin as [[]|(m & Hm & Hin)].
      apply in_map_iff in Hm as ([ty m'] & Hm' & Hm). simpl in Hm'. subst m'.
      rewrite forallb_forall in Hall. specialize (Hall _ Hm). simpl in Hall.
      rewrite forallb_forall in Hall. exact (Hall _ Hin).
  - unfold getRecordMap, deref. simpl. rewrite Hn. simpl. now rewrite Hrs.
Qed.

End Skeleton.

Section Rewriting.
Variable E : Externals.
Variables id newId : Z.

Lemma sget_In_keys {V : Type} p (v : V) ps : sget p ps = Some v -> In p (map fst ps).
Proof.
  induction ps as [|[k w] ps IH]; simpl; [discriminate|].
  destruct (String.eqb_spec p k) as [->|Hne]; [auto|]. intros H. right. now apply IH.
Qed.

(** The loop over the property keys. *)
Lemma rewriteProp_fold keys : forall ps p v,
  sget p ps = Some v ->
  let ps' := fold_left (rewriteProp id newId) keys ps in
  (sget p ps' = Some v \/
   (is_id v id = true /\ sget p ps' = Some (VNum (inject_Z newId)))) /\
  (In p keys -> is_id v id = true -> sget p ps' = Some (VNum (inject_Z newId))).
Proof.
  induction keys as [|k keys IH]; intros ps p v Hv; simpl.
  - split; [now left|]. intros [].
  - destruct (String.eqb_spec k p) as [->|Hne].
    + assert (Hstep : rewriteProp id newId ps p
                      = if is_id v id then sset p (VNum (inject_Z newId)) ps else ps)
        by (unfold rewriteProp; now rewrite Hv).
      rewrite Hstep.
      destruct (is_id v id) eqn:Hid.
      * destruct (IH (sset p (VNum (inject_Z newId)) ps) p (VNum (inject_Z newId))
                    (sget_sset_eq _ _ _)) as [[H|[_ H]] _].
        -- split; [right; split; [reflexivity|exact H]|]. intros _ _. exact H.
        -- split; [right; split; [reflexivity|exact H]|]. intros _ _. exact H.
      * destruct (IH ps p v Hv) as [[H|[H _]] _]; [|congruence].
        split; [now left|]. intros _ [=].
    + assert (Hsame : sget p (rewriteProp id newId ps k) = Some v).
      { unfold rewriteProp. destruct (sget k ps) as [u|]; [|exact Hv].
        destruct (is_id u id); [|exact Hv].
        rewrite sget_sset_ne by congruence. exact Hv. }
      destruct (IH _ p v Hsame) as [H1 H2]. split; [exact H1|].
      intros [Hk|Hk]; [congruence|]. now apply H2.
Qed.

Lemma touched_refl n : touched id newId n n.
Proof. intros p v H. now left. Qed.

Lemma heap_touched_refl h : heap_touched id newId h h.
Proof. split; [reflexivity|]. intros l n Hn. exists n. split; [exact Hn|apply touched_refl]. Qed.

Lemma heap_touched_trans h1 h2 h3 :
  heap_touched id newId h1 h2 -> heap_touched id newId h2 h3 ->
  heap_touched id newId h1 h3.
Proof.
  intros [Hs12 H12] [Hs23 H23]. split; [congruence|].
  intros l n1 Hn1. destruct (H12 l n1 Hn1) as (n2 & Hn2 & Ht12).
  destruct (H23 l n2 Hn2) as (n3 & Hn3 & Ht23).
  exists n3. split; [exact Hn3|]. intros p v Hv.
  destruct (Ht12 p v Hv) as [Hv2|[Hid Hv2]].
  - exact (Ht23 p v Hv2).
  - right. split; [exact Hid|].
    destruct (Ht23 p _ Hv2) as [H|[_ H]]; exact H.
Qed.

Lemma rewritten_then_touched h1 h2 h3 l :
  rewritten_at id newId h1 h2 l -> heap_touched id newId h2 h3 ->
  rewritten_at id newId h1 h3 l.
Proof.
  intros H12 [_ H23] n1 Hn1. destruct (H12 n1 Hn1) as (n2 & Hn2 & Hr).
  destruct (H23 l n2 Hn2) as (n3 & Hn3 & Ht).
  exists n3. split; [exact Hn3|]. intros p v Hv Hid.
  destruct (Ht p _ (Hr p v Hv Hid)) as [H|[_ H]]; exact H.
Qed.

Lemma touched_then_rewritten h1 h2 h3 l :
  heap_touched id newId h1 h2 -> rewritten_at id newId h2 h3 l ->
  heap_touched id newId h2 h3 -> rewritten_at id newId h1 h3 l.
Proof.
  intros [_ H12] Hr [_ H23] n1 Hn1. destruct (H12 l n1 Hn1) as (n2 & Hn2 & Ht12).
  destruct (Hr n2 Hn2) as (n3 & Hn3 & Hr23).
  destruct (H23 l n2 Hn2) as (n3' & Hn3' & Ht23).
  assert (n3' = n3) by congruence. subst n3'.
  exists n3. split; [exact Hn3|]. intros p v Hv Hid.
  destruct (Ht12 p v Hv) as [Hv2|[_ Hv2]].
  - exact (Hr23 p v Hv2 Hid).
  - destruct (Ht23 p _ Hv2) as [H|[_ H]]; exact H.
Qed.

(** The property loop at the node of the factory. *)
Lemma rewrite_own_props this s n :
  heap s !! _json this = Some n ->
  exists s1,
    update (_json this)
      (fun m => with_props (fold_left (rewriteProp id newId) (map fst (props n)) (props m)) m)
      s = Ok (tt, s1) /\
    issued s1 = issued s /\
    heap_touched id newId (heap s) (heap s1) /\
    rewritten_at id newId (heap s) (heap s1) (_json this).
Proof.
  intros Hn. eexists. split; [unfold update; rewrite Hn; reflexivity|].
  simpl. split; [reflexivity|].
  assert (Hlt : (_json this < length (heap s))%nat) by (eapply lookup_lt_Some; eauto).
  split; [split|].
  - change (map skeleton ?h) with (skeleton <$> h).
    rewrite list_fmap_insert. apply list_insert_id.
    rewrite list_lookup_fmap, Hn. reflexivity.
  - intros l m Hm. destruct (Nat.eq_dec l (_json this)) as [->|Hne].
    + rewrite list_lookup_insert_eq by exact Hlt.
      assert (m = n) by congruence. subst m.
      eexists. split; [reflexivity|]. intros p v Hv. simpl.
      exact (proj1 (rewriteProp_fold _ _ p v Hv)).
    + rewrite list_lookup_insert_ne by congruence.
      exists m. split; [exact Hm|apply touched_refl].
  - intros m Hm. assert (m = n) by congruence. subst m.
    rewrite list_lookup_insert_eq by exact Hlt.
    eexists. split; [reflexivity|]. intros p v Hv Hid. simpl.
    apply (proj2 (rewriteProp_fold _ _ p v Hv)); [|exact Hid].
    eapply sget_In_keys; eauto.
Qed.

End Rewriting.

Section Visiting.
Variable E : Externals.
Variables id newId : Z.

Lemma well_formed_factory d h c :
  well_formed E d h c = true ->
  exists rf, newRecordFactory E h c = Ok rf /\ _json rf = c.
Proof.
  destruct d as [|d]; [discriminate|]. intros H.
  apply well_formed_node in H as (n & Hn & Hk & _).
  exists (mkRF c (type n)). split; [|reflexivity].
  unfold newRecordFactory, deref. rewrite Hn. simpl. now rewrite Hk.
Qed.

(** The loop over the entries of the merged map. *)
Lemma visit_children d (body : RecordMap -> Z * loc -> M RecordMap) :
  (forall acc k c s,
      well_formed E d (heap s) c = true ->
      exists acc' s',
        body acc (k, c) s = Ok (acc', s') /\
        heap_touched id newId (heap s) (heap s') /\
        forall l, reach (heap s) c l -> rewritten_at id newId (heap s) (heap s') l) ->
  forall entries acc s,
    (forall k c, In (k, c) entries -> well_formed E d (heap s) c = true) ->
    exists acc' s',
      foldM body entries acc s = Ok (acc', s') /\
      heap_touched id newId (heap s) (heap s') /\
      forall k c l, In (k, c) entries -> reach (heap s) c l ->
                    rewritten_at id newId (heap s) (heap s') l.
Proof.
  intros Hbody. induction entries as [|[k c] entries IH]; intros acc s Hwf.
  - exists acc, s. split; [reflexivity|]. split; [apply heap_touched_refl|].
    intros k c l [].
  - destruct (Hbody acc k c s (Hwf k c (or_introl eq_refl)))
      as (acc1 & s1 & Hb & Ht1 & Hr1).
    destruct (IH acc1 s1) as (acc2 & s2 & Hf & Ht2 & Hr2).
    { intros k' c' Hin.
      rewrite (well_formed_same_skeleton E _ _ (proj1 Ht1)).
      apply (Hwf k' c'). now right. }
    exists acc2, s2. split; [|split].
    + simpl. unfold bind. rewrite Hb. exact Hf.
    + eapply heap_touched_trans; eauto.
    + intros k' c' l [[= <- <-]|Hin] Hreach.
      * eapply rewritten_then_touched; [apply Hr1; exact Hreach|exact Ht2].
      * eapply touched_then_rewritten; [exact Ht1| |exact Ht2].
        apply (Hr2 k' c' l Hin).
        eapply reach_same_skeleton; [exact (proj1 Ht1)|exact Hreach].
Qed.

(** A call on a well-formed subtree returns, changes property bags
    only, and rewrites the bag of every node of the subtree. *)
Lemma changeDeepRecordId_visits : forall fuel d this s,
  (d <= fuel)%nat ->
  well_formed E d (heap s) (_json this) = true ->
  exists s',
    changeDeepRecordId E fuel this id (Some newId) s = Ok (newId, s') /\
    heap_touched id newId (heap s) (heap s') /\
    forall l, reach (heap s) (_json this) l ->
              rewritten_at id newId (heap s) (heap s') l.
Proof.
  induction fuel as [|fuel IHfuel]; intros d this s Hd Hwf.
  - assert (d = 0%nat) by lia. subst d. discriminate.
  - destruct d as [|d]; [discriminate|].
    assert (Hd' : (d <= fuel)%nat) by lia.
    pose proof (well_formed_node E d (heap s) (_json this) Hwf) as (n & Hn & _ & _).
    destruct (rewrite_own_props id newId this s n Hn) as (s1 & Hupd & _ & Ht1 & Hr1).
    assert (Hwf1 : well_formed E (S d) (heap s1) (_json this) = true).
    { now rewrite (well_formed_same_skeleton E _ _ (proj1 Ht1)). }
    pose proof (well_formed_node E d (heap s1) (_json this) Hwf1)
      as (n1 & Hn1 & _ & Hmaps).
    (* the merged map of the children *)
    assert (Hmerged : exists merged,
               getRecordMap (heap s1) this = Ok merged /\
               (forall c, child (heap s1) (_json this) c -> exists k, In (k, c) merged) /\
               (forall k c, In (k, c) merged -> well_formed E d (heap s1) c = true)).
    { destruct (records n1) as [rs|] eqn:Hrs.
      - destruct Hmaps as (merged & Hm & Hall & Hwfc).
        exists merged. split; [exact Hm|]. split; [|exact Hwfc].
        intros c (n' & rs' & ty & m & k & Hn' & Hrs' & Hty & Hk).
        assert (n' = n1) by congruence. subst n'.
        assert (rs' = rs) by congruence. subst rs'.
        exists k. eapply Hall; eauto.
      - exists []. split; [exact Hmaps|]. split; [|intros k c []].
        intros c (n' & rs' & ty & m & k & Hn' & Hrs' & _).
        assert (n' = n1) by congruence. subst n'. congruence. }
    destruct Hmerged as (merged & Hm & Hall & Hwfc).
    (* one turn of the loop *)
    set (body := fun (recordMap : RecordMap) (entry : Z * loc) =>
                   let '(key, value) := entry in
                   let recordMap :=
                     if (id =? key)%Z then
                       match iget id recordMap with
                       | Some r => idelete id (iset newId r recordMap)
                       | None => recordMap
                       end
                     else recordMap in
                   bind (look (fun h => newRecordFactory E h value))
                     (fun rf =>
                        bind (changeDeepRecordId E fuel rf id (Some newId))
                          (fun _ => ret recordMap))).
    assert (Hbody : forall acc k c s0,
               well_formed E d (heap s0) c = true ->
               exists acc' s',
                 body acc (k, c) s0 = Ok (acc', s') /\
                 heap_touched id newId (heap s0) (heap s') /\
                 forall l, reach (heap s0) c l ->
                           rewritten_at id newId (heap s0) (heap s') l).
    { intros acc k c s0 Hc.
      destruct (well_formed_factory d (heap s0) c Hc) as (rf & Hrf & Hj).
      destruct (IHfuel d rf s0 Hd') as (s' & Hcall & Ht & Hr); [now rewrite Hj|].
      eexists _, s'. split; [|split; [exact Ht|now rewrite <- Hj]].
      unfold body, bind, look. rewrite Hrf, Hcall. reflexivity. }
    destruct (visit_children d body Hbody merged merged s1 Hwfc)
      as (acc' & s2 & Hloop & Ht2 & Hr2).
    exists s2. split; [|split].
    + cbn [changeDeepRecordId]. unfold bind at 1. unfold ret at 1.
      unfold bind at 1. unfold look at 1. unfold getProps, deref. rewrite Hn.
      cbn [rbind]. unfold bind at 1. rewrite Hupd.
      unfold bind at 1. unfold look at 1. rewrite Hm.
      unfold bind at 1. fold body. rewrite Hloop. reflexivity.
    + eapply heap_touched_trans; eauto.
    + intros l Hreach. inversion Hreach as [l0|root c l0 Hc Hcl]; subst.
      * eapply rewritten_then_touched; eauto.
      * eapply touched_then_rewritten; [exact Ht1| |exact Ht2].
        destruct (Hall c) as (k & Hk).
        { eapply child_same_skeleton; [exact (proj1 Ht1)|exact Hc]. }
        apply (Hr2 k c l Hk).
        eapply reach_same_skeleton; [exact (proj1 Ht1)|exact Hcl].
Qed.

End Visiting.

(** C7.  On a tree of registered types that keeps the invariant of
    unique ids (used here only among the children of each node: no node
    has two children under one id, whatever their types),
    [changeDeepRecordId(id, newId)] called on the root of a subtree
    returns the new id (the given one, or the next generated one), and
    every property of every node of the subtree, at any depth, whose
    value was [id] holds the new id when the call returns. *)
Theorem changeDeepRecordId_rewrites_references (E : Externals) (d fuel : nat)
    (this : RecordFactory) (id : Z) (newId : option Z) (s : Store) :
  well_formed E d (heap s) (_json this) = true ->
  (d <= fuel)%nat ->
  exists target s',
    changeDeepRecordId E fuel this id newId s = Ok (target, s') /\
    target = match newId with
             | Some n => n
             | None => idSupply E (issued s)
             end /\
    forall l n p v,
      reach (heap s) (_json this) l ->
      heap s !! l = Some n ->
      sget p (props n) = Some v ->
      is_id v id = true ->
      exists n', heap s' !! l = Some n' /\
                 sget p (props n') = Some (VNum (inject_Z target)).
Proof.
  intros Hwf Hd.
  set (target := match newId with Some n => n | None => idSupply E (issued s) end).
  set (s0 := match newId with
             | Some _ => s
             | None => mkStore (heap s) (S (issued s))
             end).
  assert (Hheap : heap s0 = heap s) by (unfold s0; now destruct newId).
  assert (Hcall : changeDeepRecordId E fuel this id newId s
                  = changeDeepRecordId E fuel this id (Some target) s0).
  { destruct fuel as [|fuel]; [destruct d; [discriminate|lia]|].
    unfold s0, target. destruct newId; reflexivity. }
  destruct (changeDeepRecordId_visits E id target fuel d this s0 Hd)
    as (s' & Hok & _ & Hvisit); [now rewrite Hheap|].
  exists target, s'. split; [now rewrite Hcall|]. split; [reflexivity|].
  intros l n p v Hreach Hn Hv Hid.
  rewrite Hheap in Hvisit.
  destruct (Hvisit l Hreach n Hn) as (n' & Hn' & Hrw).
  exists n'. split; [exact Hn'|]. exact (Hrw p v Hv Hid).
Qed.

(** Witness of C7: in [Demo.nested] the property [first] of
    scene 1 holds the id of element 2. *)
Lemma changeDeepRecordId_rewrites_references_witness :
  exists s' n',
    changeDeepRecordId Demo.registry 10 Demo.project 2 (Some 77%Z) Demo.nested
    = Ok (77%Z, s') /\
    heap s' !! 1%nat = Some n' /\
    sget "first" (props n') = Some (VNum (inject_Z 77)).
Proof.
  destruct (changeDeepRecordId_rewrites_references Demo.registry 3 10 Demo.project 2
              (Some 77%Z) Demo.nested) as (target & s' & Hcall & Htarget & Hrw).
  - reflexivity.
  - lia.
  - subst target.
    destruct (Hrw 1%nat (Demo.node "scene" (Some "Scene") (Some 1%Q)
                           [("first", VNum 2%Q)] [("element", [(2%Z, 2%nat)])])
                "first" (VNum 2%Q)) as (n' & Hn' & Hp).
    + eapply reach_step; [|apply reach_here].
      exists (Demo.node "project" None None [] [("scene", [(1%Z, 1%nat)])]),
        [("scene", [(1%Z, 1%nat)])], "scene", [(1%Z, 1%nat)], 1%Z.
      repeat split; now left.
    + reflexivity.
    + reflexivity.
    + reflexivity.
    + exists s', n'. repeat split; assumption.
Defined.

(** Why the children of a node must have different ids: in [Demo.clash],
    which breaks the invariant, scene 1 and variable 1 are stored under
    the same id, the merged map of the project keeps the variable only,
    and the walk never enters scene 1.  Its property [link], which holds
    the id of scene 7, still holds 7 after [changeDeepRecordId(7, 77)]. *)
Lemma changeDeepRecordId_skips_shadowed_child :
  exists s',
    changeDeepRecordId Demo.registry 10 Demo.project 7 (Some 77%Z) Demo.clash
    = Ok (77%Z, s') /\
    getRecordOfType (heap Demo.clash) Demo.project "scene" (Some 1%Z) = Ok (Some 1%nat) /\
    getRecordOfType (heap Demo.clash) Demo.project "scene" (Some 7%Z) = Ok (Some 3%nat) /\
    option_map props (heap Demo.clash !! 1%nat) = Some [("link", VNum 7%Q)] /\
    option_map props (heap s' !! 1%nat) = Some [("link", VNum 7%Q)].
Proof.
  eexists. split; [vm_compute; reflexivity|]. repeat split; reflexivity.
Qed.

(** * Further properties of the code *)

(** X1.  With at least one sibling, a position below [0] or above the
    number of siblings makes the allocator throw: the interior branch
    reads [.order] of a record that is not there. *)
Theorem getNewOrders_out_of_range (sortedRecords : list RecordNode) (k : nat) (p : Z) :
  sortedRecords <> [] ->
  (p < 0 \/ Z.of_nat (length sortedRecords) < p)%Z ->
  getNewOrders sortedRecords k (Some p) = Err TypeError.
Proof.
  intros Hne Hp. unfold getNewOrders.
  assert (Hlen : (0 < length sortedRecords)%nat).
  { destruct sortedRecords; [now elim Hne|simpl; lia]. }
  destruct (Z.eqb_spec (Z.of_nat (length sortedRecords)) 0); [lia|].
  destruct (Z.eqb_spec p 0); [lia|].
  destruct (Z.eqb_spec p (Z.of_nat (length sortedRecords))); [lia|].
  assert (Hnone : at_index sortedRecords (p - 1) = None).
  { unfold at_index. destruct (Z.ltb_spec (p - 1) 0); [reflexivity|].
    apply lookup_ge_None. lia. }
  now rewrite Hnone.
Qed.

(** Witness of X1: position 5 among two siblings. *)
Lemma getNewOrders_out_of_range_witness :
  getNewOrders [Demo.leaf "scene" None (Some 1%Q) []; Demo.leaf "scene" None (Some 2%Q) []]
               1 (Some 5%Z) = Err TypeError.
Proof.
  apply getNewOrders_out_of_range; [discriminate|]. right. simpl. lia.
Defined.

(** ** Sorted records *)

Section SortedEntries.

Lemma insertByOrder_perm x l : Permutation (insertByOrder x l) (x :: l).
Proof.
  induction l as [|y l IH]; simpl; [reflexivity|].
  destruct (Qle_bool (fst x) (fst y)); [reflexivity|].
  rewrite IH. apply perm_swap.
Qed.

Lemma sortByOrder_perm l : Permutation (sortByOrder l) l.
Proof.
  induction l as [|x l IH]; simpl; [reflexivity|].
  rewrite insertByOrder_perm. now constructor.
Qed.

Lemma Qle_bool_false x y : Qle_bool x y = false -> (y <= x)%Q.
Proof.
  intros H. apply Qlt_le_weak. apply Qnot_le_lt. intros Hle.
  apply Qle_bool_iff in Hle. congruence.
Qed.

Lemma insertByOrder_sorted x l :
  StronglySorted (fun a b : Q * (Z * loc) => (fst a <= fst b)%Q) l ->
  StronglySorted (fun a b : Q * (Z * loc) => (fst a <= fst b)%Q) (insertByOrder x l).
Proof.
  induction l as [|y l IH]; intros Hs; simpl.
  - constructor; constructor.
  - apply StronglySorted_inv in Hs as [Hl Hy].
    destruct (Qle_bool (fst x) (fst y)) eqn:Hxy.
    + apply Qle_bool_iff in Hxy. constructor; [constructor; assumption|].
      constructor; [exact Hxy|].
      eapply Forall_impl; [exact Hy|]. intros z Hz. simpl in Hz.
      eapply Qle_trans; eauto.
    + apply Qle_bool_false in Hxy. constructor; [now apply IH|].
      eapply Permutation_Forall; [symmetry; apply insertByOrder_perm|].
      constructor; assumption.
Qed.

Lemma sortByOrder_sorted l :
  StronglySorted (fun a b : Q * (Z * loc) => (fst a <= fst b)%Q) (sortByOrder l).
Proof.
  induction l as [|x l IH]; simpl; [constructor|]. now apply insertByOrder_sorted.
Qed.

Lemma StronglySorted_lookup {A : Type} (R : A -> A -> Prop) (l : list A) :
  StronglySorted R l -> (forall x, R x x) ->
  forall i j a b, (i <= j)%nat -> l !! i = Some a -> l !! j = Some b -> R a b.
Proof.
  intros Hs Hrefl. induction Hs as [|x l Hs IH Hx]; intros i j a b Hij Ha Hb.
  - discriminate.
  - destruct i as [|i], j as [|j]; simpl in Ha, Hb; try lia.
    + assert (a = b) by congruence. subst. apply Hrefl.
    + injection Ha as <-. rewrite Forall_forall in Hx. apply Hx.
      eapply list_elem_of_lookup_2; eauto.
    + apply (IH i j); [lia|assumption..].
Qed.

(** What the keyed list of [getSortedRecordEntriesOfType] holds. *)
Lemma keyed_entries h (entriesArray : list (Z * loc)) keyed :
  rmap (fun entry : Z * loc =>
          let? n := deref h (snd entry) in
          match order n with
          | Some o => Ok (o, entry)
          | None => Err Stuck
          end) entriesArray = Ok keyed ->
  map snd keyed = entriesArray /\
  Forall (fun oe : Q * (Z * loc) =>
            exists n, h !! snd (snd oe) = Some n /\ order n = Some (fst oe)) keyed.
Proof.
  revert keyed. induction entriesArray as [|e l IH]; intros keyed; simpl.
  - intros [= <-]. split; [reflexivity|constructor].
  - intros H. apply rbind_Ok in H as ((o & e') & He & H).
    apply rbind_Ok in He as (n & Hn & He). apply deref_Ok in Hn.
    destruct (order n) as [o'|] eqn:Ho; [|discriminate]. injection He as <- <-.
    apply rbind_Ok in H as (bs & Hbs & H). injection H as <-.
    destruct (IH bs Hbs) as [Hm Hf]. split; [simpl; now rewrite Hm|].
    constructor; [|exact Hf]. exists n. now split.
Qed.

Lemma scanOrders_all_defined h (valuesArray : list loc) :
  Forall (fun v => exists n, h !! v = Some n /\ order n <> None) valuesArray ->
  forall maxOrder, exists mx, scanOrders h valuesArray maxOrder = Ok (false, mx).
Proof.
  induction 1 as [|v l (n & Hn & Ho) _ IH]; intros maxOrder; simpl.
  - now exists maxOrder.
  - unfold deref. rewrite Hn. simpl.
    destruct (order n) as [o|]; [|now elim Ho]. apply IH.
Qed.

Lemma getRecordMapOfType_same_records h h' this ty :
  map records h' = map records h ->
  getRecordMapOfType h' this ty = getRecordMapOfType h this ty.
Proof.
  intros Hmap. unfold getRecordMapOfType, deref.
  destruct (h !! _json this) as [n|] eqn:Hn.
  - destruct (same_field records h h' _ _ Hmap Hn) as (n' & -> & Hr).
    simpl. now rewrite Hr.
  - now rewrite (same_field_none records h h' _ Hmap Hn).
Qed.

(** The steps of a successful sorted read. *)
Lemma getSortedRecordEntriesOfType_steps this ty s entries s' :
  getSortedRecordEntriesOfType this ty s = Ok (entries, s') ->
  exists m keyed,
    ensureOrderKeyPresentOfType this ty s = Ok (tt, s') /\
    getRecordMapOfType (heap s') this ty = Ok m /\
    rmap (fun entry : Z * loc =>
            let? n := deref (heap s') (snd entry) in
            match order n with
            | Some o => Ok (o, entry)
            | None => Err Stuck
            end) m = Ok keyed /\
    entries = map snd (sortByOrder keyed).
Proof.
  unfold getSortedRecordEntriesOfType. intros H.
  apply bind_Ok in H as ([] & s1 & Hens & H).
  apply bind_Ok in H as (m & sa & Hm & H). apply look_Ok in Hm as [Hm ->].
  apply bind_Ok in H as (keyed & sa & Hk & H). apply look_Ok in Hk as [Hk ->].
  apply ret_Ok in H as [-> ->]. now exists m, keyed.
Qed.

End SortedEntries.

(** X4.  A sorted read returns every entry of the record map of the type
    exactly once, and in the store it leaves behind every returned record
    has an order, ascending along the returned list. *)
Theorem getSortedRecordEntriesOfType_sorted (this : RecordFactory) (ty : string)
    (s : Store) (entries : list (Z * loc)) (s' : Store) :
  getSortedRecordEntriesOfType this ty s = Ok (entries, s') ->
  exists m,
    getRecordMapOfType (heap s) this ty = Ok m /\
    Permutation entries m /\
    forall i j e1 e2, (i <= j)%nat ->
      entries !! i = Some e1 -> entries !! j = Some e2 ->
      exists n1 n2 a b,
        heap s' !! snd e1 = Some n1 /\ order n1 = Some a /\
        heap s' !! snd e2 = Some n2 /\ order n2 = Some b /\ (a <= b)%Q.
Proof.
  intros H.
  pose proof (getSortedRecordEntriesOfType_frame records (fun _ _ => eq_refl)
                this ty _ _ _ H) as Hrec.
  apply getSortedRecordEntriesOfType_steps in H as (m & keyed & _ & Hm & Hk & ->).
  apply keyed_entries in Hk as [Hsnd Hall].
  exists m. split; [now rewrite <- (getRecordMapOfType_same_records _ _ this ty Hrec)|].
  split.
  - rewrite <- Hsnd. apply Permutation_map, sortByOrder_perm.
  - intros i j e1 e2 Hij H1 H2.
    change (map snd (sortByOrder keyed)) with (snd <$> sortByOrder keyed) in H1, H2.
    rewrite list_lookup_fmap in H1, H2.
    destruct (sortByOrder keyed !! i) as [[a e1']|] eqn:Hi; [|discriminate].
    destruct (sortByOrder keyed !! j) as [[b e2']|] eqn:Hj; [|discriminate].
    simpl in H1, H2. injection H1 as <-. injection H2 as <-.
    assert (Hin : forall k oe, sortByOrder keyed !! k = Some oe ->
              exists n, heap s' !! snd (snd oe) = Some n /\ order n = Some (fst oe)).
    { intros k oe Hk. rewrite Forall_forall in Hall. apply Hall.
      apply list_elem_of_In. apply (Permutation_in _ (sortByOrder_perm keyed)).
      eapply list_elem_of_In, list_elem_of_lookup_2; eauto. }
    destruct (Hin _ _ Hi) as (n1 & Hn1 & Ho1).
    destruct (Hin _ _ Hj) as (n2 & Hn2 & Ho2).
    exists n1, n2, a, b. repeat (split; [assumption|]).
    exact (StronglySorted_lookup _ _ (sortByOrder_sorted keyed)
             (fun x => Qle_refl _) i j _ _ Hij Hi Hj).
Qed.

(** X5.  A sorted read repeated on the store the first one left behind
    returns the same list and changes nothing. *)
Theorem getSortedRecordEntriesOfType_idempotent (this : RecordFactory) (ty : string)
    (s : Store) (entries : list (Z * loc)) (s' : Store) :
  getSortedRecordEntriesOfType this ty s = Ok (entries, s') ->
  getSortedRecordEntriesOfType this ty s' = Ok (entries, s').
Proof.
  intros H.
  apply getSortedRecordEntriesOfType_steps in H as (m & keyed & _ & Hm & Hk & ->).
  pose proof (keyed_entries _ _ _ Hk) as [Hsnd Hall].
  assert (Hdef : Forall (fun v => exists n, heap s' !! v = Some n /\ order n <> None)
                   (map snd m)).
  { rewrite <- Hsnd, map_map. apply Forall_forall. intros v Hv.
    apply list_elem_of_In, in_map_iff in Hv as (oe & <- & Hoe).
    rewrite Forall_forall in Hall.
    destruct (Hall _ (proj2 (list_elem_of_In _ _) Hoe)) as (n & Hn & Ho).
    exists n. split; [exact Hn|]. now rewrite Ho. }
  destruct (scanOrders_all_defined _ _ Hdef 0%Q) as (mx & Hscan).
  unfold getSortedRecordEntriesOfType, ensureOrderKeyPresentOfType, bind, look.
  rewrite Hm, Hscan. simpl. unfold ret. simpl. rewrite Hm, Hk. reflexivity.
Qed.

(** Witness of X4: the scenes of [Demo.legacy]. *)
Lemma getSortedRecordEntriesOfType_sorted_witness :
  exists entries s' m,
    getSortedRecordEntriesOfType Demo.project "scene" Demo.legacy = Ok (entries, s') /\
    getRecordMapOfType (heap Demo.legacy) Demo.project "scene" = Ok m /\
    Permutation entries m.
Proof.
  eexists _, _.
  assert (H : getSortedRecordEntriesOfType Demo.project "scene" Demo.legacy
              = Ok (_, _)) by (vm_compute; reflexivity).
  destruct (getSortedRecordEntriesOfType_sorted _ _ _ _ _ H) as (m & Hm & Hp & _).
  exists m. split; [exact H|]. split; [exact Hm|exact Hp].
Defined.

(** Witness of X5: the scenes of [Demo.legacy], read twice. *)
Lemma getSortedRecordEntriesOfType_idempotent_witness :
  exists entries s',
    getSortedRecordEntriesOfType Demo.project "scene" Demo.legacy = Ok (entries, s') /\
    getSortedRecordEntriesOfType Demo.project "scene" s' = Ok (entries, s').
Proof.
  eexists _, _.
  assert (H : getSortedRecordEntriesOfType Demo.project "scene" Demo.legacy
              = Ok (_, _)) by (vm_compute; reflexivity).
  split; [exact H|]. exact (getSortedRecordEntriesOfType_idempotent _ _ _ _ _ H).
Defined.

Section Backfill.

(** Cells with an order are as before; the others differ in their order
    at most. *)
Lemma backfill_keeps_refl (h : Heap) l n :
  h !! l = Some n ->
  exists n', h !! l = Some n' /\ n' = with_order (order n') n
             /\ (order n <> None -> n' = n).
Proof. intros Hn. exists n. split; [exact Hn|]. split; [now destruct n|auto]. Qed.

Lemma backfillOrder_keeps maxOrder v s mx s' :
  backfillOrder maxOrder v s = Ok (mx, s') ->
  forall l n, heap s !! l = Some n ->
    exists n', heap s' !! l = Some n' /\ n' = with_order (order n') n
               /\ (order n <> None -> n' = n).
Proof.
  unfold backfillOrder. intros H l n Hn.
  apply bind_Ok in H as (c & sa & Hc & H). apply look_Ok in Hc as [Hc ->].
  apply deref_Ok in Hc.
  destruct (order c) eqn:Ho.
  - apply ret_Ok in H as [_ ->]. now apply backfill_keeps_refl.
  - apply bind_Ok in H as ([] & s1 & Hupd & H). apply ret_Ok in H as [_ ->].
    apply update_Ok in Hupd as (c' & Hc' & ->). simpl.
    assert (c' = c) by congruence. subst c'.
    destruct (Nat.eq_dec l v) as [->|Hne].
    + assert (n = c) by congruence. subst n.
      rewrite list_lookup_insert_eq by (eapply lookup_lt_Some; eauto).
      eexists. split; [reflexivity|]. split; [reflexivity|]. intros Hd. congruence.
    + rewrite list_lookup_insert_ne by congruence. now apply backfill_keeps_refl.
Qed.

Lemma backfill_loop_keeps valuesArray : forall maxOrder s mx s',
  foldM backfillOrder valuesArray maxOrder s = Ok (mx, s') ->
  forall l n, heap s !! l = Some n ->
    exists n', heap s' !! l = Some n' /\ n' = with_order (order n') n
               /\ (order n <> None -> n' = n).
Proof.
  induction valuesArray as [|v vs IH]; intros maxOrder s mx s' H l n Hn; simpl in H.
  - apply ret_Ok in H as [_ ->]. now apply backfill_keeps_refl.
  - apply bind_Ok in H as (m1 & s1 & H1 & H).
    destruct (backfillOrder_keeps _ _ _ _ _ H1 l n Hn) as (n1 & Hn1 & He1 & Hk1).
    destruct (IH _ _ _ _ H l n1 Hn1) as (n2 & Hn2 & He2 & Hk2).
    exists n2. split; [exact Hn2|]. split.
    + rewrite He2, He1. reflexivity.
    + intros Hd. rewrite <- (Hk1 Hd). apply Hk2. now rewrite (Hk1 Hd).
Qed.

End Backfill.

(** X6.  A sorted read never touches a record that has an order, and
    changes nothing but the order of a record that has none: names,
    types, property bags and record maps are as before. *)
Theorem getSortedRecordEntriesOfType_keeps_orders (this : RecordFactory) (ty : string)
    (s : Store) (entries : list (Z * loc)) (s' : Store) :
  getSortedRecordEntriesOfType this ty s = Ok (entries, s') ->
  forall l n, heap s !! l = Some n ->
    exists n', heap s' !! l = Some n' /\
               n' = with_order (order n') n /\
               (order n <> None -> n' = n).
Proof.
  intros H l n Hn.
  apply getSortedRecordEntriesOfType_steps in H as (m & keyed & Hens & _).
  unfold ensureOrderKeyPresentOfType in Hens.
  apply bind_Ok in Hens as (rm & sa & Hrm & H). apply look_Ok in Hrm as [_ ->].
  apply bind_Ok in H as ([found mx] & sa & Hscan & H). apply look_Ok in Hscan as [_ ->].
  destruct found; simpl in H.
  - apply bind_Ok in H as (mx' & s1 & Hloop & H). apply ret_Ok in H as [_ ->].
    exact (backfill_loop_keeps _ _ _ _ _ Hloop l n Hn).
  - apply ret_Ok in H as [_ ->]. now apply backfill_keeps_refl.
Qed.

(** Witness of X6: scene 2 of [Demo.legacy], which has the order 5. *)
Lemma getSortedRecordEntriesOfType_keeps_orders_witness :
  exists entries s',
    getSortedRecordEntriesOfType Demo.project "scene" Demo.legacy = Ok (entries, s') /\
    heap s' !! 2%nat = Some (Demo.leaf "scene" (Some "B") (Some 5%Q) []).
Proof.
  eexists _, _.
  assert (H : getSortedRecordEntriesOfType Demo.project "scene" Demo.legacy
              = Ok (_, _)) by (vm_compute; reflexivity).
  split; [exact H|].
  destruct (getSortedRecordEntriesOfType_keeps_orders _ _ _ _ _ H 2%nat
              (Demo.leaf "scene" (Some "B") (Some 5%Q) []) eq_refl)
    as (n' & Hn' & _ & Hsame).
  rewrite Hn'. f_equal. apply Hsame. discriminate.
Defined.

(** ** Deleting entries and properties *)

Section Deleting.

Lemma iget_None_notin {V : Type} k (o : list (Z * V)) :
  ~ In k (map fst o) -> iget k o = None.
Proof.
  induction o as [|[k' v] o IH]; simpl; [reflexivity|]. intros H.
  destruct (Z.eqb_spec k k'); [subst; tauto|]. apply IH. tauto.
Qed.

Lemma iget_idelete_ne {V : Type} k k' (o : list (Z * V)) :
  k <> k' -> iget k (idelete k' o) = iget k o.
Proof.
  intros Hne. induction o as [|[k2 v] o IH]; simpl; [reflexivity|].
  destruct (Z.eqb_spec k' k2) as [->|H2]; simpl.
  - destruct (Z.eqb_spec k k2); [contradiction|reflexivity].
  - now rewrite IH.
Qed.

Lemma iget_idelete_eq {V : Type} k (o : list (Z * V)) :
  NoDup (map fst o) -> iget k (idelete k o) = None.
Proof.
  induction o as [|[k2 v] o IH]; simpl; [reflexivity|]. intros Hnd.
  apply NoDup_cons in Hnd as [Hk Hnd].
  destruct (Z.eqb_spec k k2) as [->|H2]; simpl.
  - apply iget_None_notin. intros H. apply Hk. now apply list_elem_of_In.
  - destruct (Z.eqb_spec k k2); [contradiction|]. now apply IH.
Qed.

Lemma sget_None_notin {V : Type} k (o : list (string * V)) :
  ~ In k (map fst o) -> sget k o = None.
Proof.
  induction o as [|[k' v] o IH]; simpl; [reflexivity|]. intros H.
  destruct (String.eqb_spec k k'); [subst; tauto|]. apply IH. tauto.
Qed.

Lemma sget_sdelete_ne {V : Type} k k' (o : list (string * V)) :
  k <> k' -> sget k (sdelete k' o) = sget k o.
Proof.
  intros Hne. induction o as [|[k2 v] o IH]; simpl; [reflexivity|].
  destruct (String.eqb_spec k' k2) as [->|H2]; simpl.
  - destruct (String.eqb_spec k k2); [contradiction|reflexivity].
  - now rewrite IH.
Qed.

Lemma sget_sdelete_eq {V : Type} k (o : list (string * V)) :
  NoDup (map fst o) -> sget k (sdelete k o) = None.
Proof.
  induction o as [|[k2 v] o IH]; simpl; [reflexivity|]. intros Hnd.
  apply NoDup_cons in Hnd as [Hk Hnd].
  destruct (String.eqb_spec k k2) as [->|H2]; simpl.
  - apply sget_None_notin. intros H. apply Hk. now apply list_elem_of_In.
  - destruct (String.eqb_spec k k2); [contradiction|]. now apply IH.
Qed.

Lemma sset_keys_NoDup {V : Type} k (v : V) (o : list (string * V)) :
  NoDup (map fst o) -> NoDup (map fst (sset k v o)).
Proof.
  induction o as [|[k2 w] o IH]; simpl; intros Hnd.
  - apply NoDup_cons. split; [intros H; inversion H|constructor].
  - apply NoDup_cons in Hnd as [Hk Hnd].
    destruct (String.eqb_spec k k2) as [->|H2]; simpl.
    + apply NoDup_cons. now split.
    + apply NoDup_cons. split; [|now apply IH].
      intros Hin. apply Hk. apply list_elem_of_In in Hin. apply list_elem_of_In.
      clear -Hin H2. induction o as [|[k3 u] o IH]; simpl in *.
      * destruct Hin as [->|[]]. contradiction.
      * destruct (String.eqb_spec k k3) as [->|H3]; simpl in Hin.
        -- destruct Hin as [->|Hin]; [contradiction|now right].
        -- destruct Hin as [->|Hin]; [now left|right; now apply IH].
Qed.

(** What [removeFromRecordMap] does to the lookups. *)
Lemma removeFromRecordMap_lookups this ty id s s' m :
  getRecordMapOfType (heap s) this ty = Ok m ->
  NoDup (map fst m) ->
  removeFromRecordMap this ty id s = Ok (tt, s') ->
  getRecordOfType (heap s') this ty (Some id) = Ok None /\
  (forall rf ty' id',
      _json rf <> _json this \/ ty' <> ty \/ id' <> id ->
      getRecordOfType (heap s') rf ty' (Some id')
      = getRecordOfType (heap s) rf ty' (Some id')) /\
  (forall l n, heap s !! l = Some n ->
      exists n', heap s' !! l = Some n' /\ n' = with_records (records n') n).
Proof.
  intros Hm Hnd H. unfold removeFromRecordMap in H.
  apply update_Ok in H as (n & Hn & ->). simpl.
  assert (Hlt : (_json this < length (heap s))%nat) by (eapply lookup_lt_Some; eauto).
  unfold getRecordMapOfType, deref in Hm. rewrite Hn in Hm. simpl in Hm.
  injection Hm as Hm.
  split; [|split].
  - unfold getRecordOfType, deref. rewrite list_lookup_insert_eq by exact Hlt. simpl.
    destruct (records n) as [rs|] eqn:Hrs; [|now rewrite Hrs].
    destruct (sget ty rs) as [m'|] eqn:Hty.
    + subst m'. simpl. now rewrite sget_sset_eq, iget_idelete_eq.
    + now rewrite Hrs, Hty.
  - intros rf ty' id' Hdiff. unfold getRecordOfType, deref.
    destruct (Nat.eq_dec (_json rf) (_json this)) as [Heq|Hne].
    + rewrite Heq, list_lookup_insert_eq, Hn by exact Hlt. simpl.
      destruct (records n) as [rs|] eqn:Hrs; [|now rewrite Hrs].
      destruct (sget ty rs) as [m'|] eqn:Hty; [|now rewrite Hrs].
      simpl. destruct (String.eqb_spec ty' ty) as [->|Hty'].
      * rewrite sget_sset_eq, Hty.
        rewrite iget_idelete_ne; [reflexivity|]. destruct Hdiff as [?|[?|?]]; congruence.
      * now rewrite sget_sset_ne.
    + now rewrite list_lookup_insert_ne by congruence.
  - intros l c Hc. destruct (Nat.eq_dec l (_json this)) as [->|Hne].
    + rewrite list_lookup_insert_eq by exact Hlt.
      assert (c = n) by congruence. subst c.
      eexists. split; [reflexivity|].
      assert (Hself : n = with_records (records n) n) by now destruct n.
      destruct (records n) as [rs|] eqn:Hrs; [|simpl; rewrite Hrs; exact Hself].
      destruct (sget ty rs); [reflexivity|simpl; rewrite Hrs; exact Hself].
    + rewrite list_lookup_insert_ne by congruence.
      exists c. split; [exact Hc|now destruct c].
Qed.

End Deleting.

(** X7.  [deleteRecord(type, id)] on a stored child hands back that child
    under its id, after which the id names nothing in the map of that
    type; every other lookup, on this node or any other, answers as
    before, and no node loses or changes a name, order, type or property
    (references to the deleted id are left as they are). *)
Theorem deleteRecord_removes_one_entry (this : RecordFactory) (ty : string) (id : Z)
    (s : Store) (d : idAndRecord) (s' : Store) (m : RecordMap) :
  getRecordMapOfType (heap s) this ty = Ok m ->
  NoDup (map fst m) ->
  deleteRecord this ty id s = Ok (Some d, s') ->
  ir_id d = id /\
  getRecordOfType (heap s) this ty (Some id) = Ok (Some (ir_record d)) /\
  getRecordOfType (heap s') this ty (Some id) = Ok None /\
  (forall rf ty' id',
      _json rf <> _json this \/ ty' <> ty \/ id' <> id ->
      getRecordOfType (heap s') rf ty' (Some id')
      = getRecordOfType (heap s) rf ty' (Some id')) /\
  (forall l n, heap s !! l = Some n ->
      exists n', heap s' !! l = Some n' /\ n' = with_records (records n') n).
Proof.
  intros Hm Hnd H. unfold deleteRecord in H.
  apply bind_Ok in H as (r & sa & Hr & H). apply look_Ok in Hr as [Hr ->].
  destruct r as [r|]; [|apply ret_Ok in H as [[=] _]].
  apply bind_Ok in H as ([] & s1 & Hrem & H). apply ret_Ok in H as [[= ->] ->].
  destruct (removeFromRecordMap_lookups _ _ _ _ _ _ Hm Hnd Hrem) as (H1 & H2 & H3).
  simpl. repeat split; assumption.
Qed.

(** Witness of X7: element 5 is deleted from scene 1 of [Demo.twoRooms]. *)
Lemma deleteRecord_removes_one_entry_witness :
  exists d s',
    deleteRecord (mkRF 1 "scene") "element" 5 Demo.twoRooms = Ok (Some d, s') /\
    getRecordOfType (heap s') (mkRF 1 "scene") "element" (Some 5%Z) = Ok None /\
    getRecordOfType (heap s') (mkRF 2 "scene") "element" (Some 6%Z) = Ok (Some 4%nat).
Proof.
  eexists _, _.
  assert (H : deleteRecord (mkRF 1 "scene") "element" 5 Demo.twoRooms = Ok (Some _, _))
    by (vm_compute; reflexivity).
  assert (Hnd : NoDup (map fst [(5%Z, 3%nat)])).
  { apply NoDup_cons. split; [intros Hin; inversion Hin|constructor]. }
  destruct (deleteRecord_removes_one_entry (mkRF 1 "scene") "element" 5 Demo.twoRooms
              _ _ [(5%Z, 3%nat)] eq_refl Hnd H) as (_ & _ & Hgone & Hrest & _).
  split; [exact H|]. split; [exact Hgone|].
  rewrite (Hrest (mkRF 2 "scene") "element" 6%Z); [reflexivity|]. left. simpl. lia.
Defined.

(** X8.  A record that [addRecord] has just stored can be deleted again
    under the returned id: [deleteRecord] on the receiving factory, with
    the record's type, hands back the same id and node. *)
Theorem addRecord_then_deleteRecord (E : Externals) (fuel : nat) (this : RecordFactory)
    (record : loc) (position id : option Z) (dc : bool)
    (parent : option idOrAddress) (s : Store) (ir : idAndRecord) (s1 : Store) :
  addRecord E fuel this record position id dc parent s = Ok (Some ir, s1) ->
  exists owner rec s2,
    receiver E fuel (heap s) this parent owner /\
    heap s !! record = Some rec /\
    deleteRecord owner (type rec) (ir_id ir) s1 = Ok (Some ir, s2).
Proof.
  intros H. apply addRecord_receiver in H as (owner & Hown & H).
  apply addRecordHere_inserted in H
    as (rec & _ & _ & _ & _ & _ & Hrec & _ & _ & _ & _ & Hir & _ & Hget & _).
  assert (Hn : exists n, heap s1 !! _json owner = Some n).
  { unfold getRecordOfType, deref in Hget.
    destruct (heap s1 !! _json owner) as [n|]; [now exists n|discriminate]. }
  destruct Hn as (n & Hn).
  destruct ir as [i r]. simpl in *. subst r.
  exists owner, rec. eexists. split; [exact Hown|]. split; [exact Hrec|].
  unfold deleteRecord, bind, look. rewrite Hget.
  unfold removeFromRecordMap, update. rewrite Hn. unfold ret. reflexivity.
Qed.

(** Witness of X8: the scene added in [Demo.added]. *)
Lemma addRecord_then_deleteRecord_witness :
  exists ir s1 s2,
    Demo.added = Ok (Some ir, s1) /\
    deleteRecord Demo.project "scene" (ir_id ir) s1 = Ok (Some ir, s2).
Proof.
  eexists _, _. unfold Demo.added.
  assert (H : addRecord Demo.registry 10 Demo.project 3%nat (Some 1%Z) None false None
                Demo.withLoose = Demo.added) by (vm_compute; reflexivity).
  unfold Demo.added in H.
  destruct (addRecord_then_deleteRecord _ _ _ _ _ _ _ _ _ _ _ H)
    as (owner & rec & s2 & Hown & Hrec & Hdel).
  simpl in Hown. subst owner. injection Hrec as <-.
  exists s2. split; [reflexivity|exact Hdel].
Defined.

(** ** Property bags *)

Section Bags.
Variable defaultValues : string -> list (string * value).

(** X9.  [changePropertyName(old, new)] with two different names moves
    the stored value: it is read under the new name, the old name reads
    [undefined], and every other property reads as before. *)
Theorem changePropertyName_moves_value (this : RecordFactory) (old new : string)
    (s s' : Store) (n : RecordNode) (v : value) :
  heap s !! _json this = Some n ->
  NoDup (map fst (props n)) ->
  sget old (props n) = Some v ->
  old <> new ->
  Props.changePropertyName this old new s = Ok (tt, s') ->
  Props.get (heap s') this new = Ok (Some v) /\
  Props.get (heap s') this old = Ok None /\
  forall q, q <> old -> q <> new ->
            Props.get (heap s') this q = Props.get (heap s) this q.
Proof.
  intros Hn Hnd Hv Hne H. unfold Props.changePropertyName in H.
  apply update_Ok in H as (n' & Hn' & ->).
  assert (n' = n) by congruence. subst n'. rewrite Hv.
  assert (Hlt : (_json this < length (heap s))%nat) by (eapply lookup_lt_Some; eauto).
  unfold Props.get, deref. simpl.
  rewrite list_lookup_insert_eq by exact Hlt. rewrite Hn. simpl.
  split; [|split].
  - rewrite sget_sdelete_ne by congruence. now rewrite sget_sset_eq.
  - rewrite sget_sdelete_eq; [reflexivity|]. now apply sset_keys_NoDup.
  - intros q Hq1 Hq2. rewrite sget_sdelete_ne by exact Hq1.
    now rewrite sget_sset_ne by exact Hq2.
Qed.

(** X10.  [changePropertyName(p, p)] deletes a stored property [p]: the
    value is stored under [p] again and then [p] is deleted, so the
    property falls back to its default. *)
Theorem changePropertyName_same_name_deletes (this : RecordFactory) (p : string)
    (s s' : Store) (n : RecordNode) (v : value) :
  heap s !! _json this = Some n ->
  NoDup (map fst (props n)) ->
  sget p (props n) = Some v ->
  Props.changePropertyName this p p s = Ok (tt, s') ->
  Props.get (heap s') this p = Ok None /\
  Props.getValueOrDefault defaultValues (heap s') this p
  = Ok (Props.getDefault defaultValues this p).
Proof.
  intros Hn Hnd Hv H. unfold Props.changePropertyName in H.
  apply update_Ok in H as (n' & Hn' & ->).
  assert (n' = n) by congruence. subst n'. rewrite Hv.
  assert (Hlt : (_json this < length (heap s))%nat) by (eapply lookup_lt_Some; eauto).
  assert (Hget : Props.get (<[_json this := with_props
                    (sdelete p (sset p v (props n))) n]> (heap s)) this p = Ok None).
  { unfold Props.get, deref. rewrite list_lookup_insert_eq by exact Hlt. simpl.
    rewrite sget_sdelete_eq; [reflexivity|]. now apply sset_keys_NoDup. }
  split; [exact Hget|]. unfold Props.getValueOrDefault. simpl. now rewrite Hget.
Qed.


(** X12.  After [delete(p)] the property reads its declared default
    through [getValueOrDefault] ([undefined] when the type declares
    none); every other property reads as before. *)
Theorem delete_restores_default (this : RecordFactory) (p : string)
    (s s' : Store) (n : RecordNode) :
  heap s !! _json this = Some n ->
  NoDup (map fst (props n)) ->
  Props.delete this p s = Ok (tt, s') ->
  Props.getValueOrDefault defaultValues (heap s') this p
  = Ok (Props.getDefault defaultValues this p) /\
  forall q, q <> p -> Props.get (heap s') this q = Props.get (heap s) this q.
Proof.
  intros Hn Hnd H. unfold Props.delete in H. apply update_Ok in H as (n' & Hn' & ->).
  assert (n' = n) by congruence. subst n'.
  assert (Hlt : (_json this < length (heap s))%nat) by (eapply lookup_lt_Some; eauto).
  simpl. split.
  - unfold Props.getValueOrDefault, Props.get, deref.
    rewrite list_lookup_insert_eq by exact Hlt. simpl.
    now rewrite sget_sdelete_eq.
  - intros q Hq. unfold Props.get, deref.
    rewrite list_lookup_insert_eq by exact Hlt. rewrite Hn. simpl.
    now rewrite sget_sdelete_ne.
Qed.

End Bags.

Lemma demo_bag_keys : NoDup (map fst [("first", VNum 2%Q)]).
Proof. apply NoDup_cons. split; [intros H; inversion H|constructor]. Defined.

(** Witness of X9: the property [first] of scene 1 in [Demo.nested] is
    renamed to [start]. *)
Lemma changePropertyName_moves_value_witness :
  exists s',
    Props.changePropertyName (mkRF 1 "scene") "first" "start" Demo.nested = Ok (tt, s') /\
    Props.get (heap s') (mkRF 1 "scene") "start" = Ok (Some (VNum 2%Q)) /\
    Props.get (heap s') (mkRF 1 "scene") "first" = Ok None.
Proof.
  eexists.
  assert (H : Props.changePropertyName (mkRF 1 "scene") "first" "start" Demo.nested
              = Ok (tt, _)) by (vm_compute; reflexivity).
  destruct (changePropertyName_moves_value (mkRF 1 "scene") "first" "start" Demo.nested
              _ _ (VNum 2%Q) eq_refl demo_bag_keys eq_refl ltac:(discriminate) H)
    as (Hnew & Hold & _).
  split; [exact H|]. split; [exact Hnew|exact Hold].
Defined.

(** Witness of X10: the property [first] is renamed to itself. *)
Lemma changePropertyName_same_name_deletes_witness :
  exists s',
    Props.changePropertyName (mkRF 1 "scene") "first" "first" Demo.nested = Ok (tt, s') /\
    Props.get (heap s') (mkRF 1 "scene") "first" = Ok None.
Proof.
  eexists.
  assert (H : Props.changePropertyName (mkRF 1 "scene") "first" "first" Demo.nested
              = Ok (tt, _)) by (vm_compute; reflexivity).
  destruct (changePropertyName_same_name_deletes (fun _ => []) (mkRF 1 "scene") "first"
              Demo.nested _ _ (VNum 2%Q) eq_refl demo_bag_keys eq_refl H) as (Hgone & _).
  split; [exact H|exact Hgone].
Defined.


(** Witness of X12: [first] is deleted and reads its default 0. *)
Lemma delete_restores_default_witness :
  exists s',
    Props.delete (mkRF 1 "scene") "first" Demo.nested = Ok (tt, s') /\
    Props.getValueOrDefault (fun _ => [("first", VNum 0%Q)]) (heap s') (mkRF 1 "scene")
      "first" = Ok (Some (VNum 0%Q)).
Proof.
  eexists.
  assert (H : Props.delete (mkRF 1 "scene") "first" Demo.nested = Ok (tt, _))
    by (vm_compute; reflexivity).
  destruct (delete_restores_default (fun _ => [("first", VNum 0%Q)]) (mkRF 1 "scene")
              "first" Demo.nested _ _ eq_refl demo_bag_keys H) as (Hget & _).
  split; [exact H|exact Hget].
Defined.

(** ** Addresses, continued *)

Section AddressParts.
Variable E : Externals.

Lemma drop_line_single s : single_line s = true -> drop_line s = EmptyString.
Proof.
  unfold single_line. rewrite andb_true_iff, !negb_true_iff.
  induction s as [|c s IH]; simpl; [reflexivity|]. intros [Hn Hr].
  apply orb_false_iff in Hn as [Hn1 Hn2]. apply orb_false_iff in Hr as [Hr1 Hr2].
  unfold is_line_terminator. rewrite Hn1, Hr1. simpl. now apply IH.
Qed.

Lemma remove_property_suffix_app a b :
  mentions "!" a = false ->
  remove_property_suffix (a ++ b) = a ++ remove_property_suffix b.
Proof.
  induction a as [|x a IH]; simpl; [reflexivity|]. intros H.
  apply orb_false_iff in H as [Hx Ha]. rewrite Hx. now rewrite IH.
Qed.

Lemma append_empty_r a : a ++ EmptyString = a.
Proof. induction a as [|x a IH]; simpl; [reflexivity|]. now rewrite IH. Qed.

Lemma split_nonempty c s : split c s <> [].
Proof.
  destruct s as [|x s]; simpl; [discriminate|].
  destruct (Ascii.eqb x c); [discriminate|]. destruct (split c s); discriminate.
Qed.

Lemma split_app c a b : split c (a ++ String c b) = app (split c a) (split c b).
Proof.
  induction a as [|x a IH]; simpl.
  - now rewrite Ascii.eqb_refl.
  - destruct (Ascii.eqb x c); [now rewrite IH|].
    rewrite IH. pose proof (split_nonempty c a) as Hne.
    destruct (split c a); [now elim Hne|reflexivity].
Qed.

Lemma idToString_single_line id : single_line (idToString id) = true.
Proof.
  unfold single_line.
  rewrite !idToString_plain; try reflexivity; apply not_a_digit; vm_compute; lia.
Qed.

Lemma single_line_app a b :
  single_line a = true -> single_line b = true -> single_line (a ++ b) = true.
Proof.
  unfold single_line. rewrite !andb_true_iff, !negb_true_iff, !mentions_app.
  intros [-> ->] [-> ->]. now split.
Qed.

(** A direct child is found under any address whose record part is its
    type and id. *)
Lemma direct_child_resolves h this rf0 ty id r addr :
  newRecordFactory E h (_json this) = Ok rf0 ->
  getRecordOfType h this ty (Some id) = Ok (Some r) ->
  address_safe ty = true ->
  remove_property_suffix addr = ty ++ ":" ++ idToString id ->
  getRecordAndParentWithAddress E h this addr
  = Ok (Some (mkRAndP id r (_json this))).
Proof.
  intros Hrf Hget Hs Haddr.
  pose proof (child_address_parses ty id Hs) as (_ & Hcolon).
  pose proof (address_safe_spec _ Hs) as (_ & _ & Hbar & _).
  unfold getRecordAndParentWithAddress. rewrite Haddr.
  rewrite split_plain
    by (rewrite !mentions_app, Hbar, idToString_no_bar; reflexivity).
  unfold newRecordFactory in Hrf. apply rbind_Ok in Hrf as (n & Hn & Hrf).
  rewrite Hn. cbn [rbind].
  assert (Hrs : exists rs, records n = Some rs).
  { unfold getRecordOfType in Hget. rewrite Hn in Hget. simpl in Hget.
    destruct (records n) as [rs|]; [now exists rs|discriminate]. }
  destruct Hrs as (rs & Hrs). rewrite Hrs.
  change (length [ty ++ ":" ++ idToString id] =? 0)%nat with false.
  change (":" ++ idToString id) with (String ":" (idToString id)) in *.
  cbn [walkAddress]. rewrite Hcolon. cbn [lookup list_lookup].
  rewrite Number_idToString.
  unfold newRecordFactory. rewrite Hn. cbn [rbind].
  destruct (isRecordType E (type n)); [|discriminate].
  cbn [rbind].
  assert (Hsame : getRecordOfType h (mkRF (_json this) (type n)) ty (Some id)
                  = getRecordOfType h this ty (Some id)) by reflexivity.
  rewrite Hsame, Hget. reflexivity.
Qed.

Lemma walkAddress_app h segs1 : forall segs2 p c i rp,
  walkAddress E h segs1 p c i = Ok (Some rp) ->
  walkAddress E h (app segs1 segs2) p c i
  = walkAddress E h segs2 (rp_p rp) (rp_r rp) (rp_id rp).
Proof.
  induction segs1 as [|seg segs1 IH]; intros segs2 p c i rp H.
  - simpl in H. injection H as <-. reflexivity.
  - simpl in H |- *.
    destruct (newRecordFactory E h c) as [rf|e]; [|discriminate]. cbn [rbind] in *.
    destruct (getRecordOfType h rf
                match split ":" seg !! 0%nat with Some t => t | None => EmptyString end
                (Number (split ":" seg !! 1%nat))) as [newChild|e];
      [|discriminate].
    cbn [rbind] in *.
    destruct newChild as [c'|]; [|discriminate].
    destruct (Number (split ":" seg !! 1%nat)) as [i'|]; [|discriminate].
    now apply IH.
Qed.

Lemma walkAddress_start h segs p p' c i i' :
  segs <> [] -> walkAddress E h segs p c i = walkAddress E h segs p' c i'.
Proof. destruct segs; [intros H; now elim H|reflexivity]. Qed.

End AddressParts.

(** X13.  For every stored direct child, the address [getAddress] builds
    from its type and id, with or without a property (and index) suffix,
    resolves through [getDeepRecord] to that child; the property is only
    required to hold no line break. *)
Theorem property_address_round_trip (E : Externals) (fuel : nat) (h : Heap)
    (this rf0 : RecordFactory) (ty : string) (id : Z) (r : loc)
    (property : option string) (index : option Z) :
  newRecordFactory E h (_json this) = Ok rf0 ->
  getRecordOfType h this ty (Some id) = Ok (Some r) ->
  address_safe ty = true ->
  (forall p, property = Some p -> single_line p = true) ->
  exists addr,
    getAddress h this id (Some ty) None property index = Ok addr /\
    getDeepRecord E fuel h this (ByAddress addr) = Ok (Some r).
Proof.
  intros Hrf Hget Hs Hprop.
  pose proof (address_safe_spec _ Hs) as (Hne & _ & _ & Hbang).
  assert (Ht : truthy (Some ty) = Some ty) by (destruct ty; [now elim Hne|reflexivity]).
  unfold getAddress. rewrite Ht, Hget. cbn [rbind truthy].
  eexists. split; [reflexivity|].
  unfold getDeepRecord.
  rewrite (direct_child_resolves E h this rf0 ty id r); try assumption; [reflexivity|].
  assert (Hplain : mentions "!" (ty ++ ":" ++ idToString id) = false).
  { rewrite !mentions_app, Hbang, idToString_no_bang. reflexivity. }
  destruct property as [[|c p]|]; cbn [truthy].
  - now apply remove_property_suffix_plain.
  - rewrite remove_property_suffix_app by exact Hplain.
    change ("!" ++ ?x) with (String "!" x). cbn [remove_property_suffix].
    rewrite Ascii.eqb_refl.
    rewrite drop_line_single; [apply append_empty_r|].
    specialize (Hprop _ eq_refl).
    destruct index as [i|]; [|exact Hprop].
    apply single_line_app; [exact Hprop|].
    apply (single_line_app ">"); [reflexivity|apply idToString_single_line].
  - now apply remove_property_suffix_plain.
Qed.

(** Witness of X13: the address [scene:1!first>0] in [Demo.nested]. *)
Lemma property_address_round_trip_witness :
  exists addr,
    getAddress (heap Demo.nested) Demo.project 1 (Some "scene") None (Some "first")
      (Some 0%Z) = Ok addr /\
    getDeepRecord Demo.registry 10 (heap Demo.nested) Demo.project (ByAddress addr)
    = Ok (Some 1%nat).
Proof.
  apply (property_address_round_trip Demo.registry 10 (heap Demo.nested) Demo.project
           Demo.project "scene" 1 1%nat (Some "first") (Some 0%Z)).
  - reflexivity.
  - reflexivity.
  - reflexivity.
  - intros p [= <-]. reflexivity.
Defined.

(** X14.  Addresses compose: when [a] (without a property suffix)
    resolves from a root to a node, the address [a|b] resolves from the
    root to exactly what [b] resolves to from that node. *)
Theorem address_composes (E : Externals) (fuel : nat) (h : Heap)
    (root sub : RecordFactory) (a b : string) (rp : rAndP) :
  mentions "!" a = false ->
  getRecordAndParentWithAddress E h root a = Ok (Some rp) ->
  newRecordFactory E h (rp_r rp) = Ok sub ->
  getRecordAndParent E fuel h root (ByAddress (a ++ "|" ++ b))
  = getRecordAndParent E fuel h sub (ByAddress b).
Proof.
  intros Ha Hres Hsub. unfold getRecordAndParent.
  unfold getRecordAndParentWithAddress in Hres |- *.
  rewrite remove_property_suffix_plain in Hres by exact Ha.
  rewrite remove_property_suffix_app by exact Ha.
  change ("|" ++ b) with (String "|" b). cbn [remove_property_suffix].
  change (Ascii.eqb "|" "!") with false. cbv iota.
  rewrite split_app.
  destruct (deref h (_json root)) as [n|e]; [|discriminate]. cbn [rbind] in *.
  destruct (length (split "|" a) =? 0)%nat eqn:Hlen; [discriminate|].
  destruct (records n) as [rs|]; [|discriminate].
  assert (Hlen2 : (length (app (split "|" a) (split "|" (remove_property_suffix b)))
                   =? 0)%nat = false).
  { apply Nat.eqb_neq. rewrite length_app. apply Nat.eqb_neq in Hlen. lia. }
  rewrite Hlen2, (walkAddress_app E h _ _ _ _ _ _ Hres).
  (* from the node that [a] names *)
  pose proof Hsub as Hsub'. unfold newRecordFactory in Hsub'.
  apply rbind_Ok in Hsub' as (m & Hm & Hsub').
  destruct (isRecordType E (type m)); [|discriminate]. injection Hsub' as <-.
  cbn [_json]. rewrite Hm. cbn [rbind].
  pose proof (split_nonempty "|" (remove_property_suffix b)) as Hne.
  assert (Hz : (length (split "|" (remove_property_suffix b)) =? 0)%nat = false).
  { apply Nat.eqb_neq. destruct (split "|" (remove_property_suffix b));
      [now elim Hne|simpl; lia]. }
  rewrite Hz.
  destruct (records m) as [rs'|] eqn:Hrs'.
  - now apply walkAddress_start.
  - destruct (split "|" (remove_property_suffix b)) as [|seg rest]; [now elim Hne|].
    cbn [walkAddress]. rewrite Hsub. cbn [rbind].
    unfold getRecordOfType, deref. cbn [_json]. apply deref_Ok in Hm. rewrite Hm.
    cbn [rbind]. rewrite Hrs'. reflexivity.
Qed.

(** Witness of X14: [scene:1] and [element:2] in [Demo.nested]. *)
Lemma address_composes_witness :
  getRecordAndParent Demo.registry 10 (heap Demo.nested) Demo.project
    (ByAddress "scene:1|element:2")
  = getRecordAndParent Demo.registry 10 (heap Demo.nested) (mkRF 1 "scene")
      (ByAddress "element:2").
Proof.
  apply (address_composes Demo.registry 10 (heap Demo.nested) Demo.project
           (mkRF 1 "scene") "scene:1" "element:2" (mkRAndP 1 1 0)); reflexivity.
Defined.

(** X15.  For an id that is not stored under the given type,
    [getAddress] returns the empty string, and the empty string resolves
    to nothing. *)
Theorem absent_child_has_no_address (E : Externals) (fuel : nat) (h : Heap)
    (this rf0 : RecordFactory) (ty : string) (id : Z)
    (selfAddr property : option string) (index : option Z) :
  newRecordFactory E h (_json this) = Ok rf0 ->
  ty <> EmptyString ->
  getRecordOfType h this ty (Some id) = Ok None ->
  getAddress h this id (Some ty) selfAddr property index = Ok EmptyString /\
  getDeepRecord E fuel h this (ByAddress EmptyString) = Ok None.
Proof.
  intros Hrf Hne Hget.
  assert (Ht : truthy (Some ty) = Some ty) by (destruct ty; [now elim Hne|reflexivity]).
  split.
  - unfold getAddress. now rewrite Ht, Hget.
  - unfold getDeepRecord, getRecordAndParentWithAddress.
    change (split "|" (remove_property_suffix EmptyString)) with [EmptyString].
    pose proof Hrf as Hrf'. unfold newRecordFactory in Hrf'.
    apply rbind_Ok in Hrf' as (n & Hn & Hrf').
    destruct (isRecordType E (type n)); [|discriminate]. injection Hrf' as <-.
    rewrite Hn. cbn [rbind]. destruct (records n) eqn:Hrs; [|reflexivity].
    change (length [EmptyString] =? 0)%nat with false.
    cbn [walkAddress]. rewrite Hrf. cbn [rbind].
    change (split ":" EmptyString) with [EmptyString]. cbn [lookup list_lookup Number].
    unfold getRecordOfType. cbn [_json]. rewrite Hn. cbn [rbind]. rewrite Hrs.
    reflexivity.
Qed.

(** Witness of X15: no scene is stored under id 9 in [Demo.nested]. *)
Lemma absent_child_has_no_address_witness :
  getAddress (heap Demo.nested) Demo.project 9 (Some "scene") None None None
  = Ok EmptyString /\
  getDeepRecord Demo.registry 10 (heap Demo.nested) Demo.project (ByAddress EmptyString)
  = Ok None.
Proof.
  apply (absent_child_has_no_address Demo.registry 10 (heap Demo.nested) Demo.project
           Demo.project); [reflexivity|discriminate|reflexivity].
Defined.

(** ** Looking children up *)

Section Lookups.
Variable E : Externals.

Lemma sget_In {V : Type} ty (m : V) (rs : list (string * V)) :
  sget ty rs = Some m -> In (ty, m) rs.
Proof.
  induction rs as [|[ty' m'] rs IH]; simpl; [discriminate|].
  destruct (String.eqb_spec ty ty') as [->|Hne].
  - intros [= ->]. now left.
  - intros H. right. now apply IH.
Qed.

Lemma iget_of_In {V : Type} k (v : V) (m : list (Z * V)) :
  NoDup (map fst m) -> In (k, v) m -> iget k m = Some v.
Proof.
  induction m as [|[k' v'] m IH]; intros Hnd Hin; [destruct Hin|].
  simpl in Hnd. apply NoDup_cons in Hnd as [Hk Hnd]. simpl.
  destruct Hin as [[= -> ->]|Hin].
  - now rewrite Z.eqb_refl.
  - destruct (Z.eqb_spec k k') as [->|Hne]; [|now apply IH].
    elim Hk. apply list_elem_of_In, in_map_iff. now exists (k', v).
Qed.

Lemma NoDup_concat_member {A : Type} (ls : list (list A)) l :
  NoDup (concat ls) -> In l ls -> NoDup l.
Proof.
  induction ls as [|l0 ls IH]; intros Hnd Hin; [destruct Hin|].
  simpl in Hnd. apply NoDup_app in Hnd as (H0 & _ & Hrest).
  destruct Hin as [->|Hin]; [exact H0|now apply IH].
Qed.

(** Every entry of the merged map comes from a stored record map. *)
Lemma merged_entry_stored h this merged k c :
  getRecordMap h this = Ok merged -> In (k, c) merged ->
  exists n rs ty m,
    h !! _json this = Some n /\ records n = Some rs /\ In (ty, m) rs /\ In (k, c) m.
Proof.
  intros Hmap Hin. unfold getRecordMap in Hmap.
  destruct (deref h (_json this)) as [n|e] eqn:Hn; [|discriminate].
  cbn [rbind] in Hmap. apply deref_Ok in Hn.
  destruct (records n) as [rs|] eqn:Hrs; [|injection Hmap as <-; destruct Hin].
  unfold getRecordTypes, deref in Hmap. rewrite Hn in Hmap. cbn [rbind] in Hmap.
  rewrite Hrs in Hmap. rewrite (rfold_merged h this n rs Hn Hrs) in Hmap.
  injection Hmap as <-.
  apply In_merge in Hin as [[]|(m & Hm & Hin)].
  apply in_map_iff in Hm as (ty & Hm & _).
  destruct (sget ty rs) as [m'|] eqn:Hty; [|subst m; destruct Hin].
  subst m'. exists n, rs, ty, m. repeat split; try assumption. now apply sget_In.
Qed.

Lemma newRecordFactory_json h l rf : newRecordFactory E h l = Ok rf -> _json rf = l.
Proof.
  unfold newRecordFactory. intros H. apply rbind_Ok in H as (n & _ & H).
  destruct (isRecordType E (type n)); [|discriminate]. now injection H as <-.
Qed.

End Lookups.

(** X16.  On a node whose children have pairwise different ids,
    [getRecord(id)] finds a child exactly when [getRecordOfType] finds it
    under one of the types, and it is the same child. *)
Theorem getRecord_agrees_with_getRecordOfType (h : Heap) (this : RecordFactory)
    (n : RecordNode) (rs : list (string * RecordMap)) (id : Z) (r : loc) :
  h !! _json this = Some n ->
  records n = Some rs ->
  NoDup (map fst rs) ->
  NoDup (childIds rs) ->
  getRecord h this id = Ok (Some r) <->
  exists ty, getRecordOfType h this ty (Some id) = Ok (Some r).
Proof.
  intros Hn Hrs Hty Hids.
  unfold getRecord. rewrite (getRecordMap_merged h this n rs Hn Hrs).
  rewrite (visible_maps rs Hty). cbn [rbind].
  rewrite childIds_concat in Hids.
  assert (Hlook : forall ty, getRecordOfType h this ty (Some id)
            = Ok (match sget ty rs with Some m => iget id m | None => None end)).
  { intros ty. unfold getRecordOfType, deref. rewrite Hn. cbn [rbind]. now rewrite Hrs. }
  split.
  - intros [= Hget]. apply iget_In in Hget.
    apply In_merge in Hget as [[]|(m & Hm & Hin)].
    pose proof Hm as Hm'. apply in_map_iff in Hm' as ([ty m'] & Heq & Htm).
    simpl in Heq. subst m'. exists ty. rewrite Hlook, (sget_first ty m rs Hty Htm).
    f_equal. apply iget_of_In; [|exact Hin].
    apply (NoDup_concat_member (map (map fst) (map snd rs))); [exact Hids|].
    apply in_map_iff. now exists m.
  - intros (ty & Hget). rewrite Hlook in Hget. injection Hget as Hget.
    destruct (sget ty rs) as [m|] eqn:Hm; [|discriminate].
    f_equal. apply (iget_merge_in id r (map snd rs) [] m Hids).
    + apply in_map_iff. exists (ty, m). split; [reflexivity|now apply sget_In].
    + now apply iget_In.
Qed.

(** Witness of X16: element 6 under scene 2 of [Demo.twoRooms]. *)
Lemma getRecord_agrees_with_getRecordOfType_witness :
  getRecord (heap Demo.twoRooms) (mkRF 2 "scene") 6 = Ok (Some 4%nat) <->
  exists ty, getRecordOfType (heap Demo.twoRooms) (mkRF 2 "scene") ty (Some 6%Z)
             = Ok (Some 4%nat).
Proof.
  apply (getRecord_agrees_with_getRecordOfType (heap Demo.twoRooms) (mkRF 2 "scene")
           _ [("element", [(6%Z, 4%nat); (7%Z, 5%nat)])] 6 4%nat eq_refl eq_refl).
  - apply (nodupb_NoDup String.eqb); [apply String.eqb_eq|reflexivity].
  - apply (nodupb_NoDup Z.eqb); [apply Z.eqb_eq|reflexivity].
Defined.

(** X17.  The search by id is sound: what [getRecordAndParentWithId]
    returns carries the id that was asked for, its parent lies in the
    subtree of the factory's node, and the record is stored under that id
    in one of the parent's record maps. *)
Theorem getRecordAndParentWithId_sound (E : Externals) (fuel : nat) (h : Heap)
    (this : RecordFactory) (id : Z) (rp : rAndP) :
  getRecordAndParentWithId E fuel h this id = Ok (Some rp) ->
  rp_id rp = id /\
  reach h (_json this) (rp_p rp) /\
  exists n rs ty m,
    h !! rp_p rp = Some n /\ records n = Some rs /\ In (ty, m) rs
    /\ In (id, rp_r rp) m.
Proof.
  revert this rp. induction fuel as [|fuel IH]; intros this rp H; [discriminate|].
  simpl in H.
  destruct (getRecordMap h this) as [recordMap|e] eqn:Hmap; [|discriminate].
  cbn [rbind] in H.
  pose proof (merged_entry_stored h this recordMap) as Hstored.
  assert (Hincl : incl recordMap recordMap) by apply incl_refl.
  revert Hincl H. generalize recordMap at 1 4 as l.
  induction l as [|[key value] l IHl]; intros Hincl H; [discriminate|].
  destruct (Z.eqb_spec id key) as [->|Hne].
  - destruct (iget key recordMap) as [r|] eqn:Hr; [|discriminate].
    injection H as <-. cbn [rp_id rp_r rp_p].
    split; [reflexivity|]. split; [apply reach_here|].
    apply iget_In in Hr. exact (Hstored _ _ Hmap Hr).
  - destruct (newRecordFactory E h value) as [rf|e] eqn:Hrf; [|discriminate].
    cbn [rbind] in H.
    destruct (getRecordAndParentWithId E fuel h rf id) as [[rp'|]|e] eqn:Hsub;
      [| |discriminate]; cbn [rbind] in H.
    + injection H as <-. destruct (IH rf rp' Hsub) as (Hid & Hreach & Hst).
      split; [exact Hid|]. split; [|exact Hst].
      rewrite (newRecordFactory_json E _ _ _ Hrf) in Hreach.
      eapply reach_step; [|exact Hreach].
      destruct (Hstored key value Hmap (Hincl _ (or_introl eq_refl)))
        as (n & rs & ty & m & Hn & Hrs & Hty & Hk).
      now exists n, rs, ty, m, key.
    + apply IHl; [|exact H]. intros x Hx. apply Hincl. now right.
Qed.

(** Witness of X17: the search for element 5 from the project of
    [Demo.twoRooms] ends at scene 1. *)
Lemma getRecordAndParentWithId_sound_witness :
  exists rp,
    getRecordAndParentWithId Demo.registry 10 (heap Demo.twoRooms) Demo.project 5
    = Ok (Some rp) /\
    rp_id rp = 5%Z /\ reach (heap Demo.twoRooms) 0%nat (rp_p rp).
Proof.
  eexists.
  assert (H : getRecordAndParentWithId Demo.registry 10 (heap Demo.twoRooms)
                Demo.project 5 = Ok (Some _)) by (vm_compute; reflexivity).
  destruct (getRecordAndParentWithId_sound _ _ _ _ _ _ H) as (Hid & Hreach & _).
  split; [exact H|]. split; [exact Hid|exact Hreach].
Defined.


(** ** Breadcrumbs *)

Section Crumbs.
Variable E : Externals.

Lemma last_cons_nonempty {A : Type} (x : A) (l : list A) y :
  last l = Some y -> last (x :: l) = Some y.
Proof. destruct l; [discriminate|]. intros H. exact H. Qed.

Lemma last_app_nonempty {A : Type} (l1 l2 : list A) y :
  last l2 = Some y -> last (app l1 l2) = Some y.
Proof.
  intros H. induction l1 as [|x l1 IH]; [exact H|].
  simpl. apply last_cons_nonempty. exact IH.
Qed.

Lemma walkBreadCrumbs_agrees h segs : forall p c i bc,
  match walkAddress E h segs p c i with
  | Ok (Some rp) =>
      exists more,
        walkBreadCrumbs E h segs c bc = Ok (Some (app bc more)) /\
        length more = length segs /\
        (segs <> [] -> last more = Some (mkCrumb (rp_id rp) (Some (rp_r rp))))
  | Ok None => walkBreadCrumbs E h segs c bc = Ok None
  | Err e => walkBreadCrumbs E h segs c bc = Err e
  end.
Proof.
  induction segs as [|seg rest IH]; intros p c i bc.
  - simpl. exists []. split; [now rewrite app_nil_r|]. split; [reflexivity|].
    intros H; now elim H.
  - cbn [walkAddress walkBreadCrumbs].
    destruct (newRecordFactory E h c) as [rf|e]; [|reflexivity]. cbn [rbind].
    destruct (getRecordOfType h rf
                match split ":" seg !! 0%nat with Some t => t | None => EmptyString end
                (Number (split ":" seg !! 1%nat))) as [newChild|e]; [|reflexivity].
    cbn [rbind].
    destruct newChild as [c'|]; [|reflexivity].
    destruct (Number (split ":" seg !! 1%nat)) as [i'|]; [|reflexivity].
    specialize (IH c c' i' (app bc [mkCrumb i' (Some c')])).
    destruct (walkAddress E h rest c c' i') as [[rp|]|e] eqn:Hw; try exact IH.
    destruct IH as (more & Hbc & Hlen & Hlast).
    exists (mkCrumb i' (Some c') :: more). split; [|split].
    + rewrite Hbc. now rewrite <- app_assoc.
    + simpl. now rewrite Hlen.
    + intros _. destruct rest as [|seg' rest'].
      * simpl in Hw. injection Hw as <-.
        destruct more; [reflexivity|discriminate].
      * apply last_cons_nonempty. apply Hlast. discriminate.
Qed.

Lemma getBreadCrumbsWithId_agrees h id : forall fuel this res,
  getRecordAndParentWithId E fuel h this id = Ok res ->
  match res with
  | Some rp =>
      exists bc, getBreadCrumbsWithId E fuel h this id = Ok (Some bc) /\
                 last bc = Some (mkCrumb (rp_id rp) (Some (rp_r rp)))
  | None => getBreadCrumbsWithId E fuel h this id = Ok None
  end.
Proof.
  induction fuel as [|fuel IH]; intros this res H; [discriminate|].
  simpl in H |- *.
  destruct (getRecordMap h this) as [recordMap|e]; [|discriminate].
  cbn [rbind] in H |- *.
  revert res H. generalize recordMap at 2 5 8 as l.
  induction l as [|[key value] l IHl]; intros res H.
  - injection H as <-. reflexivity.
  - destruct (Z.eqb_spec id key) as [->|Hne].
    + destruct (iget key recordMap) as [r|]; [|discriminate].
      injection H as <-. eexists. split; reflexivity.
    + destruct (newRecordFactory E h value) as [rf|e]; [|discriminate].
      cbn [rbind] in H |- *.
      destruct (getRecordAndParentWithId E fuel h rf id) as [sub|e] eqn:Hsub;
        [|discriminate].
      specialize (IH rf sub Hsub). cbn [rbind] in H.
      destruct sub as [rp'|].
      * injection H as <-. destruct IH as (bc & Hbc & Hlast).
        rewrite Hbc. cbn [rbind]. eexists. split; [reflexivity|].
        now apply last_cons_nonempty.
      * rewrite IH. cbn [rbind]. now apply IHl.
Qed.

End Crumbs.

(** X18.  Breadcrumbs and resolution agree: whenever [getRecordAndParent]
    finds a record, [getBreadCrumbs] returns a list whose last entry is
    that record under its id, and whenever the former finds nothing, so
    does the latter; by id as well as by address. *)
Theorem getBreadCrumbs_ends_at_record (E : Externals) (fuel : nat) (h : Heap)
    (this : RecordFactory) (idOrAddr : idOrAddress) (res : option rAndP) :
  getRecordAndParent E fuel h this idOrAddr = Ok res ->
  match res with
  | Some rp =>
      exists bc, getBreadCrumbs E fuel h this idOrAddr = Ok (Some bc) /\
                 last bc = Some (mkCrumb (rp_id rp) (Some (rp_r rp)))
  | None => getBreadCrumbs E fuel h this idOrAddr = Ok None
  end.
Proof.
  destruct idOrAddr as [id|addr]; simpl.
  - apply getBreadCrumbsWithId_agrees.
  - unfold getRecordAndParentWithAddress, getBreadCrumbsWithAddress.
    destruct (deref h (_json this)) as [n|e]; [|discriminate]. cbn [rbind].
    pose proof (split_nonempty "|" (remove_property_suffix addr)) as Hne.
    destruct (length (split "|" (remove_property_suffix addr)) =? 0)%nat.
    { intros [= <-]. reflexivity. }
    destruct (records n); [|intros [= <-]; reflexivity].
    intros H.
    pose proof (walkBreadCrumbs_agrees E h (split "|" (remove_property_suffix addr))
                  (_json this) (_json this) 0%Z []) as Hw.
    rewrite H in Hw. destruct res as [rp|]; [|exact Hw].
    destruct Hw as (more & Hbc & _ & Hlast). exists more. split; [exact Hbc|].
    now apply Hlast.
Qed.

(** Witness of X18: the crumbs to [scene:1|element:5] in
    [Demo.twoRooms]. *)
Lemma getBreadCrumbs_ends_at_record_witness :
  exists bc,
    getBreadCrumbs Demo.registry 10 (heap Demo.twoRooms) Demo.project
      (ByAddress "scene:1|element:5") = Ok (Some bc) /\
    last bc = Some (mkCrumb 5 (Some 3%nat)).
Proof.
  exact (getBreadCrumbs_ends_at_record Demo.registry 10 (heap Demo.twoRooms)
           Demo.project (ByAddress "scene:1|element:5") (Some (mkRAndP 5 3 1)) eq_refl).
Defined.

(** ** Names *)

Section Names.
Variable E : Externals.

Lemma rmap_In {A B : Type} (f : A -> res B) (l : list A) bs x :
  rmap f l = Ok bs -> In x l -> exists b, f x = Ok b /\ In b bs.
Proof.
  revert bs. induction l as [|a l IH]; intros bs H Hin; [destruct Hin|].
  simpl in H. apply rbind_Ok in H as (b & Hb & H).
  apply rbind_Ok in H as (bs' & Hbs & H). injection H as <-.
  destruct Hin as [->|Hin].
  - exists b. split; [exact Hb|now left].
  - destruct (IH _ Hbs Hin) as (b' & Hb' & Hin'). exists b'. split; [exact Hb'|now right].
Qed.

Lemma existsb_eqb_In (x : string) (l : list string) :
  existsb (String.eqb x) l = true <-> In x l.
Proof.
  rewrite existsb_exists. split.
  - intros (y & Hy & Heq). apply String.eqb_eq in Heq. now subst.
  - intros H. exists x. split; [exact H|apply String.eqb_refl].
Qed.

End Names.

(** X19.  When the name utility keeps its contract (the name it returns
    is not among the taken ones), [changeRecordName] leaves the record
    with a name that none of the other entries of the record map of that
    type had; no cell but the record's changes, and of the record only
    the name. *)
Theorem changeRecordName_avoids_sibling_names (E : Externals) (this : RecordFactory)
    (ty : string) (id : Z) (newName : option string) (s : Store) (r : loc)
    (s' : Store) :
  (forall n taken, In n taken -> ~ In (getSafeAndUniqueRecordName E n taken) taken) ->
  changeRecordName E this ty id newName s = Ok (Some r, s') ->
  exists m n nm,
    getRecordMapOfType (heap s) this ty = Ok m /\
    heap s !! r = Some n /\
    heap s' !! r = Some (with_name (Some nm) n) /\
    (forall k c nc, In (k, c) m -> k <> id -> heap s !! c = Some nc ->
                    name nc <> Some nm) /\
    (forall l, l <> r -> heap s' !! l = heap s !! l).
Proof.
  intros Hsafe H. unfold changeRecordName in H.
  apply bind_Ok in H as (rec & sa & Hrec & H). apply look_Ok in Hrec as [Hrec ->].
  destruct rec as [rec|]; [|apply ret_Ok in H as [[=] _]].
  destruct (isRecordType E ty); simpl in H; [|discriminate].
  destruct (defaultName E ty) as [dflt|]; [|apply ret_Ok in H as [[=] _]].
  apply bind_Ok in H as (m & sa & Hm & H). apply look_Ok in Hm as [Hm ->].
  apply bind_Ok in H as (names & sa & Hnames & H). apply look_Ok in Hnames as [Hnames ->].
  apply bind_Ok in H as ([] & s1 & Hupd & H). apply ret_Ok in H as [[= <-] ->].
  apply update_Ok in Hupd as (n & Hn & ->). simpl.
  set (wanted := match newName with Some x => x | None => dflt end) in *.
  set (existingNames := omap (fun x : option string => x) names) in *.
  set (nm := if existsb (String.eqb wanted) existingNames
             then getSafeAndUniqueRecordName E wanted existingNames
             else wanted).
  assert (Hfresh : ~ In nm existingNames).
  { unfold nm. destruct (existsb (String.eqb wanted) existingNames) eqn:Hex.
    - apply Hsafe. now apply existsb_eqb_In.
    - intros Hin. apply existsb_eqb_In in Hin. congruence. }
  exists m, n, nm. split; [exact Hm|]. split; [exact Hn|].
  assert (Hlt : (r < length (heap s))%nat) by (eapply lookup_lt_Some; eauto).
  split; [now apply list_lookup_insert_eq|]. split.
  - intros k c nc Hin Hk Hc Hname. apply Hfresh.
    assert (Hother : In (k, c) (filter (fun idValue : Z * loc =>
                                          negb (fst idValue =? id)%Z) m)).
    { apply list_elem_of_In, list_elem_of_filter. split; [|now apply list_elem_of_In].
      simpl. destruct (Z.eqb_spec k id); [contradiction|exact I]. }
    destruct (rmap_In _ _ _ _ Hnames Hother) as (b & Hb & Hbin).
    simpl in Hb. unfold deref in Hb. rewrite Hc in Hb. simpl in Hb. injection Hb as <-.
    apply list_elem_of_In, list_elem_of_omap. exists (name nc).
    split; [now apply list_elem_of_In|exact Hname].
  - intros l Hl. now rewrite list_lookup_insert_ne by congruence.
Qed.

Lemma longerName_fresh n taken : ~ In (Samples.longerName n taken) taken.
Proof.
  intros Hin.
  assert (Hlen : forall x, In x taken ->
            (String.length x <= fold_right Nat.max 0%nat (map String.length taken))%nat).
  { clear. induction taken as [|y taken IH]; intros x Hx; [destruct Hx|].
    simpl. destruct Hx as [->|Hx]; [lia|]. specialize (IH x Hx). lia. }
  specialize (Hlen _ Hin). unfold Samples.longerName in Hlen.
  assert (Happ : forall a b, String.length (a ++ b) = (String.length a + String.length b)%nat).
  { clear. induction a as [|c a IH]; intros b; simpl; [reflexivity|]. now rewrite IH. }
  assert (Hticks : forall k, String.length (Samples.ticks k) = k).
  { clear. induction k as [|k IH]; simpl; [reflexivity|]. now rewrite IH. }
  rewrite Happ, Hticks in Hlen. lia.
Defined.

(** Witness of X19: scene 3 of [Samples.named] asks for the name [Hall],
    which scene 1 has. *)
Lemma changeRecordName_avoids_sibling_names_witness :
  exists r s' n',
    changeRecordName Samples.registry Demo.project "scene" 3 (Some "Hall") Samples.named
    = Ok (Some r, s') /\
    heap s' !! r = Some n' /\
    name n' <> Some "Hall" /\ name n' <> Some "Hall 2".
Proof.
  eexists _, _.
  assert (H : changeRecordName Samples.registry Demo.project "scene" 3 (Some "Hall")
                Samples.named = Ok (Some _, _)) by (vm_compute; reflexivity).
  destruct (changeRecordName_avoids_sibling_names Samples.registry _ _ _ _ _ _ _
              (fun n taken _ => longerName_fresh n taken) H)
    as (m & n & nm & Hm & Hn & Hn' & Hothers & _).
  injection Hm as <-. injection Hn as <-.
  eexists. split; [exact H|]. split; [exact Hn'|].
  split.
  - apply not_eq_sym. intros Heq.
    apply (Hothers 1%Z 1%nat (Demo.leaf "scene" (Some "Hall") (Some 1%Q) []));
      [now left|lia|reflexivity|]. simpl in *. congruence.
  - apply not_eq_sym. intros Heq.
    apply (Hothers 2%Z 2%nat (Demo.leaf "scene" (Some "Hall 2") (Some 2%Q) []));
      [right; now left|lia|reflexivity|]. simpl in *. congruence.
Defined.

(** ** What adding and moving leave alone *)

Section Untouched.
Variable E : Externals.

(** [initializeRecordMap] adds an empty map at most: no lookup changes. *)
Lemma initializeRecordMap_lookups this ty s b s' :
  initializeRecordMap E this ty s = Ok (b, s') ->
  forall rf ty' id',
    getRecordOfType (heap s') rf ty' (Some id')
    = getRecordOfType (heap s) rf ty' (Some id').
Proof.
  unfold initializeRecordMap. intros H rf ty' id'.
  destruct (isRecordType E ty); simpl in H; [|apply ret_Ok in H as [_ ->]; reflexivity].
  apply bind_Ok in H as (n & sa & Hn & H). apply look_Ok in Hn as [Hn ->].
  apply deref_Ok in Hn.
  destruct (match records n with Some rs => sget ty rs | None => None end) eqn:Hmap.
  { apply ret_Ok in H as [_ ->]. reflexivity. }
  destruct (isTypeChildOf E (_type this) ty); simpl in H;
    [|apply ret_Ok in H as [_ ->]; reflexivity].
  apply bind_Ok in H as ([] & s1 & H1 & H).
  apply bind_Ok in H as ([] & s2 & H2 & H). apply ret_Ok in H as [_ ->].
  apply update_Ok in H1 as (n1 & Hn1 & ->). simpl in H2.
  apply update_Ok in H2 as (n2 & Hn2 & ->). simpl in Hn2 |- *.
  assert (Hlt : (_json this < length (heap s))%nat) by (eapply lookup_lt_Some; eauto).
  rewrite list_lookup_insert_eq in Hn2 by exact Hlt. injection Hn2 as <-.
  assert (n1 = n) by congruence. subst n1.
  unfold getRecordOfType, deref.
  destruct (Nat.eq_dec (_json rf) (_json this)) as [->|Hne].
  - rewrite list_lookup_insert_eq by (now rewrite length_insert).
    rewrite Hn. cbn [rbind]. f_equal.
    destruct (records n) as [rs|] eqn:Hrs; simpl; rewrite ?Hrs; simpl.
    + destruct (String.eqb_spec ty' ty) as [->|Hty].
      * now rewrite sget_sset_eq, Hmap.
      * now rewrite sget_sset_ne.
    + destruct (String.eqb ty' ty); reflexivity.
  - now rewrite !list_lookup_insert_ne by congruence.
Qed.

Lemma storeInRecordMap_lookups this ty id record s s' :
  storeInRecordMap this ty id record s = Ok (tt, s') ->
  forall rf ty' id',
    _json rf <> _json this \/ ty' <> ty \/ id' <> id ->
    getRecordOfType (heap s') rf ty' (Some id')
    = getRecordOfType (heap s) rf ty' (Some id').
Proof.
  intros H rf ty' id' Hdiff. unfold storeInRecordMap in H.
  apply update_Ok in H as (n & Hn & ->). simpl.
  assert (Hlt : (_json this < length (heap s))%nat) by (eapply lookup_lt_Some; eauto).
  unfold getRecordOfType, deref.
  destruct (Nat.eq_dec (_json rf) (_json this)) as [Heq|Hne].
  - rewrite Heq, list_lookup_insert_eq, Hn by exact Hlt. cbn [rbind]. f_equal.
    destruct (records n) as [rs|] eqn:Hrs; [|now rewrite Hrs].
    destruct (sget ty rs) as [m|] eqn:Hty; [|now rewrite Hrs].
    simpl. destruct (String.eqb_spec ty' ty) as [->|Hty'].
    + rewrite sget_sset_eq, Hty, iget_iset.
      destruct (Z.eqb_spec id' id); [|reflexivity].
      destruct Hdiff as [?|[?|?]]; congruence.
    + now rewrite sget_sset_ne.
  - now rewrite list_lookup_insert_ne by congruence.
Qed.

(** The lookups that [addRecord] leaves as they were. *)
Lemma addRecordHere_lookups fuel owner record position id dc s ir s' :
  addRecordHere E fuel owner record position id dc s = Ok (Some ir, s') ->
  exists rec,
    heap s !! record = Some rec /\
    (forall i, id = Some i -> ir_id ir = i) /\
    forall rf ty' id',
      _json rf <> _json owner \/ ty' <> type rec \/ id' <> ir_id ir ->
      getRecordOfType (heap s') rf ty' (Some id')
      = getRecordOfType (heap s) rf ty' (Some id').
Proof.
  intros Hall. unfold addRecordHere in Hall.
  apply bind_Ok in Hall as (rec & sa & Hrec & H).
  apply look_Ok in Hrec as [Hrec ->]. apply deref_Ok in Hrec.
  apply bind_Ok in H as (ok & s0 & Hinit & H).
  destruct ok; simpl in H; [|apply ret_Ok in H as [[=] _]].
  apply bind_Ok in H as (recordsArray & s1 & Hsorted & H).
  apply bind_Ok in H as (nodes & sb & Hnodes & H).
  apply look_Ok in Hnodes as [Hnodes ->].
  apply bind_Ok in H as (orders & sb & Horders & H).
  apply look_Ok in Horders as [Horders ->].
  apply bind_Ok in H as ([] & s2 & Hupd & H).
  apply bind_Ok in H as ([] & s3 & Hcyc & H).
  apply bind_Ok in H as (id' & s4 & Hid & H).
  apply bind_Ok in H as ([] & s5 & Hstore & H).
  apply bind_Ok in H as (rec' & sb & Hrec' & H).
  apply look_Ok in Hrec' as [Hrec' ->].
  apply bind_Ok in H as (nm & s6 & Hname & H).
  apply ret_Ok in H as [Hir ->]. injection Hir as ->. simpl.
  exists rec. split; [exact Hrec|]. split.
  { intros i ->. now apply ret_Ok in Hid as [-> _]. }
  intros rf ty' i Hdiff.
  assert (Hcyc_rec : map records (heap s3) = map records (heap s2)).
  { revert Hcyc. destruct dc; simpl.
    - intros Hc. apply ret_Ok in Hc as [_ ->]. reflexivity.
    - intros Hc. apply bind_Ok in Hc as (rf' & sb & Hrf & Hc).
      apply look_Ok in Hrf as [_ ->].
      exact (cycleAllSubRecordIds_frame E records (fun _ _ => eq_refl) _ _ _ _ _ Hc). }
  assert (Hid_heap : heap s4 = heap s3).
  { revert Hid. destruct id; [intros Hi; apply ret_Ok in Hi as [_ ->]; reflexivity|].
    intros [= _ <-]. reflexivity. }
  rewrite (getRecordOfType_same_records (heap s5) (heap s6))
    by exact (changeRecordName_frame E records (fun _ _ => eq_refl) _ _ _ _ _ _ _ Hname).
  rewrite (storeInRecordMap_lookups _ _ _ _ _ _ Hstore rf ty' i Hdiff).
  rewrite Hid_heap.
  rewrite (getRecordOfType_same_records (heap s2) (heap s3)) by exact Hcyc_rec.
  rewrite (getRecordOfType_same_records (heap s1) (heap s2))
    by exact (preserves_update records record (with_order (head orders))
                (fun _ => eq_refl) _ _ _ Hupd).
  rewrite (getRecordOfType_same_records (heap s0) (heap s1))
    by exact (getSortedRecordsOfType_frame records (fun _ _ => eq_refl) _ _ _ _ _ Hsorted).
  exact (initializeRecordMap_lookups _ _ _ _ _ Hinit rf ty' i).
Qed.

End Untouched.

(** X20.  A successful [addRecord] stores the record under the returned
    id, which is the caller's id whenever one is passed, in the
    receiver's record map of the record's type, in place of whatever
    child was stored there under that id; every other lookup, on every
    node and under every other type or id, answers as before. *)
Theorem addRecord_writes_one_entry (E : Externals) (fuel : nat)
    (this : RecordFactory) (record : loc) (position id : option Z) (dc : bool)
    (parent : option idOrAddress) (s : Store) (ir : idAndRecord) (s' : Store) :
  addRecord E fuel this record position id dc parent s = Ok (Some ir, s') ->
  exists owner rec,
    receiver E fuel (heap s) this parent owner /\
    heap s !! record = Some rec /\
    ir_record ir = record /\
    (forall i, id = Some i -> ir_id ir = i) /\
    getRecordOfType (heap s') owner (type rec) (Some (ir_id ir)) = Ok (Some record) /\
    forall rf ty' id',
      _json rf <> _json owner \/ ty' <> type rec \/ id' <> ir_id ir ->
      getRecordOfType (heap s') rf ty' (Some id')
      = getRecordOfType (heap s) rf ty' (Some id').
Proof.
  intros H. apply addRecord_receiver in H as (owner & Hown & H).
  pose proof (addRecordHere_inserted _ _ _ _ _ _ _ _ _ _ H)
    as (rec' & _ & _ & _ & _ & _ & Hrec' & _ & _ & _ & _ & Hir & _ & Hget & _).
  apply addRecordHere_lookups in H as (rec & Hrec & Hid & Hkeep).
  assert (rec' = rec) by congruence. subst rec'.
  exists owner, rec. repeat split; assumption.
Qed.

(** Witness of X20: the loose scene of [Demo.withLoose] is added to the
    project under the id 2, which scene B has: the id now names the
    added scene, and scene A is still found under 1. *)
Lemma addRecord_writes_one_entry_witness :
  exists ir s',
    addRecord Demo.registry 10 Demo.project 3%nat (Some 1%Z) (Some 2%Z) true None
      Demo.withLoose = Ok (Some ir, s') /\
    getRecordOfType (heap Demo.withLoose) Demo.project "scene" (Some 2%Z)
    = Ok (Some 2%nat) /\
    getRecordOfType (heap s') Demo.project "scene" (Some 2%Z) = Ok (Some 3%nat) /\
    getRecordOfType (heap s') Demo.project "scene" (Some 1%Z) = Ok (Some 1%nat).
Proof.
  eexists _, _.
  assert (H : addRecord Demo.registry 10 Demo.project 3%nat (Some 1%Z) (Some 2%Z) true
                None Demo.withLoose = Ok (Some _, _)) by (vm_compute; reflexivity).
  destruct (addRecord_writes_one_entry _ _ _ _ _ _ _ _ _ _ _ H)
    as (owner & rec & Hown & Hrec & _ & Hid & Hget & Hkeep).
  simpl in Hown. subst owner. injection Hrec as <-.
  split; [exact H|]. split; [reflexivity|]. split.
  - rewrite <- (Hid 2%Z eq_refl). exact Hget.
  - rewrite (Hkeep Demo.project "scene" 1%Z); [reflexivity|].
    right. right. rewrite (Hid 2%Z eq_refl). lia.
Defined.

(** ** Moving, copying and deleting by id or address *)

Section Moving.
Variable E : Externals.

Lemma foldM_unresolved {A B : Type} (f : B -> option A -> M B) l :
  (forall b, f b None = throw TypeError) ->
  In None l -> forall b s r, foldM f l b s <> Ok r.
Proof.
  intros Hf. induction l as [|a l IH]; intros Hin b s [b' s'] H; [destruct Hin|].
  simpl in H. apply bind_Ok in H as (b1 & s1 & H1 & H2).
  destruct Hin as [->|Hin].
  - rewrite Hf in H1. discriminate.
  - exact (IH Hin _ _ _ H2).
Qed.

Lemma forM_unresolved {A : Type} (f : option A -> M unit) l :
  f None = throw TypeError ->
  In None l -> forall s r, forM f l s <> Ok r.
Proof.
  intros Hf. induction l as [|a l IH]; intros Hin s [u s'] H; [destruct Hin|].
  simpl in H. apply bind_Ok in H as (b1 & s1 & H1 & H2).
  destruct Hin as [->|Hin].
  - rewrite Hf in H1. discriminate.
  - exact (IH Hin _ _ H2).
Qed.

Lemma rmap_In_value {A B : Type} (f : A -> res B) l bs a b :
  rmap f l = Ok bs -> In a l -> f a = Ok b -> In b bs.
Proof.
  revert bs. induction l as [|x l IH]; intros bs H Hin Ha; [destruct Hin|].
  simpl in H. apply rbind_Ok in H as (y & Hy & H).
  apply rbind_Ok in H as (ys & Hys & H). injection H as <-.
  destruct Hin as [->|Hin].
  - left. congruence.
  - right. now apply IH.
Qed.

(** [addRecord] with [dontCycleSubRecordIds] set writes orders, record
    maps and names only. *)
Lemma addRecord_moved_frame {X : Type} (F : RecordNode -> X) :
  (forall o n, F (with_order o n) = F n) ->
  (forall r n, F (with_records r n) = F n) ->
  (forall x n, F (with_name x n) = F n) ->
  forall fuel this record position id parent,
    preserves F (addRecord E fuel this record position id true parent).
Proof.
  intros Ho Hr Hn fuel this record position id parent.
  assert (Hhere : forall owner,
             preserves F (addRecordHere E fuel owner record position id true)).
  { intros owner. unfold addRecordHere.
    apply preserves_bind; [apply preserves_look|intros rec].
    apply preserves_bind; [now apply initializeRecordMap_frame|intros ok].
    destruct ok; simpl; [|apply preserves_ret].
    apply preserves_bind; [now apply getSortedRecordsOfType_frame|intros recordsArray].
    apply preserves_bind; [apply preserves_look|intros nodes].
    apply preserves_bind; [apply preserves_look|intros orders].
    apply preserves_bind; [apply preserves_update; intros; apply Ho|intros _].
    apply preserves_bind; [apply preserves_ret|intros _].
    apply preserves_bind; [destruct id; [apply preserves_ret|apply preserves_generateIdV2]|].
    intros id'.
    apply preserves_bind; [now apply storeInRecordMap_frame|intros _].
    apply preserves_bind; [apply preserves_look|intros rec'].
    apply preserves_bind; [now apply changeRecordName_frame|intros _].
    apply preserves_ret. }
  unfold addRecord. destruct parent as [parent|]; [|apply Hhere].
  apply preserves_bind; [apply preserves_look|intros pr].
  destruct pr as [pr|]; [|apply preserves_ret].
  apply preserves_bind; [apply preserves_look|intros rf]. apply Hhere.
Qed.

Lemma deleteRecord_frame {X : Type} (F : RecordNode -> X) :
  (forall r n, F (with_records r n) = F n) ->
  forall this ty id, preserves F (deleteRecord this ty id).
Proof.
  intros Hr this ty id. unfold deleteRecord, removeFromRecordMap.
  frame;
    repeat match goal with
           | |- context [match ?x with _ => _ end] => destruct x
           end;
    try apply Hr; reflexivity.
Qed.

End Moving.

(** X21.  [moveDeepRecordsToAddress] and [copyDeepRecordsToAddress] answer
    [false] exactly when the destination does not resolve, and then they
    have changed nothing: no source is deleted before the destination is
    known to exist. *)
Theorem unresolved_destination_changes_nothing (E : Externals) (fuel : nat)
    (this : RecordFactory) (source : list idOrAddress) (dest : idOrAddress)
    (destPosition : option Z) (s : Store) (b : bool) (s' : Store) :
  moveDeepRecordsToAddress E fuel this source dest destPosition s = Ok (b, s')
  \/ copyDeepRecordsToAddress E fuel this source dest destPosition s = Ok (b, s') ->
  (b = false <-> getRecordAndParent E fuel (heap s) this dest = Ok None) /\
  (b = false -> s' = s).
Proof.
  intros [H|H].
  - unfold moveDeepRecordsToAddress in H.
    apply bind_Ok in H as (arr & sa & Harr & H). apply look_Ok in Harr as [Harr ->].
    apply bind_Ok in H as (d & sa & Hd & H). apply look_Ok in Hd as [Hd ->].
    destruct d as [d|].
    + apply bind_Ok in H as (del & s1 & _ & H).
      apply bind_Ok in H as ([] & s2 & _ & H). apply ret_Ok in H as [Hb _].
      split; [split; intros; congruence|intros; congruence].
    + apply ret_Ok in H as [Hb Hs]. split; [split; intros; congruence|intros; congruence].
  - unfold copyDeepRecordsToAddress in H.
    apply bind_Ok in H as (arr & sa & Harr & H). apply look_Ok in Harr as [Harr ->].
    apply bind_Ok in H as (d & sa & Hd & H). apply look_Ok in Hd as [Hd ->].
    destruct d as [d|].
    + apply bind_Ok in H as ([] & s2 & _ & H). apply ret_Ok in H as [Hb _].
      split; [split; intros; congruence|intros; congruence].
    + apply ret_Ok in H as [Hb Hs]. split; [split; intros; congruence|intros; congruence].
Qed.

(** Witness of X21: nothing in [Demo.twoRooms] carries the id 99. *)
Lemma unresolved_destination_changes_nothing_witness :
  getRecordAndParent Demo.registry 10 (heap Demo.twoRooms) Demo.project (ById 99)
  = Ok None.
Proof.
  assert (H : moveDeepRecordsToAddress Demo.registry 10 Demo.project [ById 5] (ById 99)
                None Demo.twoRooms = Ok (false, Demo.twoRooms))
    by (vm_compute; reflexivity).
  destruct (unresolved_destination_changes_nothing _ _ _ _ _ _ _ _ _ (or_introl H))
    as [[Hto _] _].
  exact (Hto eq_refl).
Defined.

(** X22.  With a destination that resolves, one source that does not
    resolve makes both [moveDeepRecordsToAddress] and
    [copyDeepRecordsToAddress] throw: neither returns a value, whatever
    the other sources are. *)
Theorem unresolved_source_throws (E : Externals) (fuel : nat)
    (this : RecordFactory) (source : list idOrAddress) (dest : idOrAddress)
    (destPosition : option Z) (s : Store) (x : idOrAddress) (d : rAndP) :
  In x source ->
  getRecordAndParent E fuel (heap s) this x = Ok None ->
  getRecordAndParent E fuel (heap s) this dest = Ok (Some d) ->
  (forall r, moveDeepRecordsToAddress E fuel this source dest destPosition s <> Ok r) /\
  (forall r, copyDeepRecordsToAddress E fuel this source dest destPosition s <> Ok r).
Proof.
  intros Hin Hx Hd. split; intros [b s'] H.
  - unfold moveDeepRecordsToAddress in H.
    apply bind_Ok in H as (arr & sa & Harr & H). apply look_Ok in Harr as [Harr ->].
    apply bind_Ok in H as (d' & sa & Hd' & H). apply look_Ok in Hd' as [Hd' ->].
    rewrite Hd in Hd'. injection Hd' as <-.
    apply bind_Ok in H as (del & s1 & Hfold & _).
    refine (foldM_unresolved _ arr _ (rmap_In_value _ _ _ _ _ Harr Hin Hx) _ _ _ Hfold).
    reflexivity.
  - unfold copyDeepRecordsToAddress in H.
    apply bind_Ok in H as (arr & sa & Harr & H). apply look_Ok in Harr as [Harr ->].
    apply bind_Ok in H as (d' & sa & Hd' & H). apply look_Ok in Hd' as [Hd' ->].
    rewrite Hd in Hd'. injection Hd' as <-.
    apply bind_Ok in H as ([] & s1 & Hfor & _).
    refine (forM_unresolved _ (rev arr) eq_refl _ _ _ Hfor).
    apply in_rev. rewrite rev_involutive.
    exact (rmap_In_value _ _ _ _ _ Harr Hin Hx).
Qed.

(** Witness of X22: element 5 and the unknown id 99 are sent to scene 2
    of [Demo.twoRooms]. *)
Lemma unresolved_source_throws_witness :
  (forall r, moveDeepRecordsToAddress Demo.registry 10 Demo.project
               [ById 5; ById 99] (ById 2) None Demo.twoRooms <> Ok r) /\
  (forall r, copyDeepRecordsToAddress Demo.registry 10 Demo.project
               [ById 5; ById 99] (ById 2) None Demo.twoRooms <> Ok r).
Proof.
  apply (unresolved_source_throws Demo.registry 10 Demo.project [ById 5; ById 99]
           (ById 2) None Demo.twoRooms (ById 99) (mkRAndP 2 2 0)).
  - right. now left.
  - vm_compute. reflexivity.
  - vm_compute. reflexivity.
Defined.

(** X23.  [reorderRecords] writes orders and nothing else: apart from its
    order every node of the store is what it was, and no node is added or
    dropped. *)
Theorem reorderRecords_changes_orders_only (this : RecordFactory) (ty : string)
    (ids : list Z) (position : Z) (s s' : Store) :
  reorderRecords this ty ids position s = Ok (tt, s') ->
  map (with_order None) (heap s') = map (with_order None) (heap s).
Proof.
  assert (Hframe : preserves (with_order None) (reorderRecords this ty ids position)).
  { unfold reorderRecords.
    apply preserves_bind;
      [apply getSortedRecordsOfType_frame; reflexivity|intros sortedRecords].
    frame. reflexivity. }
  intros H. exact (Hframe _ _ _ H).
Qed.

(** Witness of X23: element 7 of scene 2 in [Demo.twoRooms] is asked to
    the front. *)
Lemma reorderRecords_changes_orders_only_witness :
  exists s',
    reorderRecords (mkRF 2 "scene") "element" [7%Z] 0 Demo.twoRooms = Ok (tt, s') /\
    map (with_order None) (heap s') = map (with_order None) (heap Demo.twoRooms).
Proof.
  eexists.
  assert (H : reorderRecords (mkRF 2 "scene") "element" [7%Z] 0 Demo.twoRooms
              = Ok (tt, _)) by (vm_compute; reflexivity).
  split; [exact H|].
  exact (reorderRecords_changes_orders_only _ _ _ _ _ _ H).
Defined.

(** X24.  [moveDeepRecordsToAddress] writes record maps, orders and names
    only: every node object has the type and the property bag it had, so
    no property is rewritten by a move.  (Whether a moved record is
    stored again is another matter, and not part of this statement.) *)
Theorem moveDeepRecordsToAddress_keeps_types_and_props (E : Externals) (fuel : nat)
    (this : RecordFactory) (source : list idOrAddress) (dest : idOrAddress)
    (destPosition : option Z) (s : Store) (b : bool) (s' : Store) :
  moveDeepRecordsToAddress E fuel this source dest destPosition s = Ok (b, s') ->
  map (fun n => (type n, props n)) (heap s')
  = map (fun n => (type n, props n)) (heap s).
Proof.
  revert s b s'.
  change (preserves (fun n => (type n, props n))
            (moveDeepRecordsToAddress E fuel this source dest destPosition)).
  unfold moveDeepRecordsToAddress.
  apply preserves_bind; [apply preserves_look|intros arr].
  apply preserves_bind; [apply preserves_look|intros d].
  destruct d as [d|]; [|apply preserves_ret].
  apply preserves_bind.
  - apply preserves_foldM. intros del [rp|]; [|apply preserves_throw].
    apply preserves_bind; [apply preserves_look|intros rf].
    apply preserves_bind; [apply preserves_look|intros r].
    apply preserves_bind; [apply deleteRecord_frame; reflexivity|intros [dd|]];
      apply preserves_ret.
  - intros del. apply preserves_bind; [|intros _; apply preserves_ret].
    apply preserves_forM. intros ir.
    apply preserves_bind; [|intros _; apply preserves_ret].
    apply addRecord_moved_frame; reflexivity.
Qed.

(** Witness of X24: element 5 of scene 1 in [Demo.twoRooms] is moved to
    scene 2. *)
Lemma moveDeepRecordsToAddress_keeps_types_and_props_witness :
  exists s',
    moveDeepRecordsToAddress Demo.registry 10 Demo.project [ById 5] (ById 2) None
      Demo.twoRooms = Ok (true, s') /\
    map (fun n => (type n, props n)) (heap s')
    = map (fun n => (type n, props n)) (heap Demo.twoRooms).
Proof.
  eexists.
  assert (H : moveDeepRecordsToAddress Demo.registry 10 Demo.project [ById 5] (ById 2)
                None Demo.twoRooms = Ok (true, _)) by (vm_compute; reflexivity).
  split; [exact H|].
  exact (moveDeepRecordsToAddress_keeps_types_and_props _ _ _ _ _ _ _ _ _ H).
Defined.

(** X25.  [deleteDeepRecord] hands back the record that the search found,
    with its id, and removes the entry under that id from the parent's
    record map of the type the record itself declares.  Every other
    lookup answers as before; in particular a record that its parent
    stores under another type name than its own is reported as deleted
    and is still there. *)
Theorem deleteDeepRecord_removes_found_entry (E : Externals) (fuel : nat)
    (this : RecordFactory) (idOrAddr : idOrAddress) (s : Store) (rp : rAndP)
    (r : RecordNode) (parent : RecordFactory) (m : RecordMap)
    (res : option idAndRecord) (s' : Store) :
  getRecordAndParent E fuel (heap s) this idOrAddr = Ok (Some rp) ->
  heap s !! rp_r rp = Some r ->
  _json parent = rp_p rp ->
  getRecordMapOfType (heap s) parent (type r) = Ok m ->
  NoDup (map fst m) ->
  deleteDeepRecord E fuel this idOrAddr s = Ok (res, s') ->
  res = Some (mkIdAndRecord (rp_id rp) (rp_r rp)) /\
  getRecordOfType (heap s') parent (type r) (Some (rp_id rp)) = Ok None /\
  (forall rf ty' id',
      _json rf <> rp_p rp \/ ty' <> type r \/ id' <> rp_id rp ->
      getRecordOfType (heap s') rf ty' (Some id')
      = getRecordOfType (heap s) rf ty' (Some id')).
Proof.
  intros Hrp Hr Hp Hm Hnd H. unfold deleteDeepRecord in H.
  apply bind_Ok in H as (rp' & sa & Hrp' & H). apply look_Ok in Hrp' as [Hrp' ->].
  rewrite Hrp in Hrp'. injection Hrp' as <-.
  apply bind_Ok in H as (rf & sa & Hrf & H). apply look_Ok in Hrf as [Hrf ->].
  apply bind_Ok in H as (r' & sa & Hr' & H). apply look_Ok in Hr' as [Hr' ->].
  apply deref_Ok in Hr'. assert (r' = r) by congruence. subst r'.
  apply bind_Ok in H as ([] & s1 & Hrem & H). apply ret_Ok in H as [-> ->].
  assert (Hjson : _json rf = rp_p rp).
  { unfold newRecordFactory in Hrf. apply rbind_Ok in Hrf as (n & _ & Hrf).
    destruct (isRecordType E (type n)); [|discriminate]. now injection Hrf as <-. }
  assert (Hm' : getRecordMapOfType (heap s) rf (type r) = Ok m).
  { unfold getRecordMapOfType in *. now rewrite Hjson, <- Hp. }
  destruct (removeFromRecordMap_lookups _ _ _ _ _ _ Hm' Hnd Hrem) as (Hgone & Hrest & _).
  split; [reflexivity|]. split.
  - unfold getRecordOfType in *. now rewrite Hp, <- Hjson.
  - intros rf' ty' id' Hdiff. apply Hrest. now rewrite Hjson.
Qed.

(** Witness of X25: element 5 of [Demo.twoRooms] is deleted by its id,
    from the project. *)
Lemma deleteDeepRecord_removes_found_entry_witness :
  exists s',
    deleteDeepRecord Demo.registry 10 Demo.project (ById 5) Demo.twoRooms
    = Ok (Some (mkIdAndRecord 5 3), s') /\
    getRecordOfType (heap s') (mkRF 1 "scene") "element" (Some 5%Z) = Ok None /\
    getRecordOfType (heap s') (mkRF 2 "scene") "element" (Some 6%Z) = Ok (Some 4%nat).
Proof.
  eexists.
  assert (H : deleteDeepRecord Demo.registry 10 Demo.project (ById 5) Demo.twoRooms
              = Ok (Some (mkIdAndRecord 5 3), _)) by (vm_compute; reflexivity).
  assert (Hnd : NoDup (map fst [(5%Z, 3%nat)])).
  { apply NoDup_cons. split; [intros Hin; inversion Hin|constructor]. }
  destruct (deleteDeepRecord_removes_found_entry Demo.registry 10 Demo.project (ById 5)
              Demo.twoRooms (mkRAndP 5 3 1)
              (Demo.leaf "element" (Some "Lamp") (Some 1%Q) []) (mkRF 1 "scene")
              [(5%Z, 3%nat)] _ _ eq_refl eq_refl eq_refl eq_refl Hnd H)
    as (_ & Hgone & Hrest).
  split; [exact H|]. split; [exact Hgone|].
  rewrite (Hrest (mkRF 2 "scene") "element" 6%Z); [reflexivity|]. left. simpl. lia.
Defined.

(** X26.  [changeDeepRecordName] writes a name and nothing else: apart
    from its name every node of the store is what it was, whether or not
    the record was found. *)
Theorem changeDeepRecordName_changes_names_only (E : Externals) (fuel : nat)
    (this : RecordFactory) (idOrAddr : idOrAddress) (newName : option string)
    (s : Store) (res : option loc) (s' : Store) :
  changeDeepRecordName E fuel this idOrAddr newName s = Ok (res, s') ->
  map (with_name None) (heap s') = map (with_name None) (heap s).
Proof.
  assert (Hframe : preserves (with_name None)
                     (changeDeepRecordName E fuel this idOrAddr newName)).
  { unfold changeDeepRecordName.
    apply preserves_bind; [apply preserves_look|intros rp].
    destruct rp as [rp|]; [|apply preserves_ret].
    apply preserves_bind; [apply preserves_look|intros rf].
    apply preserves_bind; [apply preserves_look|intros r].
    apply changeRecordName_frame. reflexivity. }
  intros H. exact (Hframe _ _ _ H).
Qed.

(** Witness of X26: scene 3 of [Samples.named] is renamed by its id. *)
Lemma changeDeepRecordName_changes_names_only_witness :
  exists res s',
    changeDeepRecordName Samples.registry 10 Demo.project (ById 3) (Some "Hall")
      Samples.named = Ok (res, s') /\
    map (with_name None) (heap s') = map (with_name None) (heap Samples.named).
Proof.
  eexists _, _.
  assert (H : changeDeepRecordName Samples.registry 10 Demo.project (ById 3)
                (Some "Hall") Samples.named = Ok (_, _)) by (vm_compute; reflexivity).
  split; [exact H|].
  exact (changeDeepRecordName_changes_names_only _ _ _ _ _ _ _ _ H).
Defined.
